(** * Fuel receipt sorter: a shallow embedding of [sort_fuel_receipts_ocr.py]

    The development follows the Python module function by function.

    - [PyStr] holds the fragment of Python's [str] the module relies on
      ([strip], [split], [in], [zfill], slicing, comparison).  A text is a
      sequence of Unicode characters; the character classes [isspace],
      [isalnum] and [\d] are the tables of CPython 3.11 (Unicode 14.0.0),
      over all the code points.
    - [Re] is a backtracking matcher with ordered choice, greedy and lazy
      repetition and capture groups, the semantics of Python's [re] for the
      patterns that occur in the module, together with [search] and
      [findall].
    - [Sorter] contains the functions of the module under their own names.

    Lemmas come after all the definitions. *)

From Stdlib Require Import List Arith NArith Bool Ascii Lia.
From Stdlib Require Import Permutation Sorted QArith.
From Stdlib Require String.
Import ListNotations String.StringSyntax.
Delimit Scope string_scope with string.

Local Close Scope Q_scope.
Local Open Scope nat_scope.
Local Open Scope list_scope.

Set Implicit Arguments.

(* ================================================================== *)
(** ** Python strings *)
(* ================================================================== *)

Module PyStr.

(** A character is a Unicode scalar value, that is a code point other than
    the surrogates U+D800 to U+DFFF: the characters a UTF-8 stream carries,
    such as the output of the OCR engine and the console the module prints
    to.  The characters are numbered in the order of their code points, and
    [ord] gives the code point of a character. *)
Definition char := N.

Definition text := list char.

Definition ord (c : char) : N :=
  if (c <? 55296)%N then c else (c + 2048)%N.

(** [chr(n)] for a code point [n] that is not a surrogate. *)
Definition unichr (n : N) : char :=
  if (n <? 55296)%N then n else (n - 2048)%N.

(** The character of a code point below 256. *)
Definition ch (a : ascii) : char := N_of_ascii a.
Arguments ch a%_char.

(** A literal of the source. *)
Definition str (s : String.string) : text :=
  map ch (String.list_ascii_of_string s).
Arguments str s%_string.

Definition between (lo hi : N) (c : char) : bool :=
  (lo <=? ord c)%N && (ord c <=? hi)%N.

(** A table of ranges of code points holds [n]. *)
Fixpoint in_ranges (table : list (N * N)) (n : N) : bool :=
  match table with
  | [] => false
  | (first, last) :: table' =>
      ((first <=? n)%N && (n <=? last)%N) || in_ranges table' n
  end.

(** The decimal digits (category Nd), which are those of [str.isdecimal]
    and of the class [\d]: ranges of code points, first and last. *)
Definition decimal_ranges : list (N * N) :=
  [(48, 57); (1632, 1641); (1776, 1785); (1984, 1993); (2406, 2415);
   (2534, 2543); (2662, 2671); (2790, 2799); (2918, 2927); (3046, 3055);
   (3174, 3183); (3302, 3311); (3430, 3439); (3558, 3567); (3664, 3673);
   (3792, 3801); (3872, 3881); (4160, 4169); (4240, 4249); (6112, 6121);
   (6160, 6169); (6470, 6479); (6608, 6617); (6784, 6793); (6800, 6809);
   (6992, 7001); (7088, 7097); (7232, 7241); (7248, 7257); (42528, 42537);
   (43216, 43225); (43264, 43273); (43472, 43481); (43504, 43513);
   (43600, 43609); (44016, 44025); (65296, 65305); (66720, 66729);
   (68912, 68921); (69734, 69743); (69872, 69881); (69942, 69951);
   (70096, 70105); (70384, 70393); (70736, 70745); (70864, 70873);
   (71248, 71257); (71360, 71369); (71472, 71481); (71904, 71913);
   (72016, 72025); (72784, 72793); (73040, 73049); (73120, 73129);
   (92768, 92777); (92864, 92873); (93008, 93017); (120782, 120831);
   (123200, 123209); (123632, 123641); (125264, 125273); (130032, 130041)]%N.

(** The white space of [str.isspace], of [str.strip] and of the class
    [\s]. *)
Definition space_ranges : list (N * N) :=
  [(9, 13); (28, 32); (133, 133); (160, 160); (5760, 5760); (8192, 8202);
   (8232, 8233); (8239, 8239); (8287, 8287); (12288, 12288)]%N.

(** The characters for which [str.isalnum] holds. *)
Definition alnum_ranges : list (N * N) :=
  [(48, 57); (65, 90); (97, 122); (170, 170); (178, 179); (181, 181);
   (185, 186); (188, 190); (192, 214); (216, 246); (248, 705); (710, 721);
   (736, 740); (748, 748); (750, 750); (880, 884); (886, 887); (890, 893);
   (895, 895); (902, 902); (904, 906); (908, 908); (910, 929); (931, 1013);
   (1015, 1153); (1162, 1327); (1329, 1366); (1369, 1369); (1376, 1416);
   (1488, 1514); (1519, 1522); (1568, 1610); (1632, 1641); (1646, 1647);
   (1649, 1747); (1749, 1749); (1765, 1766); (1774, 1788); (1791, 1791);
   (1808, 1808); (1810, 1839); (1869, 1957); (1969, 1969); (1984, 2026);
   (2036, 2037); (2042, 2042); (2048, 2069); (2074, 2074); (2084, 2084);
   (2088, 2088); (2112, 2136); (2144, 2154); (2160, 2183); (2185, 2190);
   (2208, 2249); (2308, 2361); (2365, 2365); (2384, 2384); (2392, 2401);
   (2406, 2415); (2417, 2432); (2437, 2444); (2447, 2448); (2451, 2472);
   (2474, 2480); (2482, 2482); (2486, 2489); (2493, 2493); (2510, 2510);
   (2524, 2525); (2527, 2529); (2534, 2545); (2548, 2553); (2556, 2556);
   (2565, 2570); (2575, 2576); (2579, 2600); (2602, 2608); (2610, 2611);
   (2613, 2614); (2616, 2617); (2649, 2652); (2654, 2654); (2662, 2671);
   (2674, 2676); (2693, 2701); (2703, 2705); (2707, 2728); (2730, 2736);
   (2738, 2739); (2741, 2745); (2749, 2749); (2768, 2768); (2784, 2785);
   (2790, 2799); (2809, 2809); (2821, 2828); (2831, 2832); (2835, 2856);
   (2858, 2864); (2866, 2867); (2869, 2873); (2877, 2877); (2908, 2909);
   (2911, 2913); (2918, 2927); (2929, 2935); (2947, 2947); (2949, 2954);
   (2958, 2960); (2962, 2965); (2969, 2970); (2972, 2972); (2974, 2975);
   (2979, 2980); (2984, 2986); (2990, 3001); (3024, 3024); (3046, 3058);
   (3077, 3084); (3086, 3088); (3090, 3112); (3114, 3129); (3133, 3133);
   (3160, 3162); (3165, 3165); (3168, 3169); (3174, 3183); (3192, 3198);
   (3200, 3200); (3205, 3212); (3214, 3216); (3218, 3240); (3242, 3251);
   (3253, 3257); (3261, 3261); (3293, 3294); (3296, 3297); (3302, 3311);
   (3313, 3314); (3332, 3340); (3342, 3344); (3346, 3386); (3389, 3389);
   (3406, 3406); (3412, 3414); (3416, 3425); (3430, 3448); (3450, 3455);
   (3461, 3478); (3482, 3505); (3507, 3515); (3517, 3517); (3520, 3526);
   (3558, 3567); (3585, 3632); (3634, 3635); (3648, 3654); (3664, 3673);
   (3713, 3714); (3716, 3716); (3718, 3722); (3724, 3747); (3749, 3749);
   (3751, 3760); (3762, 3763); (3773, 3773); (3776, 3780); (3782, 3782);
   (3792, 3801); (3804, 3807); (3840, 3840); (3872, 3891); (3904, 3911);
   (3913, 3948); (3976, 3980); (4096, 4138); (4159, 4169); (4176, 4181);
   (4186, 4189); (4193, 4193); (4197, 4198); (4206, 4208); (4213, 4225);
   (4238, 4238); (4240, 4249); (4256, 4293); (4295, 4295); (4301, 4301);
   (4304, 4346); (4348, 4680); (4682, 4685); (4688, 4694); (4696, 4696);
   (4698, 4701); (4704, 4744); (4746, 4749); (4752, 4784); (4786, 4789);
   (4792, 4798); (4800, 4800); (4802, 4805); (4808, 4822); (4824, 4880);
   (4882, 4885); (4888, 4954); (4969, 4988); (4992, 5007); (5024, 5109);
   (5112, 5117); (5121, 5740); (5743, 5759); (5761, 5786); (5792, 5866);
   (5870, 5880); (5888, 5905); (5919, 5937); (5952, 5969); (5984, 5996);
   (5998, 6000); (6016, 6067); (6103, 6103); (6108, 6108); (6112, 6121);
   (6128, 6137); (6160, 6169); (6176, 6264); (6272, 6276); (6279, 6312);
   (6314, 6314); (6320, 6389); (6400, 6430); (6470, 6509); (6512, 6516);
   (6528, 6571); (6576, 6601); (6608, 6618); (6656, 6678); (6688, 6740);
   (6784, 6793); (6800, 6809); (6823, 6823); (6917, 6963); (6981, 6988);
   (6992, 7001); (7043, 7072); (7086, 7141); (7168, 7203); (7232, 7241);
   (7245, 7293); (7296, 7304); (7312, 7354); (7357, 7359); (7401, 7404);
   (7406, 7411); (7413, 7414); (7418, 7418); (7424, 7615); (7680, 7957);
   (7960, 7965); (7968, 8005); (8008, 8013); (8016, 8023); (8025, 8025);
   (8027, 8027); (8029, 8029); (8031, 8061); (8064, 8116); (8118, 8124);
   (8126, 8126); (8130, 8132); (8134, 8140); (8144, 8147); (8150, 8155);
   (8160, 8172); (8178, 8180); (8182, 8188); (8304, 8305); (8308, 8313);
   (8319, 8329); (8336, 8348); (8450, 8450); (8455, 8455); (8458, 8467);
   (8469, 8469); (8473, 8477); (8484, 8484); (8486, 8486); (8488, 8488);
   (8490, 8493); (8495, 8505); (8508, 8511); (8517, 8521); (8526, 8526);
   (8528, 8585); (9312, 9371); (9450, 9471); (10102, 10131); (11264, 11492);
   (11499, 11502); (11506, 11507); (11517, 11517); (11520, 11557);
   (11559, 11559); (11565, 11565); (11568, 11623); (11631, 11631);
   (11648, 11670); (11680, 11686); (11688, 11694); (11696, 11702);
   (11704, 11710); (11712, 11718); (11720, 11726); (11728, 11734);
   (11736, 11742); (11823, 11823); (12293, 12295); (12321, 12329);
   (12337, 12341); (12344, 12348); (12353, 12438); (12445, 12447);
   (12449, 12538); (12540, 12543); (12549, 12591); (12593, 12686);
   (12690, 12693); (12704, 12735); (12784, 12799); (12832, 12841);
   (12872, 12879); (12881, 12895); (12928, 12937); (12977, 12991);
   (13312, 19903); (19968, 42124); (42192, 42237); (42240, 42508);
   (42512, 42539); (42560, 42606); (42623, 42653); (42656, 42735);
   (42775, 42783); (42786, 42888); (42891, 42954); (42960, 42961);
   (42963, 42963); (42965, 42969); (42994, 43009); (43011, 43013);
   (43015, 43018); (43020, 43042); (43056, 43061); (43072, 43123);
   (43138, 43187); (43216, 43225); (43250, 43255); (43259, 43259);
   (43261, 43262); (43264, 43301); (43312, 43334); (43360, 43388);
   (43396, 43442); (43471, 43481); (43488, 43492); (43494, 43518);
   (43520, 43560); (43584, 43586); (43588, 43595); (43600, 43609);
   (43616, 43638); (43642, 43642); (43646, 43695); (43697, 43697);
   (43701, 43702); (43705, 43709); (43712, 43712); (43714, 43714);
   (43739, 43741); (43744, 43754); (43762, 43764); (43777, 43782);
   (43785, 43790); (43793, 43798); (43808, 43814); (43816, 43822);
   (43824, 43866); (43868, 43881); (43888, 44002); (44016, 44025);
   (44032, 55203); (55216, 55238); (55243, 55291); (63744, 64109);
   (64112, 64217); (64256, 64262); (64275, 64279); (64285, 64285);
   (64287, 64296); (64298, 64310); (64312, 64316); (64318, 64318);
   (64320, 64321); (64323, 64324); (64326, 64433); (64467, 64829);
   (64848, 64911); (64914, 64967); (65008, 65019); (65136, 65140);
   (65142, 65276); (65296, 65305); (65313, 65338); (65345, 65370);
   (65382, 65470); (65474, 65479); (65482, 65487); (65490, 65495);
   (65498, 65500); (65536, 65547); (65549, 65574); (65576, 65594);
   (65596, 65597); (65599, 65613); (65616, 65629); (65664, 65786);
   (65799, 65843); (65856, 65912); (65930, 65931); (66176, 66204);
   (66208, 66256); (66273, 66299); (66304, 66339); (66349, 66378);
   (66384, 66421); (66432, 66461); (66464, 66499); (66504, 66511);
   (66513, 66517); (66560, 66717); (66720, 66729); (66736, 66771);
   (66776, 66811); (66816, 66855); (66864, 66915); (66928, 66938);
   (66940, 66954); (66956, 66962); (66964, 66965); (66967, 66977);
   (66979, 66993); (66995, 67001); (67003, 67004); (67072, 67382);
   (67392, 67413); (67424, 67431); (67456, 67461); (67463, 67504);
   (67506, 67514); (67584, 67589); (67592, 67592); (67594, 67637);
   (67639, 67640); (67644, 67644); (67647, 67669); (67672, 67702);
   (67705, 67742); (67751, 67759); (67808, 67826); (67828, 67829);
   (67835, 67867); (67872, 67897); (67968, 68023); (68028, 68047);
   (68050, 68096); (68112, 68115); (68117, 68119); (68121, 68149);
   (68160, 68168); (68192, 68222); (68224, 68255); (68288, 68295);
   (68297, 68324); (68331, 68335); (68352, 68405); (68416, 68437);
   (68440, 68466); (68472, 68497); (68521, 68527); (68608, 68680);
   (68736, 68786); (68800, 68850); (68858, 68899); (68912, 68921);
   (69216, 69246); (69248, 69289); (69296, 69297); (69376, 69415);
   (69424, 69445); (69457, 69460); (69488, 69505); (69552, 69579);
   (69600, 69622); (69635, 69687); (69714, 69743); (69745, 69746);
   (69749, 69749); (69763, 69807); (69840, 69864); (69872, 69881);
   (69891, 69926); (69942, 69951); (69956, 69956); (69959, 69959);
   (69968, 70002); (70006, 70006); (70019, 70066); (70081, 70084);
   (70096, 70106); (70108, 70108); (70113, 70132); (70144, 70161);
   (70163, 70187); (70272, 70278); (70280, 70280); (70282, 70285);
   (70287, 70301); (70303, 70312); (70320, 70366); (70384, 70393);
   (70405, 70412); (70415, 70416); (70419, 70440); (70442, 70448);
   (70450, 70451); (70453, 70457); (70461, 70461); (70480, 70480);
   (70493, 70497); (70656, 70708); (70727, 70730); (70736, 70745);
   (70751, 70753); (70784, 70831); (70852, 70853); (70855, 70855);
   (70864, 70873); (71040, 71086); (71128, 71131); (71168, 71215);
   (71236, 71236); (71248, 71257); (71296, 71338); (71352, 71352);
   (71360, 71369); (71424, 71450); (71472, 71483); (71488, 71494);
   (71680, 71723); (71840, 71922); (71935, 71942); (71945, 71945);
   (71948, 71955); (71957, 71958); (71960, 71983); (71999, 71999);
   (72001, 72001); (72016, 72025); (72096, 72103); (72106, 72144);
   (72161, 72161); (72163, 72163); (72192, 72192); (72203, 72242);
   (72250, 72250); (72272, 72272); (72284, 72329); (72349, 72349);
   (72368, 72440); (72704, 72712); (72714, 72750); (72768, 72768);
   (72784, 72812); (72818, 72847); (72960, 72966); (72968, 72969);
   (72971, 73008); (73030, 73030); (73040, 73049); (73056, 73061);
   (73063, 73064); (73066, 73097); (73112, 73112); (73120, 73129);
   (73440, 73458); (73648, 73648); (73664, 73684); (73728, 74649);
   (74752, 74862); (74880, 75075); (77712, 77808); (77824, 78894);
   (82944, 83526); (92160, 92728); (92736, 92766); (92768, 92777);
   (92784, 92862); (92864, 92873); (92880, 92909); (92928, 92975);
   (92992, 92995); (93008, 93017); (93019, 93025); (93027, 93047);
   (93053, 93071); (93760, 93846); (93952, 94026); (94032, 94032);
   (94099, 94111); (94176, 94177); (94179, 94179); (94208, 100343);
   (100352, 101589); (101632, 101640); (110576, 110579); (110581, 110587);
   (110589, 110590); (110592, 110882); (110928, 110930); (110948, 110951);
   (110960, 111355); (113664, 113770); (113776, 113788); (113792, 113800);
   (113808, 113817); (119520, 119539); (119648, 119672); (119808, 119892);
   (119894, 119964); (119966, 119967); (119970, 119970); (119973, 119974);
   (119977, 119980); (119982, 119993); (119995, 119995); (119997, 120003);
   (120005, 120069); (120071, 120074); (120077, 120084); (120086, 120092);
   (120094, 120121); (120123, 120126); (120128, 120132); (120134, 120134);
   (120138, 120144); (120146, 120485); (120488, 120512); (120514, 120538);
   (120540, 120570); (120572, 120596); (120598, 120628); (120630, 120654);
   (120656, 120686); (120688, 120712); (120714, 120744); (120746, 120770);
   (120772, 120779); (120782, 120831); (122624, 122654); (123136, 123180);
   (123191, 123197); (123200, 123209); (123214, 123214); (123536, 123565);
   (123584, 123627); (123632, 123641); (124896, 124902); (124904, 124907);
   (124909, 124910); (124912, 124926); (124928, 125124); (125127, 125135);
   (125184, 125251); (125259, 125259); (125264, 125273); (126065, 126123);
   (126125, 126127); (126129, 126132); (126209, 126253); (126255, 126269);
   (126464, 126467); (126469, 126495); (126497, 126498); (126500, 126500);
   (126503, 126503); (126505, 126514); (126516, 126519); (126521, 126521);
   (126523, 126523); (126530, 126530); (126535, 126535); (126537, 126537);
   (126539, 126539); (126541, 126543); (126545, 126546); (126548, 126548);
   (126551, 126551); (126553, 126553); (126555, 126555); (126557, 126557);
   (126559, 126559); (126561, 126562); (126564, 126564); (126567, 126570);
   (126572, 126578); (126580, 126583); (126585, 126588); (126590, 126590);
   (126592, 126601); (126603, 126619); (126625, 126627); (126629, 126633);
   (126635, 126651); (127232, 127244); (130032, 130041); (131072, 173791);
   (173824, 177976); (177984, 178205); (178208, 183969); (183984, 191456);
   (194560, 195101); (196608, 201546)]%N.

(** [str.isdecimal] on one character, which is also the class [\d] of [re]
    for [str] patterns. *)
Definition isdecimal (c : char) : bool := in_ranges decimal_ranges (ord c).

(** [str.isspace] on one character, which is also the class [\s]. *)
Definition isspace (c : char) : bool := in_ranges space_ranges (ord c).

(** [str.isalnum] on one character. *)
Definition isalnum (c : char) : bool := in_ranges alnum_ranges (ord c).

(** What [re.IGNORECASE] compares on a [str] pattern: the matcher lowers the
    character of the text by the simple case mapping and accepts, besides,
    the characters it holds equivalent to a letter of the pattern.  The
    literals and ranges of the module's patterns are ASCII, and the
    characters that reach an ASCII letter this way are the ASCII capitals,
    U+0130 and U+0131 for "i", U+017F for "s" and U+212A for "k"; the
    mapping leaves every other character alone. *)
Definition lower (c : char) : char :=
  if between 65 90 c then (c + 32)%N
  else if (ord c =? 304)%N || (ord c =? 305)%N then ch "i"
  else if (ord c =? 383)%N then ch "s"
  else if (ord c =? 8490)%N then ch "k"
  else c.

Definition upper (c : char) : char :=
  if between 97 122 c then (c - 32)%N else c.

Fixpoint text_eqb (s t : text) : bool :=
  match s, t with
  | [], [] => true
  | a :: s', b :: t' => N.eqb a b && text_eqb s' t'
  | _, _ => false
  end.

(** [s.lstrip()], [s.rstrip()], [s.strip()]. *)
Fixpoint lstrip (s : text) : text :=
  match s with
  | a :: s' => if isspace a then lstrip s' else s
  | [] => []
  end.

Definition rstrip (s : text) : text := rev (lstrip (rev s)).

Definition strip (s : text) : text := rstrip (lstrip s).

(** [s.split(sep)] for a separator of one character: never the empty list. *)
Fixpoint split (sep : char) (s : text) : list text :=
  match s with
  | [] => [[]]
  | a :: s' =>
      if N.eqb a sep then [] :: split sep s'
      else match split sep s' with
           | l :: ls => (a :: l) :: ls
           | [] => [[a]]
           end
  end.

Fixpoint startswith (p s : text) : bool :=
  match p, s with
  | [], _ => true
  | a :: p', b :: s' => N.eqb a b && startswith p' s'
  | _ :: _, [] => false
  end.

(** [p in s]. *)
Fixpoint contains (p s : text) : bool :=
  startswith p s ||
  match s with
  | [] => false
  | _ :: s' => contains p s'
  end.

(** [s.zfill(width)]: zeros go after a leading sign. *)
Definition zfill (width : nat) (s : text) : text :=
  let pad := repeat (ch "0") (width - length s) in
  match s with
  | a :: s' =>
      if N.eqb a (ch "+") || N.eqb a (ch "-")
      then a :: pad ++ s' else pad ++ s
  | [] => pad
  end.

(** [s[-n:]]. *)
Definition suffix (n : nat) (s : text) : text := skipn (length s - n) s.

(** [s < t] on [str]: lexicographic on code points. *)
Fixpoint str_ltb (s t : text) : bool :=
  match s, t with
  | _, [] => false
  | [], _ :: _ => true
  | a :: s', b :: t' =>
      if (ord a <? ord b)%N then true
      else if (ord b <? ord a)%N then false
      else str_ltb s' t'
  end.

(** [x < y] on tuples [(int, str)]. *)
Definition pair_ltb (x y : nat * text) : bool :=
  (fst x <? fst y) || ((fst x =? fst y) && str_ltb (snd x) (snd y)).

End PyStr.

(* ================================================================== *)
(** ** Regular expressions as [re] runs them *)
(* ================================================================== *)

Module Re.
Import PyStr.

Inductive regex : Type :=
| Eps
| Cls (p : char -> bool)
| Seq (r1 r2 : regex)
| Alt (r1 r2 : regex)
| Star (greedy : bool) (r : regex)
| Group (i : nat) (r : regex).

(** Captures, the latest binding of a group first. *)
Definition caps := list (nat * text).

Definition cont := text -> caps -> option (text * caps).

(** The matcher in continuation-passing style: [matchk r k s c] matches [r]
    at the head of [s] and hands what is left to [k]; a failing [k] makes
    the matcher back up and try its next choice, in the order [re] does. *)
Fixpoint matchk (r : regex) (k : cont) (s : text) (c : caps) {struct r}
  : option (text * caps) :=
  match r with
  | Eps => k s c
  | Cls p =>
      match s with
      | a :: s' => if p a then k s' c else None
      | [] => None
      end
  | Seq r1 r2 => matchk r1 (matchk r2 k) s c
  | Alt r1 r2 =>
      match matchk r1 k s c with
      | Some x => Some x
      | None => matchk r2 k s c
      end
  | Star g r' =>
      (fix loop (n : nat) (s : text) (c : caps) {struct n} :=
         match n with
         | 0 => k s c
         | S n' =>
             let more (_ : unit) :=
               matchk r'
                 (fun s' c' =>
                    if length s' <? length s then loop n' s' c' else None)
                 s c in
             if g then
               match more tt with
               | Some x => Some x
               | None => k s c
               end
             else
               match k s c with
               | Some x => Some x
               | None => more tt
               end
         end) (length s) s c
  | Group i r' =>
      matchk r'
        (fun s' c' => k s' ((i, firstn (length s - length s') s) :: c'))
        s c
  end.

Definition accept : cont := fun s c => Some (s, c).

(** One attempt at a fixed position. *)
Definition match_here (r : regex) (s : text) : option (text * caps) :=
  matchk r accept s [].

(** A match object: the text of the whole match ([group(0)]) and the
    captures. *)
Record Match : Type := mkMatch { whole : text; groups : caps }.

Fixpoint lookup (i : nat) (c : caps) : option text :=
  match c with
  | [] => None
  | (j, v) :: c' => if i =? j then Some v else lookup i c'
  end.

(** [m.group(i)] for a group that took part in the match. *)
Definition group (m : Match) (i : nat) : text :=
  match i with
  | 0 => whole m
  | _ => match lookup i (groups m) with Some v => v | None => [] end
  end.

(** [re.search]: the first position, from the left, where a match starts. *)
Fixpoint search (r : regex) (s : text) {struct s} : option Match :=
  match match_here r s with
  | Some (rest, c) => Some (mkMatch (firstn (length s - length rest) s) c)
  | None =>
      match s with
      | [] => None
      | _ :: s' => search r s'
      end
  end.

(** [re.findall] for a pattern without groups: the successive matches,
    without overlap.  The fuel is the number of positions of the text. *)
Fixpoint findall_from (n : nat) (r : regex) (s : text) : list text :=
  match n with
  | 0 => []
  | S n' =>
      let step :=
        match s with
        | [] => []
        | _ :: s' => findall_from n' r s'
        end in
      match match_here r s with
      | Some (rest, _) =>
          match firstn (length s - length rest) s with
          | [] => [] :: step
          | w => w :: findall_from n' r rest
          end
      | None => step
      end
  end.

Definition findall (r : regex) (s : text) : list text :=
  findall_from (S (length s)) r s.

(** *** Pattern syntax *)

(** A literal character, under [re.IGNORECASE] when [ic] is set. *)
Definition chr (ic : bool) (x : char) : regex :=
  Cls (fun a => if ic then N.eqb (lower a) (lower x) else N.eqb a x).

(** A range [[lo-hi]] of a character set; under [re.IGNORECASE] the range
    also holds the characters whose lowered form, or the capital of it, is
    in the range. *)
Definition range (ic : bool) (lo hi : char) (a : char) : bool :=
  between (ord lo) (ord hi) a
  || (ic && (between (ord lo) (ord hi) (lower a)
             || between (ord lo) (ord hi) (upper (lower a)))).

(** One character of a set [[xyz]]. *)
Definition one_of (ic : bool) (xs : text) (a : char) : bool :=
  existsb (fun x => if ic then N.eqb (lower a) (lower x)
                    else N.eqb a x) xs.

(** A literal word. *)
Fixpoint lit (ic : bool) (w : text) : regex :=
  match w with
  | [] => Eps
  | [x] => chr ic x
  | x :: w' => Seq (chr ic x) (lit ic w')
  end.

(** [.] without [re.DOTALL]. *)
Definition dot : regex := Cls (fun a => negb (N.eqb a (ch "010"))).

Definition digit : regex := Cls isdecimal.          (* \d *)
Definition space : regex := Cls isspace.            (* \s *)
Definition plus (r : regex) : regex := Seq r (Star true r).       (* r+ *)
Definition plus_lazy (r : regex) : regex := Seq r (Star false r). (* r+? *)
Definition star (r : regex) : regex := Star true r.               (* r* *)
Definition digit4 : regex := Seq digit (Seq digit (Seq digit digit)). (* \d{4} *)

Fixpoint alts (rs : list regex) : regex :=
  match rs with
  | [] => Cls (fun _ => false)
  | [r] => r
  | r :: rs' => Alt r (alts rs')
  end.

Fixpoint seqs (rs : list regex) : regex :=
  match rs with
  | [] => Eps
  | [r] => r
  | r :: rs' => Seq r (seqs rs')
  end.

End Re.

(* ================================================================== *)
(** ** The module [sort_fuel_receipts_ocr] *)
(* ================================================================== *)

Module Sorter.
Import PyStr Re.

Definition Unknown : text := str "Unknown".

(** [r'\d+'] *)
Definition digits_re : regex := plus digit.

(** [extract_last_4_digits(vehicle_name)] *)
Definition extract_last_4_digits (vehicle_name : text) : text :=
  let digits := findall digits_re vehicle_name in
  match digits with
  | [] => Unknown
  | _ :: _ =>
      let last_digits := last digits [] in
      if length last_digits =? 4 then last_digits
      else if 4 <? length last_digits then suffix 4 last_digits
      else if length last_digits <? 4 then zfill 4 last_digits
      else Unknown
  end.

(** [r'/\d+|/i\d+'] *)
Definition garbled_re : regex :=
  Alt (Seq (chr false (ch "/")) (plus digit))
      (seqs [chr false (ch "/"); chr false (ch "i"); plus digit]).

Definition readable (c : char) : bool := isalnum c || isspace c.

(** [readable_chars / total_chars], the quotient of two integers.  Python
    computes it in binary floating point, correctly rounded; as 0.5 is a
    float and rounding is monotone, the comparison with 0.5 agrees with the
    one on the exact quotient for every text shorter than 2^53 characters. *)
Definition ratio (readable_chars total_chars : nat) : Q :=
  (inject_Z (Z.of_nat readable_chars) / inject_Z (Z.of_nat total_chars))%Q.

Definition Qltb (x y : Q) : bool :=
  match (x ?= y)%Q with Lt => true | _ => false end.

(** [is_text_garbled(text)] *)
Definition is_text_garbled (text_ : text) : bool :=
  match search garbled_re text_ with
  | Some _ => true
  | None =>
      let readable_chars := length (filter readable text_) in
      let total_chars := length text_ in
      if (0 <? total_chars) && Qltb (ratio readable_chars total_chars) (1 # 2)
      then true
      else false
  end.

(** [(?:diesel|gas|gasoline)] under [re.IGNORECASE] *)
Definition fuel_re : regex :=
  alts [lit true (str "diesel"); lit true (str "gas");
        lit true (str "gasoline")].

(** [r'(.+?)\s+(\d{4})\s+(?:diesel|gas|gasoline)'] with [re.IGNORECASE] *)
Definition prev_line_re : regex :=
  seqs [Group 1 (plus_lazy dot); plus space; Group 2 digit4; plus space;
        fuel_re].

(** [r'([A-Z][A-Za-z\s]+?)\s+(\d{4})\s+(?:diesel|gas|gasoline)'] with
    [re.IGNORECASE] *)
Definition vehicle_pattern : regex :=
  seqs [Group 1
          (Seq (Cls (range true (ch "A") (ch "Z")))
               (plus_lazy (Cls (fun a => range true (ch "A") (ch "Z") a
                                          || range true (ch "a") (ch "z") a
                                          || isspace a))));
        plus space; Group 2 digit4; plus space; fuel_re].

(** The two patterns of [vehicle_patterns], case sensitive. *)
Definition known_names_re : regex :=
  seqs [alts [lit false (str "Stealth"); lit false (str "Bus");
              lit false (str "Apollo"); lit false (str "Colt");
              lit false (str "Ford"); lit false (str "Outlaw");
              lit false (str "Renegade");
              seqs [lit false (str "Bases"); plus space;
                    lit false (str "Loaded")];
              seqs [lit false (str "Slow"); plus space;
                    lit false (str "Motion")];
              lit false (str "Viper"); lit false (str "Zeus")];
        plus space; digit4].

Definition capitalized_word : regex :=
  Seq (Cls (range false (ch "A") (ch "Z")))
      (plus (Cls (range false (ch "a") (ch "z")))).

Definition capitalized_re : regex :=
  seqs [capitalized_word; star (Seq (plus space) capitalized_word);
        plus space; digit4].

Definition vehicle_patterns : list regex := [known_names_re; capitalized_re].

(** The three patterns of [bottom_vin_patterns], with [re.IGNORECASE]. *)
Definition vehicle_id_re (word : text) : regex :=
  seqs [lit true word; Cls (one_of true (str "lI"));
        Cls (one_of true (str "dD")); plus space;
        star (Cls (range true (ch "a") (ch "z"))); star space;
        Group 1 digit4].

Definition invoice_re : regex :=
  seqs [lit true (str "INVOICE"); Cls (one_of true (str "#H")); plus space;
        plus digit; star space; Group 1 digit4].

Definition bottom_vin_patterns : list regex :=
  [vehicle_id_re (str "venicle"); vehicle_id_re (str "vehicle"); invoice_re].

(** The body of the first [if] of the loop over the lines: the line holds
    both "Vehicle" and "Fuel Type" (OCR format). *)
Definition ocr_format (lines : list text) (i : nat) (stripped_line : text)
  : option (text * text) :=
  if contains (str "Vehicle") stripped_line
     && contains (str "Fuel Type") stripped_line
  then
    if 0 <? i then
      let prev_line := strip (nth (i - 1) lines []) in
      match search prev_line_re prev_line with
      | Some vehicle_match =>
          let vehicle_name :=
            strip (group vehicle_match 1) ++ str " " ++ group vehicle_match 2 in
          let vin_last_4 := group vehicle_match 2 in
          Some (vin_last_4, vehicle_name)
      | None => None
      end
    else None
  else None.

(** The body of the second [if]: the line is exactly "Vehicle" (original
    format). *)
Definition original_format (lines : list text) (i : nat) (stripped_line : text)
  : option (text * text) :=
  if text_eqb stripped_line (str "Vehicle") then
    if 0 <? i then
      let vehicle_name := strip (nth (i - 1) lines []) in
      if negb (text_eqb vehicle_name [])
         && negb (existsb (text_eqb vehicle_name) [str ""; str " "])
      then
        let vin_last_4 := extract_last_4_digits vehicle_name in
        if negb (text_eqb vin_last_4 Unknown)
        then Some (vin_last_4, vehicle_name)
        else None
      else None
    else None
  else None.

(** [for i, line in enumerate(lines)]: [rest] is [lines[i:]]. *)
Fixpoint scan_lines (lines : list text) (i : nat) (rest : list text)
  : option (text * text) :=
  match rest with
  | [] => None
  | line :: rest' =>
      let stripped_line := strip line in
      match ocr_format lines i stripped_line with
      | Some r => Some r
      | None =>
          match original_format lines i stripped_line with
          | Some r => Some r
          | None => scan_lines lines (S i) rest'
          end
      end
  end.

(** "Method 2": the name, four digits and the fuel anywhere in the text. *)
Definition method2 (page_text : text) : option (text * text) :=
  match search vehicle_pattern page_text with
  | Some m => Some (group m 2, strip (group m 1) ++ str " " ++ group m 2)
  | None => None
  end.

(** "Method 3": [for pattern in vehicle_patterns]. *)
Fixpoint method3 (patterns : list regex) (page_text : text)
  : option (text * text) :=
  match patterns with
  | [] => None
  | pattern :: patterns' =>
      let next := method3 patterns' page_text in
      match search pattern page_text with
      | Some m =>
          let vehicle_name := strip (group m 0) in
          let vin_last_4 := extract_last_4_digits vehicle_name in
          if negb (text_eqb vin_last_4 Unknown)
          then Some (vin_last_4, vehicle_name)
          else next
      | None => next
      end
  end.

(** "Method 4": [for pattern in bottom_vin_patterns]. *)
Fixpoint method4 (patterns : list regex) (page_text : text)
  : option (text * text) :=
  match patterns with
  | [] => None
  | pattern :: patterns' =>
      match search pattern page_text with
      | Some m => Some (group m 1, str "Vehicle " ++ group m 1)
      | None => method4 patterns' page_text
      end
  end.

(** [extract_vehicle_vin(page_text)] *)
Definition extract_vehicle_vin (page_text : text) : text * text :=
  let lines := split (ch "010") page_text in
  match scan_lines lines 0 lines with
  | Some r => r
  | None =>
  match method2 page_text with
  | Some r => r
  | None =>
  match method3 vehicle_patterns page_text with
  | Some r => r
  | None =>
  match method4 bottom_vin_patterns page_text with
  | Some r => r
  | None => (Unknown, Unknown)
  end end end end.

(** *** The document and its collaborators *)

(** A page of the opened reader: what [page.extract_text()] returns, [None]
    when it raises, and what the OCR chain ([convert_from_path] then
    [pytesseract.image_to_string]) yields for the page, [None] when it
    raises or produces no image. *)
Record page : Type := mkPage {
  native_text : option text;
  image_text : option text
}.

(** Calls made to the reader and to the OCR engine, oldest first. *)
Inductive call : Type :=
| ExtractText (page_num : nat)
| Ocr (page_num : nat).

(** [extract_text_with_ocr(pdf_path, page_num)]: never raises. *)
Definition extract_text_with_ocr (OCR_AVAILABLE : bool) (p : page) : text :=
  if negb OCR_AVAILABLE then str ""
  else match image_text p with
       | Some text_ => text_
       | None => str ""
       end.

(** [vin_pages], a [defaultdict(list)]: the keys in insertion order, each
    with its list of [(page_num, full_vehicle_name)]. *)
Definition vin_dict := list (text * list (nat * text)).

(** [d[k].append(x)] *)
Fixpoint dict_append (d : vin_dict) (k : text) (x : nat * text) : vin_dict :=
  match d with
  | [] => [(k, [x])]
  | (k', l) :: d' =>
      if text_eqb k' k then (k', l ++ [x]) :: d'
      else (k', l) :: dict_append d' k x
  end.

(** [d.keys()] *)
Definition keys (d : vin_dict) : list text := map fst d.

(** [d[k]] *)
Fixpoint getitem (d : vin_dict) (k : text) : list (nat * text) :=
  match d with
  | [] => []
  | (k', l) :: d' => if text_eqb k' k then l else getitem d' k
  end.

(** [sorted(l, key=key)]: Python's sort is stable and compares keys with
    [<] only; a stable insertion sort returns the same list. *)
Section Sorted.
Variables (A K : Type) (ltb : K -> K -> bool) (key : A -> K).

Fixpoint insert (x : A) (l : list A) : list A :=
  match l with
  | [] => [x]
  | y :: l' => if ltb (key y) (key x) then y :: insert x l' else x :: l
  end.

Definition sorted (l : list A) : list A := fold_right insert [] l.
End Sorted.

(** [sort_key(vin)] *)
Definition sort_key (vin : text) : nat * text :=
  if text_eqb vin Unknown then (1, str "9999") else (0, vin).

(** The state of a run: the buckets and the calls made so far. *)
Record state : Type := mkState {
  vin_pages : vin_dict;
  calls : list call
}.

Inductive outcome : Type :=
| Exit (status : nat)                 (* sys.exit(status) *)
| Written (order : list nat).         (* the pages handed to the writer *)

(** "Check if we need OCR by testing the first page": the value of
    [needs_ocr], or [None] when the check ends in [sys.exit(1)], with the
    calls made.  [SystemExit] is not an [Exception], so the handler around
    the check does not catch it; an empty document makes [reader.pages[0]]
    raise, which the handler does catch. *)
Definition check_first_page (OCR_AVAILABLE use_ocr : bool) (pages : list page)
  : list call * option bool :=
  if use_ocr then ([], Some true)
  else
    match pages with
    | [] => ([], Some true)
    | first :: _ =>
        match native_text first with
        | None => ([ExtractText 0], Some true)
        | Some first_page_text =>
            if is_text_garbled first_page_text then
              if negb OCR_AVAILABLE then ([ExtractText 0], None)
              else ([ExtractText 0], Some true)
            else ([ExtractText 0], Some false)
        end
    end.

(** The text of one page inside the [try] of the loop, [None] when the
    extraction raises, and the call it makes. *)
Definition read_page (OCR_AVAILABLE needs_ocr : bool) (page_num : nat)
    (p : page) : list call * option text :=
  if needs_ocr
  then ((if OCR_AVAILABLE then [Ocr page_num] else []),
        Some (extract_text_with_ocr OCR_AVAILABLE p))
  else ([ExtractText page_num], native_text p).

(** One turn of [for page_num, page in enumerate(reader.pages)]: the [try]
    appends the entry of the page, the handler appends the "Unknown" entry
    when the extraction raised.  The progress messages printed after the
    append are not part of the model. *)
Definition extract_page (OCR_AVAILABLE needs_ocr : bool) (page_num : nat)
    (p : page) (st : state) : state :=
  let (made, got) := read_page OCR_AVAILABLE needs_ocr page_num p in
  match got with
  | Some text_ =>
      let (vin_last_4, vehicle_name) := extract_vehicle_vin text_ in
      mkState (dict_append (vin_pages st) vin_last_4 (page_num, vehicle_name))
              (calls st ++ made)
  | None =>
      mkState (dict_append (vin_pages st) Unknown (page_num, Unknown))
              (calls st ++ made)
  end.

Fixpoint extract_loop (OCR_AVAILABLE needs_ocr : bool) (page_num : nat)
    (pages : list page) (st : state) : state :=
  match pages with
  | [] => st
  | p :: pages' =>
      extract_loop OCR_AVAILABLE needs_ocr (S page_num) pages'
        (extract_page OCR_AVAILABLE needs_ocr page_num p st)
  end.

(** The pages of one group, as the inner loop of the writer visits them. *)
Definition group_pages (d : vin_dict) (vin : text) : list nat :=
  map fst (sorted Nat.ltb fst (getitem d vin)).

Definition sorted_vins (d : vin_dict) : list text :=
  sorted pair_ltb sort_key (keys d).

(** The groups in the order of the outer loop of the writer. *)
Definition plan (d : vin_dict) : list (text * list nat) :=
  map (fun vin => (vin, group_pages d vin)) (sorted_vins d).

(** The sequence of [writer.add_page] calls. *)
Definition write_pages (d : vin_dict) : list nat :=
  flat_map (group_pages d) (sorted_vins d).

(** A finished run. *)
Record run : Type := mkRun {
  made : list call;
  buckets : vin_dict;
  result : outcome
}.

(** [sort_pdf_by_vehicle(input_pdf_path, output_pdf_path, use_ocr)] from
    the point where the reader is open on [pages]; the checks on the path
    come before, and only the final write to disk comes after. *)
Definition sort_pdf_by_vehicle (OCR_AVAILABLE use_ocr : bool)
    (pages : list page) : run :=
  match check_first_page OCR_AVAILABLE use_ocr pages with
  | (made0, None) => mkRun made0 [] (Exit 1)
  | (made0, Some needs_ocr) =>
      let st := extract_loop OCR_AVAILABLE needs_ocr 0 pages
                  (mkState [] made0) in
      mkRun (calls st) (vin_pages st) (Written (write_pages (vin_pages st)))
  end.

(** The key and the label the loop records for a page. *)
Definition record_of (OCR_AVAILABLE needs_ocr : bool) (p : page)
  : text * text :=
  match snd (read_page OCR_AVAILABLE needs_ocr 0 p) with
  | Some text_ => extract_vehicle_vin text_
  | None => (Unknown, Unknown)
  end.

End Sorter.

Import PyStr Re Sorter.

Unset Implicit Arguments.

(* ================================================================== *)
(** ** Vocabulary of the statements *)
(* ================================================================== *)

Module Props.

(** The words a pattern can match, without regard to the order in which the
    matcher tries them. *)
Inductive lang : regex -> text -> Prop :=
| lang_eps : lang Eps []
| lang_cls (p : char -> bool) (a : char) : p a = true -> lang (Cls p) [a]
| lang_seq (r1 r2 : regex) (w1 w2 : text) :
    lang r1 w1 -> lang r2 w2 -> lang (Seq r1 r2) (w1 ++ w2)
| lang_alt_l (r1 r2 : regex) (w : text) : lang r1 w -> lang (Alt r1 r2) w
| lang_alt_r (r1 r2 : regex) (w : text) : lang r2 w -> lang (Alt r1 r2) w
| lang_star_nil (g : bool) (r : regex) : lang (Star g r) []
| lang_star_more (g : bool) (r : regex) (w1 w2 : text) :
    lang r w1 -> lang (Star g r) w2 -> lang (Star g r) (w1 ++ w2)
| lang_group (i : nat) (r : regex) (w : text) : lang r w -> lang (Group i r) w.

(** Every capture satisfies the property attached to its group. *)
Definition caps_ok (P : nat -> text -> Prop) (c : caps) : Prop :=
  Forall (fun iv => P (fst iv) (snd iv)) c.

(** Group [i] has a value. *)
Definition bound (i : nat) (c : caps) : Prop := lookup i c <> None.

(** Whatever a group of [r] can match satisfies its property. *)
Fixpoint groups_ok (P : nat -> text -> Prop) (r : regex) : Prop :=
  match r with
  | Eps | Cls _ => True
  | Seq r1 r2 | Alt r1 r2 => groups_ok P r1 /\ groups_ok P r2
  | Star _ r' => groups_ok P r'
  | Group i r' => groups_ok P r' /\ forall w, lang r' w -> P i w
  end.

(** Group [i] takes part in every match of [r]. *)
Fixpoint binds (i : nat) (r : regex) : bool :=
  match r with
  | Eps | Cls _ | Star _ _ => false
  | Seq r1 r2 => binds i r1 || binds i r2
  | Alt r1 r2 => binds i r1 && binds i r2
  | Group j r' => (i =? j) || binds i r'
  end.

(** A successful run of the matcher consumed a word of the language of
    the pattern, called its continuation on the rest, and handed it
    captures that are well formed and contain every group the pattern
    binds. *)
Definition sound_at (P : nat -> text -> Prop) (r : regex) : Prop :=
  forall (k : cont) (s : text) (c : caps) (res : text * caps),
    caps_ok P c ->
    matchk r k s c = Some res ->
    exists w s' c',
      s = w ++ s' /\ lang r w /\ caps_ok P c'
      /\ (forall i, binds i r = true \/ bound i c -> bound i c')
      /\ k s' c' = Some res.

Definition all_digits (w : text) : Prop := Forall (fun a => isdecimal a = true) w.

Definition no_digit (w : text) : Prop := Forall (fun a => isdecimal a = false) w.

(** A vehicle key other than the sentinel. *)
Definition four_digits (w : text) : Prop := length w = 4 /\ all_digits w.

(** The longest prefix of characters of a class, and what follows it. *)
Fixpoint take_while (p : char -> bool) (s : text) : text :=
  match s with
  | a :: s' => if p a then a :: take_while p s' else []
  | [] => []
  end.

Fixpoint drop_while (p : char -> bool) (s : text) : text :=
  match s with
  | a :: s' => if p a then drop_while p s' else s
  | [] => []
  end.

(** The text is empty or ends with a character that is not a digit. *)
Definition ends_nondigit (pre : text) : Prop :=
  pre = [] \/ exists pre' x, pre = pre' ++ [x] /\ isdecimal x = false.

(** [run] is the last maximal run of digits of [pre ++ run ++ post]. *)
Definition last_digit_run (pre run post : text) : Prop :=
  run <> [] /\ all_digits run /\ no_digit post /\ ends_nondigit pre.

(** The digit normalizer in the words of its specification: a run of
    exactly four digits is kept, a longer one is cut to its last four
    characters, a shorter one is padded on the left with "0". *)
Definition normalize_run (run : text) : text :=
  if length run =? 4 then run
  else if 4 <? length run then skipn (length run - 4) run
  else repeat (ch "0") (4 - length run) ++ run.

(** What a pattern of the extractor must capture in its key group. *)
Definition key_group (g : nat) (i : nat) (w : text) : Prop :=
  i = g -> four_digits w.

(** A pattern whose group [g] always takes part and holds four digits. *)
Definition captures_key (g : nat) (r : regex) : Prop :=
  groups_ok (key_group g) r /\ binds g r = true.

(** A result of the extractor other than the fallback. *)
Definition found (r : text * text) : Prop :=
  four_digits (fst r) /\ snd r <> Unknown.

(** [x] may stand before [y] in a list sorted by [key]. *)
Definition ordered {A K : Type} (ltb : K -> K -> bool) (key : A -> K)
    (x y : A) : Prop :=
  ltb (key y) (key x) = false.

(** [p] is written before [q]. *)
Definition before (p q : nat) (l : list nat) : Prop :=
  exists l1 l2 l3, l = l1 ++ p :: l2 ++ q :: l3.

(** What the loop over the lines does at line [j]: the OCR format first,
    then the original format. *)
Definition at_line (lines : list text) (j : nat) : option (text * text) :=
  let stripped_line := strip (nth j lines []) in
  match ocr_format lines j stripped_line with
  | Some r => Some r
  | None => original_format lines j stripped_line
  end.

(** A glyph code leaked by a custom font: "/" and a digit, or "/i" and a
    digit, at the head of [s]. *)
Definition glyph_code_at (s : text) : Prop :=
  exists d rest, isdecimal d = true
    /\ (s = ch "/" :: d :: rest \/ s = ch "/" :: ch "i" :: d :: rest).

Definition has_glyph_code (t : text) : Prop :=
  exists pre s, t = pre ++ s /\ glyph_code_at s.

(** The conditions under which the specification calls OCR required: the
    caller forces it, the first page cannot be read natively, or its native
    text is garbled. *)
Definition ocr_required (use_ocr : bool) (pages : list page) : bool :=
  use_ocr ||
  match pages with
  | [] => false
  | first :: _ =>
      match native_text first with
      | None => true
      | Some first_page_text => is_text_garbled first_page_text
      end
  end.

(** The first line, from the top, at which [f] gives a result. *)
Fixpoint first_line (f : nat -> option (text * text)) (js : list nat)
  : option (text * text) :=
  match js with
  | [] => None
  | j :: js' => match f j with Some r => Some r | None => first_line f js' end
  end.

(** Strategy 1 of the specification taken alone: the first line in the OCR
    format whose previous line matches. *)
Definition strategy1 (t : text) : option (text * text) :=
  let lines := split (ch "010") t in
  first_line (fun j => ocr_format lines j (strip (nth j lines [])))
             (seq 0 (length lines)).

(** Strategy 2 taken alone: the first line equal to "Vehicle" whose
    previous line normalizes. *)
Definition strategy2 (t : text) : option (text * text) :=
  let lines := split (ch "010") t in
  first_line (fun j => original_format lines j (strip (nth j lines [])))
             (seq 0 (length lines)).

(** The value of a decimal digit.  The digits of a script are ten
    consecutive code points from its zero on, and every range of the table
    starts at a zero. *)
Fixpoint digit_in (table : list (N * N)) (n : N) : N :=
  match table with
  | [] => 0
  | (first, last) :: table' =>
      if (first <=? n)%N && (n <=? last)%N then ((n - first) mod 10)%N
      else digit_in table' n
  end.

Definition digit_value (c : char) : nat :=
  N.to_nat (digit_in decimal_ranges (ord c)).

(** [int(k)] for a string of decimal digits. *)
Definition int_of (k : text) : nat :=
  fold_left (fun n a => 10 * n + digit_value a) k 0.

(** The digits "0" to "9". *)
Definition ascii_digit (c : char) : Prop := (48 <= ord c <= 57)%N.

(** A key written with the digits "0" to "9" only. *)
Definition ascii_digits (k : text) : Prop := Forall ascii_digit k.

(** The extraction of the text of page [p] fails: [page.extract_text()]
    raises when the pages are read natively, the OCR chain raises or gives
    no image when they are read by OCR. *)
Definition extraction_fails (needs_ocr : bool) (p : page) : Prop :=
  if needs_ocr then image_text p = None else native_text p = None.

End Props.

Import Props.

(* ================================================================== *)
(** ** Sample receipts and documents *)
(* ================================================================== *)

Module Samples.

Definition nl : char := ch "010".

Definition unlines (ls : list text) : text :=
  match ls with
  | [] => []
  | l :: ls' => l ++ flat_map (fun x => nl :: x) ls'
  end.

(** A page in the native layout. *)
Definition receipt_6509 : text :=
  unlines [str "Vehicle"; str "Stealth 6509"; str "Fuel Type Diesel"].

Definition receipt_native : text :=
  unlines [str "Stealth 6509"; str "Vehicle"; str "Fuel Type Diesel"].

(** A page in the OCR layout. *)
Definition receipt_ocr : text :=
  unlines [str "Apollo 5875 diesel"; str "Vehicle Fuel Type"].

(** A page where a line "Vehicle" comes before a line in the OCR layout. *)
Definition receipt_both : text :=
  unlines [str "Bus 1234"; str "Vehicle"; str "Apollo 5875 diesel";
           str "Vehicle Fuel Type"].

Definition readable_page (t : text) : page := mkPage (Some t) None.

Definition broken_page : page := mkPage None None.

(** Three pages: key 0042, an extraction that raises, key 0007. *)
Definition three_pages : list page :=
  [readable_page (unlines [str "Bus 42"; str "Vehicle"]);
   broken_page;
   readable_page (unlines [str "Bus 7"; str "Vehicle"])].

(** A page that only the OCR chain can read. *)
Definition scanned_page (t : text) : page := mkPage (Some (str "")) (Some t).

(** Three scanned pages: key 0042, a page on which the OCR chain fails,
    key 0007. *)
Definition three_scans : list page :=
  [scanned_page (unlines [str "Bus 42"; str "Vehicle"]);
   mkPage (Some (str "")) None;
   scanned_page (unlines [str "Bus 7"; str "Vehicle"])].

(** The name of vehicle 42 written with the Arabic-Indic digits four
    (U+0664) and two (U+0662), and the key it is given. *)
Definition bus_42_arabic : text := str "Bus " ++ map unichr [1636; 1634]%N.

Definition key_42_arabic : text := str "00" ++ map unichr [1636; 1634]%N.

(** The key 1234 written with the fullwidth digits U+FF11 to U+FF14. *)
Definition key_1234_fullwidth : text :=
  map unichr [65297; 65298; 65299; 65300]%N.

(** A page of vehicle 42, written that way, and a page of vehicle 50. *)
Definition two_vehicles : list page :=
  [readable_page (unlines [bus_42_arabic; str "Vehicle"]);
   readable_page (unlines [str "Bus 50"; str "Vehicle"])].

(** One readable page, for a caller who forces OCR. *)
Definition one_page : list page := [readable_page receipt_native].

(** A document whose first page cannot be read natively. *)
Definition unreadable_first : list page :=
  [broken_page; readable_page receipt_native].

(** A document whose first page leaks glyph codes. *)
Definition garbled_first : list page :=
  [readable_page (str "/0/1/2/3 garbage"); readable_page receipt_native].

End Samples.

Import Samples.

(* ================================================================== *)
(** ** Python byte strings *)
(* ================================================================== *)

Module PyBytes.

Definition bytes := list Byte.byte.

(** A literal [b"..."] of the source. *)
Definition lit_bytes (s : String.string) : bytes := String.list_byte_of_string s.
Arguments lit_bytes s%_string.

Fixpoint bytes_eqb (s t : bytes) : bool :=
  match s, t with
  | [], [] => true
  | x :: s', y :: t' => Byte.eqb x y && bytes_eqb s' t'
  | _, _ => false
  end.

(** [s.startswith(p)] *)
Fixpoint bstartswith (p s : bytes) : bool :=
  match p, s with
  | [], _ => true
  | x :: p', y :: s' => Byte.eqb x y && bstartswith p' s'
  | _ :: _, [] => false
  end.

(** [s.endswith(p)] *)
Definition bendswith (p s : bytes) : bool := bstartswith (rev p) (rev s).

(** [s.find(sub)]: the lowest index where [sub] starts, [None] for -1. *)
Fixpoint bfind (sub s : bytes) : option nat :=
  if bstartswith sub s then Some 0
  else match s with
       | [] => None
       | _ :: s' => option_map S (bfind sub s')
       end.

(** [sub in s] *)
Definition bcontains (sub s : bytes) : bool :=
  match bfind sub s with Some _ => true | None => false end.

(** [s.split(sep)] for a separator that is not empty: the text is cut at
    the occurrences of [sep] met from the left, which do not overlap.
    [skip] counts the bytes of the separator just found that are still to be
    passed over; [cur] holds the piece being read, last byte first. *)
Fixpoint bsplit_scan (sep : bytes) (skip : nat) (cur : bytes) (s : bytes)
  : list bytes :=
  match s with
  | [] => [rev cur]
  | x :: s' =>
      match skip with
      | S k => bsplit_scan sep k cur s'
      | 0 =>
          if bstartswith sep s
          then rev cur :: bsplit_scan sep (length sep - 1) [] s'
          else bsplit_scan sep 0 (x :: cur) s'
      end
  end.

Definition bsplit (sep s : bytes) : list bytes := bsplit_scan sep 0 [] s.

(** The byte of a number below 256. *)
Definition byte_of (n : N) : Byte.byte :=
  match Byte.of_N n with Some b => b | None => Byte.x00 end.

(** A continuation byte of UTF-8: the six bits of [n] above the lowest
    [6 * k]. *)
Definition continuation (k n : N) : Byte.byte :=
  byte_of (128 + (n / 64 ^ k) mod 64).

(** [s.encode("utf-8")]: one byte for a code point below U+0080, two below
    U+0800, three below U+10000 and four from there on. *)
Definition encode_char (c : PyStr.char) : bytes :=
  let n := PyStr.ord c in
  if (n <? 128)%N then [byte_of n]
  else if (n <? 2048)%N then [byte_of (192 + n / 64); continuation 0 n]
  else if (n <? 65536)%N
  then [byte_of (224 + n / 4096); continuation 1 n; continuation 0 n]
  else [byte_of (240 + n / 262144); continuation 2 n; continuation 1 n;
        continuation 0 n].

Definition encode_utf8 (s : PyStr.text) : bytes := flat_map encode_char s.

End PyBytes.

(* ================================================================== *)
(** ** The module [lambda_handler] *)
(* ================================================================== *)

Module LambdaHandler.
Import PyStr PyBytes.

(** [validate_pdf_magic_number(file_path)], from the content of the file at
    [file_path]; [None] stands for a file that cannot be opened or read,
    which the handler of the function turns into [False]. *)
Definition validate_pdf_magic_number (file : option bytes) : bool :=
  match file with
  | Some content =>
      let header := firstn 4 content in
      bytes_eqb header (lit_bytes "%PDF")
  | None => false
  end.

Definition CRLF : bytes := [Byte.x0d; Byte.x0a].

(** [content[:-2]] when [content.endswith(marker)], for a marker of two
    bytes. *)
Definition drop_marker (marker content : bytes) : bytes :=
  if bendswith marker content
  then firstn (length content - 2) content
  else content.

(** The three removals under "Remove trailing boundary markers". *)
Definition remove_trailing_markers (content : bytes) : bytes :=
  drop_marker CRLF (drop_marker (lit_bytes "--") (drop_marker CRLF content)).

(** [for part in parts] of [parse_multipart]. *)
Fixpoint parse_parts (parts : list bytes) : bytes :=
  match parts with
  | [] => lit_bytes ""
  | part :: parts' =>
      if negb (bcontains (lit_bytes "filename=") part) then parse_parts parts'
      else
        match bfind (CRLF ++ CRLF) part with
        | None => parse_parts parts'
        | Some header_end =>
            let content := skipn (header_end + 4) part in
            remove_trailing_markers content
        end
  end.

(** [parse_multipart(body, boundary)] *)
Definition parse_multipart (body : bytes) (boundary : text) : bytes :=
  let boundary_bytes := encode_utf8 (str "--" ++ boundary) in
  let parts := bsplit boundary_bytes body in
  parse_parts parts.

(** [s.strip(c)] for a set of one character [c]. *)
Fixpoint lstrip_char (c : char) (s : text) : text :=
  match s with
  | a :: s' => if N.eqb a c then lstrip_char c s' else s
  | [] => []
  end.

Definition strip_char (c : char) (s : text) : text :=
  rev (lstrip_char c (rev (lstrip_char c s))).

(** The double quote. *)
Definition dquote : char := ch "034".

(** "Extract boundary" in [handle_process]: the loop over
    [content_type.split(";")], [None] when it ends without a [break]. *)
Fixpoint boundary_in (parts : list text) : option text :=
  match parts with
  | [] => None
  | part :: parts' =>
      let part := strip part in
      if startswith (str "boundary=") part
      then Some (strip_char dquote (skipn 9 part))
      else boundary_in parts'
  end.

(** The two rejections of [handle_process] that depend on the content type
    alone, each a [create_response(400, {"error": ...})]. *)
Inductive rejection : Type :=
| ExpectedMultipart        (* "Expected multipart/form-data" *)
| NoBoundary.              (* "No boundary in multipart data" *)

(** The boundary [handle_process] passes to [parse_multipart], or the
    rejection it answers with. *)
Definition request_boundary (content_type : text) : rejection + text :=
  if negb (contains (str "multipart/form-data") content_type)
  then inl ExpectedMultipart
  else
    match boundary_in (split (ch ";") content_type) with
    | Some (a :: boundary) => inr (a :: boundary)
    | Some [] | None => inl NoBoundary
    end.

(** [s.endswith(suffix)] on [str]. *)
Definition endswith (suffix s : text) : bool := startswith (rev suffix) (rev s).

(** The fields of the event that [handler] reads; [None] is a missing
    key. *)
Record event : Type := mkEvent {
  http_method : option text;    (* event["requestContext"]["http"]["method"] *)
  httpMethod : option text;     (* event["httpMethod"] *)
  rawPath : option text;        (* event["rawPath"] *)
  path : option text            (* event["path"] *)
}.

(** [d.get(k, default)] followed by the test [if not value]. *)
Definition get (field : option text) (default : text) : text :=
  match field with Some v => v | None => default end.

Definition method_of (e : event) : text :=
  let m := get (http_method e) (str "") in
  match m with
  | [] => get (httpMethod e) (str "GET")
  | _ :: _ => m
  end.

Definition path_of (e : event) : text :=
  let p := get (rawPath e) (str "") in
  match p with
  | [] => get (path e) (str "")
  | _ :: _ => p
  end.

(** What [handler] returns: a response it builds itself, by its status and
    error message, or the result of one of the four handlers. *)
Inductive action : Type :=
| Respond (status : nat) (error : option text)
| HandleHealth
| HandleUploadUrl
| HandleProcessS3
| HandleProcess.

(** [handler(event, _context)] *)
Definition handler (e : event) : action :=
  let http_method := method_of e in
  if text_eqb http_method (str "OPTIONS") then Respond 200 None
  else
    let path := path_of e in
    if endswith (str "/health") path || text_eqb path (str "/api/health")
    then HandleHealth
    else if endswith (str "/upload-url") path
            || text_eqb path (str "/api/upload-url")
    then HandleUploadUrl
    else if endswith (str "/process-s3") path
            || text_eqb path (str "/api/process-s3")
    then
      if text_eqb http_method (str "POST") then HandleProcessS3
      else Respond 405 (Some (str "Method not allowed"))
    else if endswith (str "/process") path
            || text_eqb path (str "/api/process")
    then
      if text_eqb http_method (str "POST") then HandleProcess
      else Respond 405 (Some (str "Method not allowed"))
    else Respond 404 (Some (str "Not found")).

End LambdaHandler.

Import PyBytes LambdaHandler.

(* ================================================================== *)
(** ** The summary printed by [sort_pdf_by_vehicle] *)
(* ================================================================== *)

Module Report.
Import PyStr Sorter.

(** [sorted(set(name for _, name in vin_pages[vin]))]: the distinct names of
    a bucket in ascending order. *)
Definition vehicle_names (entries : list (nat * text)) : list text :=
  sorted str_ltb (fun name : text => name)
         (nodup (list_eq_dec N.eq_dec) (map snd entries)).

(** The lines printed under "Found ... unique VINs": for each VIN of
    [sorted_vins] its number of pages and its vehicle names. *)
Definition vin_summary (d : vin_dict) : list (text * nat * list text) :=
  map (fun vin => (vin, length (getitem d vin), vehicle_names (getitem d vin)))
      (sorted_vins d).

(** The calls the loop makes for the pages of a document, from page
    [page_num] on. *)
Fixpoint loop_calls (OCR_AVAILABLE needs_ocr : bool) (page_num : nat)
    (pages : list page) : list call :=
  match pages with
  | [] => []
  | p :: pages' =>
      fst (read_page OCR_AVAILABLE needs_ocr page_num p)
      ++ loop_calls OCR_AVAILABLE needs_ocr (S page_num) pages'
  end.

End Report.

Import Report.

(* ================================================================== *)
(** ** Further vocabulary *)
(* ================================================================== *)

Module MoreProps.

(** Every character of the class is a digit. *)
Definition digits_only (p : char -> bool) : Prop :=
  forall a, p a = true -> isdecimal a = true.

(** Every word of the pattern has a digit: the pattern goes through a
    class of digits on every path. *)
Fixpoint needs_digit (r : regex) : Prop :=
  match r with
  | Eps | Star _ _ => False
  | Cls p => digits_only p
  | Seq r1 r2 => needs_digit r1 \/ needs_digit r2
  | Alt r1 r2 => needs_digit r1 /\ needs_digit r2
  | Group _ r' => needs_digit r'
  end.

Definition has_digit (w : text) : Prop := Exists (fun a => isdecimal a = true) w.

(** The key of a result can be computed again from its label. *)
Definition label_gives_key (r : text * text) : Prop :=
  extract_last_4_digits (snd r) = fst r.

(** Page [p] is in the bucket of key [k]. *)
Definition in_bucket (d : vin_dict) (k : text) (p : nat) : Prop :=
  exists name, In (p, name) (getitem d k).

(** [x] occurs in [s] as a run of consecutive elements. *)
Definition infix {A : Type} (x s : list A) : Prop :=
  exists before_ after_, s = before_ ++ x ++ after_.

(** Two tables without a common code point. *)
Definition apart (t1 t2 : list (N * N)) : bool :=
  forallb (fun r1 =>
             forallb (fun r2 => (snd r1 <? fst r2)%N || (snd r2 <? fst r1)%N)
                     t2) t1.

(** A character that is neither white space nor a double quote. *)
Definition plain_char (a : char) : bool :=
  negb (isspace a) && negb (N.eqb a dquote).

(** A boundary parameter written without quotes: no ";" inside, and a first
    and a last character that are neither white space nor quotes (so it is
    not empty). *)
Definition plain_boundary (bd : text) : Prop :=
  Forall (fun a => a <> ch ";") bd
  /\ plain_char (hd dquote bd) = true
  /\ plain_char (last bd dquote) = true.

End MoreProps.

Import MoreProps.

(* ================================================================== *)
(** ** Sample requests *)
(* ================================================================== *)

Module Requests.

(** The headers of a file field. *)
Definition file_headers : bytes :=
  lit_bytes "Content-Disposition: form-data; name=file; filename=a.pdf"
  ++ CRLF ++ lit_bytes "Content-Type: application/pdf".

Definition pdf_content : bytes := lit_bytes "%PDF-1.4 sample %%EOF".

(** The part of a multipart body that carries [content] under [headers]. *)
Definition file_part (headers content : bytes) : bytes :=
  CRLF ++ headers ++ CRLF ++ CRLF ++ content ++ CRLF.

(** A body with a text field only. *)
Definition body_without_file : bytes :=
  lit_bytes "--XYZ" ++ CRLF
  ++ lit_bytes "Content-Disposition: form-data; name=note" ++ CRLF ++ CRLF
  ++ lit_bytes "hello" ++ CRLF ++ lit_bytes "--XYZ--" ++ CRLF.

(** Two pages on which no strategy finds a key. *)
Definition blank_pages : list page :=
  [readable_page (str "Thank you"); readable_page (str "")].

End Requests.

Import Requests.

(* ================================================================== *)
(** ** Facts about strings *)
(* ================================================================== *)

Module PyStrFacts.

Lemma text_eqb_eq (s t : text) : text_eqb s t = true <-> s = t.
Proof.
  revert t; induction s as [|a s IH]; intros [|b t]; simpl;
    try (split; [discriminate | congruence]); try tauto.
  rewrite andb_true_iff, N.eqb_eq, IH.
  split; [intros [-> ->]; reflexivity | intros H; inversion H; auto].
Qed.

Lemma text_eqb_refl (s : text) : text_eqb s s = true.
Proof. apply text_eqb_eq; reflexivity. Qed.

Lemma text_eqb_neq (s t : text) : text_eqb s t = false <-> s <> t.
Proof.
  rewrite <- text_eqb_eq. destruct (text_eqb s t); split; congruence.
Qed.

Lemma text_eqb_sym (s t : text) : text_eqb s t = text_eqb t s.
Proof.
  destruct (text_eqb s t) eqn:E.
  - apply text_eqb_eq in E; subst; symmetry; apply text_eqb_refl.
  - symmetry; apply text_eqb_neq; apply text_eqb_neq in E; congruence.
Qed.

Lemma ord_inj (a b : char) : ord a = ord b -> a = b.
Proof.
  unfold ord.
  destruct (N.ltb_spec a 55296), (N.ltb_spec b 55296); lia.
Qed.

(** Below the surrogates a character is numbered by its code point. *)
Lemma ord_low (c : char) : (ord c < 55296)%N -> ord c = c.
Proof. unfold ord. destruct (N.ltb_spec c 55296); lia. Qed.

(** No character has the code point of a surrogate, and every other code
    point is that of its character. *)
Lemma ord_scalar (c : char) : (ord c < 55296 \/ 57344 <= ord c)%N.
Proof. unfold ord. destruct (N.ltb_spec c 55296); lia. Qed.

Lemma ord_unichr (n : N) :
  (n < 55296 \/ 57344 <= n)%N -> ord (unichr n) = n.
Proof.
  unfold ord, unichr. intros H.
  destruct (N.ltb_spec n 55296) as [Hn|Hn].
  - destruct (N.ltb_spec n 55296); lia.
  - destruct (N.ltb_spec (n - 2048) 55296); lia.
Qed.

Lemma in_ranges_spec (table : list (N * N)) (n : N) :
  in_ranges table n = true
  <-> exists first last, In (first, last) table /\ (first <= n <= last)%N.
Proof.
  induction table as [|[first last] table IH]; simpl.
  - split; [discriminate|]. intros (? & ? & [] & _).
  - rewrite orb_true_iff, andb_true_iff, !N.leb_le, IH. split.
    + intros [H|(f & l & Hin & H)]; [exists first, last|exists f, l]; auto.
    + intros (f & l & [E|Hin] & H).
      * injection E as -> ->. auto.
      * right. exists f, l. auto.
Qed.

Lemma apart_spec (t1 t2 : list (N * N)) (n : N) :
  apart t1 t2 = true -> in_ranges t1 n = true -> in_ranges t2 n = false.
Proof.
  unfold apart. rewrite forallb_forall. intros Ha H1.
  destruct (in_ranges t2 n) eqn:H2; auto. exfalso.
  apply in_ranges_spec in H1, H2.
  destruct H1 as (f1 & l1 & Hin1 & Hn1), H2 as (f2 & l2 & Hin2 & Hn2).
  specialize (Ha _ Hin1). rewrite forallb_forall in Ha.
  specialize (Ha _ Hin2). simpl in Ha.
  apply orb_true_iff in Ha. rewrite !N.ltb_lt in Ha. lia.
Qed.

Lemma str_ltb_irrefl (s : text) : str_ltb s s = false.
Proof.
  induction s as [|a s IH]; simpl; auto.
  rewrite N.ltb_irrefl; exact IH.
Qed.

(** The order on strings is a strict weak order: anything below [u] and not
    below [t] has [t] below [u]. *)
Lemma str_ltb_cotrans (s t u : text) :
  str_ltb s u = true -> str_ltb s t = true \/ str_ltb t u = true.
Proof.
  revert t u; induction s as [|a s IH]; intros t u; destruct u as [|c u];
    simpl; try discriminate.
  - destruct t; simpl; auto.
  - destruct t as [|b t]; simpl; auto.
    destruct (ord a <? ord c)%N eqn:Hac.
    + intros _. apply N.ltb_lt in Hac.
      destruct (ord a <? ord b)%N eqn:Hab; auto.
      apply N.ltb_ge in Hab.
      right. assert (Hbc : (ord b <? ord c)%N = true) by (apply N.ltb_lt; lia).
      rewrite Hbc; reflexivity.
    + destruct (ord c <? ord a)%N eqn:Hca; try discriminate.
      apply N.ltb_ge in Hac, Hca. assert (Eac : ord a = ord c) by lia.
      intros H.
      destruct (ord a <? ord b)%N eqn:Hab; auto.
      destruct (ord b <? ord a)%N eqn:Hba.
      * right. apply N.ltb_lt in Hba.
        assert (Hbc : (ord b <? ord c)%N = true) by (apply N.ltb_lt; lia).
        rewrite Hbc; reflexivity.
      * apply N.ltb_ge in Hab, Hba.
        assert (Hbc : (ord b <? ord c)%N = false) by (apply N.ltb_ge; lia).
        assert (Hcb : (ord c <? ord b)%N = false) by (apply N.ltb_ge; lia).
        rewrite Hbc, Hcb. apply IH; exact H.
Qed.

Lemma str_ltb_asym (s t : text) : str_ltb s t = true -> str_ltb t s = false.
Proof.
  revert t; induction s as [|a s IH]; intros [|b t]; simpl; auto;
    try discriminate.
  destruct (ord a <? ord b)%N eqn:Hab.
  - intros _. apply N.ltb_lt in Hab.
    assert (H : (ord b <? ord a)%N = false) by (apply N.ltb_ge; lia).
    rewrite H. reflexivity.
  - destruct (ord b <? ord a)%N eqn:Hba; try discriminate. apply IH.
Qed.

Lemma pair_ltb_cotrans (x y z : nat * text) :
  pair_ltb x z = true -> pair_ltb x y = true \/ pair_ltb y z = true.
Proof.
  destruct x as [a s], y as [b t], z as [c u]; unfold pair_ltb; simpl.
  rewrite !orb_true_iff, !andb_true_iff, !Nat.ltb_lt, !Nat.eqb_eq.
  intros [H|[H1 H2]].
  - destruct (Nat.lt_trichotomy a b) as [?|[?|?]]; auto.
    + subst b. right; left; exact H.
    + right; left; lia.
  - subst c. destruct (Nat.lt_trichotomy a b) as [?|[?|?]]; auto.
    subst b. destruct (str_ltb_cotrans s t u H2); auto.
Qed.

Lemma pair_ltb_asym (x y : nat * text) :
  pair_ltb x y = true -> pair_ltb y x = false.
Proof.
  destruct x as [a s], y as [b t]; unfold pair_ltb; simpl.
  rewrite orb_true_iff, andb_true_iff, Nat.ltb_lt, Nat.eqb_eq.
  intros [H|[-> H]].
  - apply orb_false_iff; split; [apply Nat.ltb_ge; lia|].
    apply andb_false_iff; left; apply Nat.eqb_neq; lia.
  - rewrite Nat.ltb_irrefl, Nat.eqb_refl; simpl. apply str_ltb_asym, H.
Qed.

End PyStrFacts.

(* ================================================================== *)
(** ** Facts about [sorted] *)
(* ================================================================== *)

Module SortedFacts.

Lemma ssorted_across (A : Type) (R : A -> A -> Prop) (l1 l2 : list A) :
  StronglySorted R (l1 ++ l2) ->
  forall a b, In a l1 -> In b l2 -> R a b.
Proof.
  induction l1 as [|x l1 IH]; simpl; intros Hs a b Ha Hb; [contradiction|].
  apply StronglySorted_inv in Hs. destruct Hs as [Hs Hall].
  destruct Ha as [<-|Ha].
  - rewrite Forall_forall in Hall. apply Hall, in_or_app; auto.
  - eapply IH; eauto.
Qed.

Section Sorting.
Variables (A K : Type) (ltb : K -> K -> bool) (key : A -> K).

Hypothesis ltb_asym : forall a b, ltb a b = true -> ltb b a = false.
Hypothesis ltb_cotrans :
  forall a b c, ltb a c = true -> ltb a b = true \/ ltb b c = true.

Lemma insert_perm (x : A) (l : list A) :
  Permutation (insert ltb key x l) (x :: l).
Proof.
  induction l as [|y l IH]; simpl; auto.
  destruct (ltb (key y) (key x)); auto.
  rewrite IH. apply perm_swap.
Qed.

Lemma sorted_perm (l : list A) : Permutation (sorted ltb key l) l.
Proof.
  induction l as [|x l IH]; simpl; auto.
  unfold sorted in *; simpl. rewrite insert_perm. auto.
Qed.

Lemma ordered_trans (x y z : A) : ordered ltb key x y -> ordered ltb key y z -> ordered ltb key x z.
Proof.
  unfold ordered; intros Hxy Hyz.
  destruct (ltb (key z) (key x)) eqn:E; auto.
  destruct (ltb_cotrans _ (key y) _ E); congruence.
Qed.

Lemma insert_sorted (x : A) (l : list A) :
  StronglySorted (ordered ltb key) l -> StronglySorted (ordered ltb key) (insert ltb key x l).
Proof.
  induction 1 as [|y l Hs IH Hall]; simpl.
  - repeat constructor.
  - destruct (ltb (key y) (key x)) eqn:E.
    + constructor; auto.
      apply Forall_forall; intros z Hz.
      apply (Permutation_in _ (insert_perm x l)) in Hz.
      destruct Hz as [<-|Hz].
      * apply ltb_asym, E.
      * rewrite Forall_forall in Hall; auto.
    + constructor; [constructor; auto|].
      constructor; auto.
      eapply Forall_impl; [|exact Hall].
      intros z Hz; eapply ordered_trans; eauto.
Qed.

Lemma sorted_sorted (l : list A) : StronglySorted (ordered ltb key) (sorted ltb key l).
Proof.
  induction l as [|x l IH]; [constructor|].
  apply insert_sorted, IH.
Qed.

(** In a sorted list, an element with a strictly smaller key comes
    first. *)
Lemma sorted_before (l : list A) (x y : A) :
  In x l -> In y l -> ltb (key x) (key y) = true ->
  exists l1 l2 l3, sorted ltb key l = l1 ++ x :: l2 ++ y :: l3.
Proof.
  intros Hx Hy Hlt.
  pose proof (sorted_sorted l) as Hs.
  assert (Hx' : In x (sorted ltb key l))
    by (eapply Permutation_in; [symmetry; apply sorted_perm|exact Hx]).
  assert (Hy' : In y (sorted ltb key l))
    by (eapply Permutation_in; [symmetry; apply sorted_perm|exact Hy]).
  destruct (in_split _ _ Hx') as (l1 & l2 & E).
  rewrite E in Hs, Hy' |- *.
  apply in_app_or in Hy'. destruct Hy' as [Hy'|[Hy'|Hy']].
  - exfalso.
    assert (Ho : ordered ltb key y x)
      by (eapply ssorted_across; [exact Hs|exact Hy'|left; reflexivity]).
    unfold ordered in Ho. congruence.
  - exfalso. subst y. pose proof (ltb_asym _ _ Hlt). congruence.
  - destruct (in_split _ _ Hy') as (m1 & m2 & E1).
    exists l1, m1, m2. rewrite E1. reflexivity.
Qed.
End Sorting.

Lemma nat_sorted_le (A : Type) (l : list (nat * A)) :
  StronglySorted le (map fst (sorted Nat.ltb fst l)).
Proof.
  assert (H : StronglySorted (ordered Nat.ltb fst) (sorted Nat.ltb fst l)).
  { apply sorted_sorted.
    - intros a b H; apply Nat.ltb_lt in H; apply Nat.ltb_ge; lia.
    - intros a b c H; apply Nat.ltb_lt in H.
      destruct (Nat.lt_ge_cases a b); [left|right]; apply Nat.ltb_lt; lia. }
  induction H as [|x l' Hs IH Hall]; simpl; constructor; auto.
  apply Forall_forall. intros n Hn. apply in_map_iff in Hn.
  destruct Hn as (y & <- & Hy). rewrite Forall_forall in Hall.
  specialize (Hall y Hy). unfold ordered in Hall. apply Nat.ltb_ge in Hall.
  exact Hall.
Qed.

Lemma sorted_le_nodup_lt (l : list nat) :
  StronglySorted le l -> NoDup l -> StronglySorted lt l.
Proof.
  induction 1 as [|x l Hs IH Hall]; intros Hnd; constructor.
  - apply IH. inversion Hnd; auto.
  - inversion Hnd as [|? ? Hnin Hnd']; subst.
    rewrite Forall_forall in *. intros y Hy. specialize (Hall y Hy).
    assert (x <> y) by (intros ->; contradiction). lia.
Qed.

End SortedFacts.

(* ================================================================== *)
(** ** Facts about the buckets *)
(* ================================================================== *)

Module DictFacts.
Import PyStrFacts.

Lemma getitem_dict_append (d : vin_dict) (k : text) (x : nat * text) (k' : text) :
  getitem (dict_append d k x) k'
  = if text_eqb k k' then getitem d k' ++ [x] else getitem d k'.
Proof.
  induction d as [|[k0 l] d IH]; simpl.
  - destruct (text_eqb k k'); reflexivity.
  - destruct (text_eqb k0 k) eqn:E0; simpl.
    + apply text_eqb_eq in E0; subst k0.
      destruct (text_eqb k k'); reflexivity.
    + destruct (text_eqb k0 k') eqn:E1; auto.
      apply text_eqb_eq in E1; subst k0.
      rewrite text_eqb_sym, E0. reflexivity.
Qed.

Lemma keys_dict_append (d : vin_dict) (k : text) (x : nat * text) (k' : text) :
  In k' (keys (dict_append d k x)) <-> k' = k \/ In k' (keys d).
Proof.
  unfold keys. induction d as [|[k0 l] d IH]; simpl.
  - intuition.
  - destruct (text_eqb k0 k) eqn:E0; simpl.
    + apply text_eqb_eq in E0; subst k0. intuition.
    + rewrite IH. intuition.
Qed.

Lemma nodup_keys_append (d : vin_dict) (k : text) (x : nat * text) :
  NoDup (keys d) -> NoDup (keys (dict_append d k x)).
Proof.
  unfold keys. induction d as [|[k0 l] d IH]; simpl; intros Hnd.
  - repeat constructor; auto.
  - inversion Hnd as [|? ? Hnin Hnd']; subst.
    destruct (text_eqb k0 k) eqn:E0; simpl.
    + constructor; auto.
    + constructor; auto.
      intros Hin. apply (keys_dict_append d k x k0) in Hin.
      destruct Hin as [->|Hin]; [|contradiction].
      rewrite text_eqb_refl in E0; discriminate.
Qed.

Lemma concat_dict_append (d : vin_dict) (k : text) (x : nat * text) :
  Permutation (concat (map snd (dict_append d k x)))
              (concat (map snd d) ++ [x]).
Proof.
  induction d as [|[k0 l] d IH]; simpl; auto.
  destruct (text_eqb k0 k); simpl.
  - rewrite <- !app_assoc. apply Permutation_app_head.
    apply Permutation_app_comm.
  - rewrite IH, app_assoc. reflexivity.
Qed.

Lemma flat_map_ext_on (A B : Type) (f g : A -> list B) (l : list A) :
  (forall a, In a l -> f a = g a) -> flat_map f l = flat_map g l.
Proof.
  induction l as [|a l IH]; simpl; intros H; auto.
  rewrite (H a), IH; auto.
Qed.

(** Reading every bucket in the order of the keys reads the whole
    structure. *)
Lemma flat_getitem (d : vin_dict) :
  NoDup (keys d) -> flat_map (getitem d) (keys d) = concat (map snd d).
Proof.
  unfold keys. induction d as [|[k0 l] d IH]; simpl; intros Hnd; auto.
  inversion Hnd as [|? ? Hnin Hnd']; subst.
  rewrite text_eqb_refl. f_equal.
  rewrite <- (IH Hnd'). apply flat_map_ext_on.
  intros k Hk. destruct (text_eqb k0 k) eqn:E; auto.
  apply text_eqb_eq in E; subst; contradiction.
Qed.

Lemma getitem_in_keys (d : vin_dict) (k : text) (x : nat * text) :
  In x (getitem d k) -> In k (keys d).
Proof.
  unfold keys. induction d as [|[k0 l] d IH]; simpl; [contradiction|].
  destruct (text_eqb k0 k) eqn:E.
  - apply text_eqb_eq in E; auto.
  - auto.
Qed.

Lemma getitem_incl (d : vin_dict) (k : text) :
  incl (getitem d k) (concat (map snd d)).
Proof.
  induction d as [|[k0 l] d IH]; simpl; intros x Hx; auto.
  apply in_or_app. destruct (text_eqb k0 k); auto.
Qed.

Lemma getitem_nodup (d : vin_dict) (k : text) :
  NoDup (map fst (concat (map snd d))) -> NoDup (map fst (getitem d k)).
Proof.
  induction d as [|[k0 l] d IH]; simpl; intros Hnd; [constructor|].
  rewrite map_app in Hnd.
  destruct (text_eqb k0 k).
  - eapply NoDup_app_remove_r; eauto.
  - apply IH. eapply NoDup_app_remove_l; eauto.
Qed.

End DictFacts.

(* ================================================================== *)
(** ** Facts about the loop over the pages and the writer *)
(* ================================================================== *)

Module LoopFacts.
Import PyStrFacts SortedFacts DictFacts.

Section Loop.
Variables OCR_AVAILABLE needs_ocr : bool.

Let rec_of := record_of OCR_AVAILABLE needs_ocr.

(** Every turn of the loop appends exactly one entry, whether the
    extraction raised or not. *)
Lemma extract_page_buckets (n : nat) (p : page) (st : state) :
  vin_pages (extract_page OCR_AVAILABLE needs_ocr n p st)
  = dict_append (vin_pages st) (fst (rec_of p)) (n, snd (rec_of p)).
Proof.
  unfold rec_of, record_of, extract_page, read_page.
  destruct needs_ocr; simpl.
  - destruct (extract_vehicle_vin _); reflexivity.
  - destruct (native_text p) as [t|]; simpl; [|reflexivity].
    destruct (extract_vehicle_vin t); reflexivity.
Qed.

Lemma loop_nodup_keys (pages : list page) :
  forall n st, NoDup (keys (vin_pages st)) ->
               NoDup (keys (vin_pages (extract_loop OCR_AVAILABLE needs_ocr n pages st))).
Proof.
  induction pages as [|p pages IH]; simpl; intros n st H; auto.
  apply IH. rewrite extract_page_buckets. apply nodup_keys_append, H.
Qed.

Lemma loop_page_numbers (pages : list page) :
  forall n st,
    Permutation (map fst (concat (map snd (vin_pages (extract_loop OCR_AVAILABLE needs_ocr n pages st)))))
                (map fst (concat (map snd (vin_pages st)))
                 ++ seq n (length pages)).
Proof.
  induction pages as [|p pages IH]; simpl; intros n st.
  - rewrite app_nil_r. reflexivity.
  - rewrite IH, extract_page_buckets.
    rewrite concat_dict_append, map_app, <- app_assoc. reflexivity.
Qed.

Lemma loop_keeps (pages : list page) :
  forall n st k x,
    In x (getitem (vin_pages st) k) ->
    In x (getitem (vin_pages (extract_loop OCR_AVAILABLE needs_ocr n pages st)) k).
Proof.
  induction pages as [|p pages IH]; simpl; intros n st k x H; auto.
  apply IH. rewrite extract_page_buckets, getitem_dict_append.
  destruct (text_eqb _ k); auto. apply in_or_app; auto.
Qed.

(** The page at index [i] ends up in the bucket of its key, under its
    own number. *)
Lemma loop_records (pages : list page) :
  forall n st i p,
    nth_error pages i = Some p ->
    In (n + i, snd (rec_of p))
       (getitem (vin_pages (extract_loop OCR_AVAILABLE needs_ocr n pages st)) (fst (rec_of p))).
Proof.
  induction pages as [|q pages IH]; intros n st [|i] p H; simpl in H;
    try discriminate.
  - injection H as ->. simpl. apply loop_keeps.
    rewrite extract_page_buckets, getitem_dict_append, text_eqb_refl.
    rewrite Nat.add_0_r. apply in_or_app; right; left; reflexivity.
  - simpl. replace (n + S i) with (S n + i) by lia. apply IH, H.
Qed.
End Loop.

(** The writer visits every entry of the buckets once. *)
Lemma write_pages_perm (d : vin_dict) :
  NoDup (keys d) ->
  Permutation (write_pages d) (map fst (concat (map snd d))).
Proof.
  intros Hnd. unfold write_pages, sorted_vins.
  transitivity (flat_map (group_pages d) (keys d));
    [apply Permutation_flat_map, sorted_perm|].
  rewrite <- (flat_getitem d Hnd).
  unfold keys. induction (map fst d) as [|k ks IH]; simpl; auto.
  rewrite map_app. apply Permutation_app; auto.
  unfold group_pages. apply Permutation_map, sorted_perm.
Qed.

Lemma sort_key_ordered :
  (forall a b, pair_ltb a b = true -> pair_ltb b a = false)
  /\ (forall a b c, pair_ltb a c = true ->
                    pair_ltb a b = true \/ pair_ltb b c = true).
Proof.
  split; [exact pair_ltb_asym | intros a b c; apply pair_ltb_cotrans].
Qed.

(** Two groups whose keys compare are written one after the other. *)
Lemma groups_in_order (d : vin_dict) (A B : text) (p q : nat) :
  In A (keys d) -> In B (keys d) ->
  pair_ltb (sort_key A) (sort_key B) = true ->
  In p (group_pages d A) -> In q (group_pages d B) ->
  before p q (write_pages d).
Proof.
  intros HA HB Hlt Hp Hq.
  destruct sort_key_ordered as [Hasym Hco].
  destruct (sorted_before _ _ pair_ltb sort_key Hasym Hco (keys d) A B HA HB Hlt)
    as (l1 & l2 & l3 & E).
  unfold write_pages, sorted_vins. rewrite E.
  destruct (in_split _ _ Hp) as (a1 & a2 & Ea).
  destruct (in_split _ _ Hq) as (b1 & b2 & Eb).
  rewrite flat_map_app. simpl. rewrite flat_map_app. simpl.
  rewrite Ea, Eb.
  exists (flat_map (group_pages d) l1 ++ a1),
         (a2 ++ flat_map (group_pages d) l2 ++ b1),
         (b2 ++ flat_map (group_pages d) l3).
  repeat (rewrite <- app_assoc; simpl). reflexivity.
Qed.

Lemma in_group_pages (d : vin_dict) (k : text) (p : nat) (name : text) :
  In (p, name) (getitem d k) -> In p (group_pages d k).
Proof.
  intros H. unfold group_pages.
  apply in_map_iff. exists (p, name). split; auto.
  eapply Permutation_in; [symmetry; apply sorted_perm|exact H].
Qed.

End LoopFacts.

(* ================================================================== *)
(** ** Facts about the matcher *)
(* ================================================================== *)

Module ReFacts.
Import PyStrFacts.

Lemma firstn_consumed (w s' : text) :
  firstn (length (w ++ s') - length s') (w ++ s') = w.
Proof.
  rewrite length_app, Nat.add_sub. 
  rewrite firstn_app, Nat.sub_diag, firstn_all. simpl. apply app_nil_r.
Qed.

Lemma bound_cons (i j : nat) (v : text) (c : caps) :
  i = j \/ bound i c -> bound i ((j, v) :: c).
Proof.
  unfold bound; simpl. destruct (i =? j) eqn:E; [discriminate|].
  apply Nat.eqb_neq in E. intros [?|?]; auto; contradiction.
Qed.

Section Soundness.
Variable P : nat -> text -> Prop.

Lemma star_sound (g : bool) (r : regex) :
  sound_at P r -> sound_at P (Star g r).
Proof.
  intros IHr k s c res Hc. simpl. generalize (length s) at 1. intros n.
  revert s c Hc. induction n as [|n IHn]; intros s c Hc H.
  - exists [], s, c. repeat split; auto using lang_star_nil.
    intros i [Hi|Hi]; [discriminate|exact Hi].
  - assert (Hstop : k s c = Some res ->
            exists w s' c', s = w ++ s' /\ lang (Star g r) w /\ caps_ok P c'
              /\ (forall i, binds i (Star g r) = true \/ bound i c -> bound i c')
              /\ k s' c' = Some res).
    { intros Hk. exists [], s, c. repeat split; auto using lang_star_nil.
      intros i [Hi|Hi]; [discriminate|exact Hi]. }
    assert (Hmore : forall x,
            matchk r (fun s' c' =>
               if length s' <? length s
               then (fix loop (n : nat) (s : text) (c : caps) {struct n} :=
                       match n with
                       | 0 => k s c
                       | S n' =>
                           let more (_ : unit) :=
                             matchk r
                               (fun s' c' =>
                                  if length s' <? length s
                                  then loop n' s' c' else None) s c in
                           if g then
                             match more tt with
                             | Some x => Some x
                             | None => k s c
                             end
                           else
                             match k s c with
                             | Some x => Some x
                             | None => more tt
                             end
                       end) n s' c'
               else None) s c = Some x ->
            x = res ->
            exists w s' c', s = w ++ s' /\ lang (Star g r) w /\ caps_ok P c'
              /\ (forall i, binds i (Star g r) = true \/ bound i c -> bound i c')
              /\ k s' c' = Some res).
    { intros x E ->.
      destruct (IHr _ _ _ _ Hc E) as (w1 & s1 & c1 & -> & Hw1 & Hc1 & Hb1 & Hk1).
      destruct (length s1 <? length (w1 ++ s1)); [|discriminate].
      destruct (IHn _ _ Hc1 Hk1) as (w2 & s2 & c2 & -> & Hw2 & Hc2 & Hb2 & Hk2).
      exists (w1 ++ w2), s2, c2. rewrite <- app_assoc.
      repeat split; auto using lang_star_more.
      intros i [Hi|Hi]; [discriminate|]. apply Hb2; right. apply Hb1; auto. }
    simpl in H. destruct g.
    + match type of H with
      | match ?m with _ => _ end = _ => destruct m eqn:E
      end.
      * injection H as ->. eapply Hmore; eauto.
      * auto.
    + destruct (k s c) eqn:Ek.
      * injection H as ->. auto.
      * eapply Hmore; eauto.
Qed.

Lemma matchk_sound (r : regex) : groups_ok P r -> sound_at P r.
Proof.
  induction r as [|p|r1 IH1 r2 IH2|r1 IH1 r2 IH2|g r IH|j r IH];
    intros Hg.
  - intros k s c res Hc H. exists [], s, c.
    repeat split; auto using lang_eps.
    intros i [Hi|Hi]; [discriminate|exact Hi].
  - intros k s c res Hc H. simpl in H. destruct s as [|a s]; [discriminate|].
    destruct (p a) eqn:Ep; [|discriminate].
    exists [a], s, c. repeat split; auto using lang_cls.
    intros i [Hi|Hi]; [discriminate|exact Hi].
  - destruct Hg as [Hg1 Hg2]. intros k s c res Hc H. simpl in H.
    destruct (IH1 Hg1 _ _ _ _ Hc H) as (w1 & s1 & c1 & -> & Hw1 & Hc1 & Hb1 & Hk1).
    destruct (IH2 Hg2 _ _ _ _ Hc1 Hk1) as (w2 & s2 & c2 & -> & Hw2 & Hc2 & Hb2 & Hk2).
    exists (w1 ++ w2), s2, c2. rewrite <- app_assoc.
    repeat split; auto using lang_seq.
    intros i [Hi|Hi]; simpl in *.
    + apply orb_true_iff in Hi. destruct Hi as [Hi|Hi]; auto.
    + auto.
  - destruct Hg as [Hg1 Hg2]. intros k s c res Hc H. simpl in H.
    destruct (matchk r1 k s c) eqn:E.
    + injection H as ->.
      destruct (IH1 Hg1 _ _ _ _ Hc E) as (w & s' & c' & -> & Hw & Hc' & Hb & Hk).
      exists w, s', c'. repeat split; auto using lang_alt_l.
      intros i [Hi|Hi]; simpl in *; auto.
      apply andb_true_iff in Hi. destruct Hi; auto.
    + destruct (IH2 Hg2 _ _ _ _ Hc H) as (w & s' & c' & -> & Hw & Hc' & Hb & Hk).
      exists w, s', c'. repeat split; auto using lang_alt_r.
      intros i [Hi|Hi]; simpl in *; auto.
      apply andb_true_iff in Hi. destruct Hi; auto.
  - apply star_sound, IH, Hg.
  - destruct Hg as [Hg1 Hg2]. intros k s c res Hc H. simpl in H.
    destruct (IH Hg1 _ _ _ _ Hc H) as (w & s' & c' & -> & Hw & Hc' & Hb & Hk).
    rewrite firstn_consumed in Hk.
    exists w, s', ((j, w) :: c'). repeat split; auto using lang_group.
    + constructor; simpl; auto.
    + intros i [Hi|Hi]; simpl in *; apply bound_cons.
      * apply orb_true_iff in Hi. destruct Hi as [Hi|Hi].
        -- left. apply Nat.eqb_eq, Hi.
        -- right; auto.
      * right; auto.
Qed.
End Soundness.


Lemma match_here_sound (P : nat -> text -> Prop) (r : regex) (s rest : text)
    (c : caps) :
  groups_ok P r -> match_here r s = Some (rest, c) ->
  exists w, s = w ++ rest /\ firstn (length s - length rest) s = w
            /\ lang r w /\ caps_ok P c
            /\ (forall i, binds i r = true -> bound i c).
Proof.
  intros Hg E. unfold match_here in E.
  destruct (matchk_sound P r Hg accept _ _ _ (Forall_nil _) E)
    as (w & s' & c' & -> & Hw & Hc & Hb & Hk).
  injection Hk as <- <-. exists w. rewrite firstn_consumed.
  repeat split; auto.
Qed.

Lemma search_eq (r : regex) (s : text) :
  search r s =
  match match_here r s with
  | Some (rest, c) => Some (mkMatch (firstn (length s - length rest) s) c)
  | None => match s with [] => None | _ :: s' => search r s' end
  end.
Proof. destruct s; reflexivity. Qed.

(** [re.search] returns a match object built from a successful attempt at
    some position. *)
Lemma search_sound (P : nat -> text -> Prop) (r : regex) (s : text) (m : Match) :
  groups_ok P r -> search r s = Some m ->
  exists pre post,
    s = pre ++ whole m ++ post /\ lang r (whole m) /\ caps_ok P (groups m)
    /\ (forall i, binds i r = true -> bound i (groups m)).
Proof.
  intros Hg. induction s as [|a s IH]; rewrite search_eq; intros H.
  - destruct (match_here r []) as [[rest c]|] eqn:E; [|discriminate].
    destruct (match_here_sound P r _ _ _ Hg E) as (w & E1 & Ef & Hw & Hc & Hb).
    rewrite Ef in H. injection H as <-.
    exists [], rest. simpl. repeat split; auto.
  - destruct (match_here r (a :: s)) as [[rest c]|] eqn:E.
    + destruct (match_here_sound P r _ _ _ Hg E) as (w & E1 & Ef & Hw & Hc & Hb).
 rewrite Ef in H. injection H as <-.
      exists [], rest. simpl. repeat split; auto.
    + destruct (IH H) as (pre & post & -> & Hrest).
      exists (a :: pre), post. split; auto.
Qed.

(** A bound group is what [group] returns, and it satisfies the property
    of the group. *)
Lemma group_ok (P : nat -> text -> Prop) (m : Match) (i : nat) :
  caps_ok P (groups m) -> bound (S i) (groups m) -> P (S i) (group m (S i)).
Proof.
  unfold group, bound, caps_ok. induction (groups m) as [|[j v] c IH]; simpl.
  - intros _ H; contradiction H; reflexivity.
  - intros Hc Hb. inversion Hc as [|? ? Hv Hc']; subst. simpl in Hv.
    destruct j as [|j]; simpl; auto.
    destruct (i =? j) eqn:E; auto.
    apply Nat.eqb_eq in E; subst; exact Hv.
Qed.

Lemma search_at (r : regex) (pre s : text) :
  match_here r s <> None -> search r (pre ++ s) <> None.
Proof.
  intros H. induction pre as [|a pre IH]; simpl.
  - destruct s; simpl; destruct (match_here r _) as [[? ?]|];
      congruence.
  - destruct (match_here r (a :: pre ++ s)) as [[? ?]|]; [discriminate|exact IH].
Qed.

Lemma search_found (r : regex) (s : text) :
  search r s <> None ->
  exists pre suf, s = pre ++ suf /\ match_here r suf <> None.
Proof.
  induction s as [|a s IH]; simpl; intros H.
  - exists [], []. split; auto.
    destruct (match_here r []) as [[? ?]|]; congruence.
  - destruct (match_here r (a :: s)) as [[rest c]|] eqn:E.
    + exists [], (a :: s). split; auto. congruence.
    + destruct (IH H) as (pre & suf & -> & Hs).
      exists (a :: pre), suf. split; auto.
Qed.

(** *** Words of the patterns on digits *)

Lemma lang_digit (w : text) :
  lang digit w -> exists a, w = [a] /\ isdecimal a = true.
Proof. inversion 1; subst; eauto. Qed.

Lemma lang_digit4 (w : text) : lang digit4 w -> four_digits w.
Proof.
  unfold digit4. intros H.
  repeat match goal with
         | H : lang (Seq _ _) _ |- _ => inversion H; subst; clear H
         | H : lang digit _ |- _ =>
             apply lang_digit in H; destruct H as (? & -> & ?)
         end.
  split; [reflexivity|]. repeat constructor; auto.
Qed.

Lemma lang_star_cls (g : bool) (p : char -> bool) (w : text) :
  lang (Star g (Cls p)) w -> Forall (fun a => p a = true) w.
Proof.
  intros H. remember (Star g (Cls p)) as r eqn:Er.
  induction H; try discriminate; injection Er as -> ->; auto.
  inversion H; subst. constructor; auto.
Qed.

Lemma lang_digits (w : text) : lang digits_re w -> w <> [] /\ all_digits w.
Proof.
  unfold digits_re, plus. inversion 1 as [| |? ? w1 w2 H1 H2| | | | |]; subst.
  apply lang_digit in H1. destruct H1 as (a & -> & Ha).
  split; [discriminate|]. constructor; auto.
  apply (lang_star_cls _ _ _ H2).
Qed.


(** *** Greedy repetition of a class *)

Lemma take_drop_while (p : char -> bool) (s : text) :
  take_while p s ++ drop_while p s = s.
Proof.
  induction s as [|a s IH]; simpl; auto.
  destruct (p a); simpl; [rewrite IH|]; reflexivity.
Qed.

Lemma drop_while_length (p : char -> bool) (s : text) :
  length (drop_while p s) <= length s.
Proof.
  induction s as [|a s IH]; simpl; auto. destruct (p a); simpl; lia.
Qed.

Lemma take_while_all (p : char -> bool) (s : text) :
  Forall (fun a => p a = true) (take_while p s).
Proof.
  induction s as [|a s IH]; simpl; auto.
  destruct (p a) eqn:E; auto.
Qed.

(** A greedy star on a class, followed by nothing that can fail, takes the
    whole run. *)
Lemma star_cls_accept (p : char -> bool) (s : text) (c : caps) :
  matchk (Star true (Cls p)) accept s c = Some (drop_while p s, c).
Proof.
  simpl. remember (length s) as n eqn:En.
  assert (Hn : length s <= n) by lia. clear En.
  revert s c Hn. induction n as [|n IH]; intros s c Hn.
  - destruct s; [reflexivity|simpl in Hn; lia].
  - destruct s as [|a s]; [reflexivity|].
    simpl in Hn. simpl. destruct (p a); [|reflexivity].
    assert (E : (length s <? S (length s)) = true) by (apply Nat.ltb_lt; lia).
    rewrite E, IH by lia. reflexivity.
Qed.

Lemma match_here_digits (s : text) :
  match_here digits_re s =
  match s with
  | a :: s' =>
      if isdecimal a then Some (drop_while isdecimal s', []) else None
  | [] => None
  end.
Proof.
  unfold match_here, digits_re, plus, digit.
  change (matchk (Seq (Cls isdecimal) (Star true (Cls isdecimal))) accept s [])
    with (matchk (Cls isdecimal) (matchk (Star true (Cls isdecimal)) accept) s []).
  destruct s as [|a s]; [reflexivity|].
  change (matchk (Cls isdecimal) (matchk (Star true (Cls isdecimal)) accept)
            (a :: s) [])
    with (if isdecimal a
          then matchk (Star true (Cls isdecimal)) accept s [] else None).
  destruct (isdecimal a); [apply star_cls_accept|reflexivity].
Qed.

(** *** [findall] on runs of digits *)

Lemma findall_nil (n : nat) : findall_from n digits_re [] = [].
Proof. destruct n; reflexivity. Qed.

Lemma findall_nondigit (n : nat) (a : char) (s : text) :
  isdecimal a = false ->
  findall_from (S n) digits_re (a :: s) = findall_from n digits_re s.
Proof.
  intros Ha.
  change (findall_from (S n) digits_re (a :: s)) with
    (match match_here digits_re (a :: s) with
     | Some (rest, _) =>
         match firstn (length (a :: s) - length rest) (a :: s) with
         | [] => [] :: findall_from n digits_re s
         | w => w :: findall_from n digits_re rest
         end
     | None => findall_from n digits_re s
     end).
  rewrite match_here_digits, Ha. reflexivity.
Qed.

Lemma findall_digit (n : nat) (a : char) (s : text) :
  isdecimal a = true ->
  findall_from (S n) digits_re (a :: s)
  = (a :: take_while isdecimal s)
      :: findall_from n digits_re (drop_while isdecimal s).
Proof.
  intros Ha.
  change (findall_from (S n) digits_re (a :: s)) with
    (match match_here digits_re (a :: s) with
     | Some (rest, _) =>
         match firstn (length (a :: s) - length rest) (a :: s) with
         | [] => [] :: findall_from n digits_re s
         | w => w :: findall_from n digits_re rest
         end
     | None => findall_from n digits_re s
     end).
  rewrite match_here_digits, Ha. cbv beta iota.
  assert (E : firstn (length (a :: s) - length (drop_while isdecimal s))
                (a :: s) = a :: take_while isdecimal s).
  { pose proof (firstn_consumed (a :: take_while isdecimal s)
                  (drop_while isdecimal s)) as F.
    cbn [app] in F. rewrite take_drop_while in F. exact F. }
  rewrite E. reflexivity.
Qed.

Lemma findall_no_digit (n : nat) (s : text) :
  no_digit s -> findall_from n digits_re s = [].
Proof.
  revert s; induction n as [|n IH]; intros s Hs; [reflexivity|].
  destruct Hs as [|a s Ha Hs]; [apply findall_nil|].
  rewrite findall_nondigit by exact Ha. apply IH, Hs.
Qed.

Lemma take_while_run (p : char -> bool) (run post : text) :
  Forall (fun a => p a = true) run ->
  Forall (fun a => p a = false) post ->
  take_while p (run ++ post) = run /\ drop_while p (run ++ post) = post.
Proof.
  induction 1 as [|a run Ha Hrun IH]; intros Hpost; simpl.
  - destruct Hpost as [|b post Hb Hpost]; simpl; auto. rewrite Hb; auto.
  - rewrite Ha. destruct (IH Hpost) as [-> ->]; auto.
Qed.

Lemma ends_nondigit_tail (a : char) (pre : text) :
  ends_nondigit (a :: pre) -> ends_nondigit pre.
Proof.
  intros [H|(pre' & x & E & Hx)]; [discriminate|].
  destruct pre' as [|b pre']; simpl in E; injection E as -> ->.
  - left; reflexivity.
  - right; eauto.
Qed.

Lemma ends_nondigit_drop (pre rest : text) :
  pre <> [] -> ends_nondigit pre ->
  drop_while isdecimal (pre ++ rest) = drop_while isdecimal pre ++ rest
  /\ ends_nondigit (drop_while isdecimal pre).
Proof.
  induction pre as [|a pre IH]; intros Hne He; [contradiction|].
  simpl. destruct (isdecimal a) eqn:Ha.
  - destruct pre as [|b pre].
    + destruct He as [H|(pre' & x & E & Hx)]; [discriminate|].
      destruct pre' as [|? [|? ?]]; simpl in E; try discriminate.
      injection E as ->. congruence.
    + apply IH; [discriminate|]. eapply ends_nondigit_tail; eauto.
  - split; auto.
Qed.

(** The last item of [findall(r'\d+', s)] is the last maximal run of digits
    of [s]. *)
Lemma findall_last (run post : text) (n : nat) :
  forall pre,
    last_digit_run pre run post ->
    length (pre ++ run ++ post) < n ->
    exists l, findall_from n digits_re (pre ++ run ++ post) = l ++ [run].
Proof.
  induction n as [|n IH]; intros pre Hr Hn; [lia|].
  destruct Hr as (Hne & Hrun & Hpost & Hpre).
  destruct pre as [|a pre].
  - destruct run as [|d run]; [contradiction|].
    inversion Hrun as [|? ? Hd Hrun']; subst. simpl app.
    rewrite findall_digit by exact Hd.
    destruct (take_while_run isdecimal run post Hrun' Hpost) as [-> ->].
    rewrite findall_no_digit by exact Hpost. exists []. reflexivity.
  - simpl app in *. simpl in Hn. destruct (isdecimal a) eqn:Ha.
    + rewrite findall_digit by exact Ha.
      assert (Hpre' : pre <> []).
      { intros ->. destruct Hpre as [H|(pre' & x & E & Hx)]; [discriminate|].
        destruct pre' as [|? [|? ?]]; simpl in E; try discriminate.
        injection E as ->. congruence. }
      destruct (ends_nondigit_drop pre (run ++ post) Hpre'
                  (ends_nondigit_tail a pre Hpre)) as [-> He].
      destruct (IH (drop_while isdecimal pre)) as [l El].
      * repeat split; auto.
      * pose proof (drop_while_length isdecimal pre).
        rewrite !length_app in *. lia.
      * rewrite El. exists ((a :: take_while isdecimal (pre ++ run ++ post)) :: l).
        reflexivity.
    + rewrite findall_nondigit by exact Ha.
      apply IH; [|lia]. repeat split; auto.
      eapply ends_nondigit_tail; eauto.
Qed.

(** Every text either has no digit or has a last maximal run of digits. *)
Lemma digit_run_exists (t : text) :
  no_digit t
  \/ exists pre run post, t = pre ++ run ++ post /\ last_digit_run pre run post.
Proof.
  induction t as [|a t IH]; [left; constructor|].
  destruct IH as [Hnd|(pre & run & post & -> & Hne & Hrun & Hpost & Hpre)].
  - destruct (isdecimal a) eqn:Ha.
    + right. exists [], [a], t. split; [reflexivity|].
      split; [discriminate|]. split; [repeat constructor; exact Ha|].
      split; [exact Hnd|left; reflexivity].
    + left. constructor; auto.
  - right. destruct pre as [|b pre].
    + destruct (isdecimal a) eqn:Ha.
      * exists [], (a :: run), post. split; [reflexivity|].
        split; [discriminate|]. split; [constructor; auto|].
        split; [exact Hpost|left; reflexivity].
      * exists [a], run, post. split; [reflexivity|].
        split; [exact Hne|]. split; [exact Hrun|]. split; [exact Hpost|].
        right. exists [], a. auto.
    + exists (a :: b :: pre), run, post. split; [reflexivity|].
      split; [exact Hne|]. split; [exact Hrun|]. split; [exact Hpost|].
      right. destruct Hpre as [H|(pre' & x & E & Hx)]; [discriminate|].
      exists (a :: pre'), x. rewrite E. auto.
Qed.

End ReFacts.

(* ================================================================== *)
(** ** Facts about the digit normalizer and the extractor *)
(* ================================================================== *)

Module SorterFacts.
Import PyStrFacts ReFacts.

Lemma digit_not_sign (d : char) :
  isdecimal d = true ->
  (N.eqb d (ch "+") || N.eqb d (ch "-")) = false.
Proof.
  intros Hd. apply orb_false_iff. split.
  - destruct (N.eqb d (ch "+")) eqn:E; auto.
    apply N.eqb_eq in E; subst. discriminate.
  - destruct (N.eqb d (ch "-")) eqn:E; auto.
    apply N.eqb_eq in E; subst. discriminate.
Qed.

Lemma zfill_digits (run : text) :
  run <> [] -> all_digits run ->
  zfill 4 run = repeat (ch "0") (4 - length run) ++ run.
Proof.
  intros Hne Hd. destruct Hd as [|d run Hd Hrun]; [contradiction|].
  unfold zfill. rewrite (digit_not_sign d Hd). reflexivity.
Qed.

(** On a text with a last run of digits the code computes the normal form
    of that run. *)
Lemma extract_last_4_digits_run (pre run post : text) :
  last_digit_run pre run post ->
  extract_last_4_digits (pre ++ run ++ post) = normalize_run run.
Proof.
  intros Hr. unfold extract_last_4_digits, findall. cbv zeta.
  destruct (findall_last run post (S (length (pre ++ run ++ post))) pre Hr)
    as [l El]; [lia|].
  rewrite El. destruct Hr as (Hne & Hrun & _).
  destruct (l ++ [run]) as [|x l'] eqn:E; [destruct l; discriminate|].
  rewrite <- E, last_last. unfold normalize_run, suffix.
  destruct (length run =? 4) eqn:E4; auto.
  destruct (4 <? length run) eqn:Egt; auto.
  destruct (length run <? 4) eqn:Elt.
  - apply zfill_digits; auto.
  - apply Nat.eqb_neq in E4. apply Nat.ltb_ge in Egt, Elt. lia.
Qed.

Lemma extract_last_4_digits_none (t : text) :
  no_digit t -> extract_last_4_digits t = Unknown.
Proof.
  intros H. unfold extract_last_4_digits, findall.
  rewrite findall_no_digit by exact H. reflexivity.
Qed.

Lemma normalize_run_four (run : text) :
  all_digits run -> four_digits (normalize_run run).
Proof.
  intros Hd. unfold normalize_run, four_digits, all_digits in *.
  destruct (length run =? 4) eqn:E4.
  - apply Nat.eqb_eq in E4; auto.
  - destruct (4 <? length run) eqn:Egt.
    + apply Nat.ltb_lt in Egt. split.
      * rewrite length_skipn. lia.
      * rewrite <- (firstn_skipn (length run - 4) run) in Hd.
        apply Forall_app in Hd. apply Hd.
    + apply Nat.eqb_neq in E4. apply Nat.ltb_ge in Egt. split.
      * rewrite length_app, repeat_length. lia.
      * apply Forall_app. split; auto.
        apply Forall_forall. intros a Ha. apply repeat_spec in Ha.
        subst; reflexivity.
Qed.

(** The normalizer returns the sentinel or four digits. *)
Lemma extract_last_4_digits_shape (t : text) :
  extract_last_4_digits t = Unknown \/ four_digits (extract_last_4_digits t).
Proof.
  destruct (digit_run_exists t) as [H|(pre & run & post & -> & Hr)].
  - left. apply extract_last_4_digits_none, H.
  - right. rewrite (extract_last_4_digits_run _ _ _ Hr).
    apply normalize_run_four. apply Hr.
Qed.

Lemma four_digits_not_Unknown (k : text) : four_digits k -> k <> Unknown.
Proof. intros [Hl _] ->. discriminate. Qed.

(** A label that ends with a key is not the sentinel. *)
Lemma ends_with_key_not_Unknown (x k : text) :
  four_digits k -> x ++ k <> Unknown.
Proof.
  intros [Hl Hd] E. apply (f_equal (@rev char)) in E.
  rewrite rev_app_distr in E.
  destruct k as [|d1 [|d2 [|d3 [|d4 [|? ?]]]]]; try discriminate.
  simpl in E. injection E as E _. subst d4. unfold all_digits in Hd.
  repeat match goal with
         | H : Forall _ (_ :: _) |- _ => inversion H; subst; clear H
         end.
  discriminate.
Qed.

Lemma label_not_Unknown (x k : text) :
  four_digits k -> x ++ ch " " :: k <> Unknown.
Proof.
  intros Hk. change (x ++ ch " " :: k) with (x ++ [(ch " ")] ++ k).
  rewrite app_assoc. apply ends_with_key_not_Unknown, Hk.
Qed.

(** A label with a digit is not the sentinel. *)
Lemma normalized_name_not_Unknown (name : text) :
  text_eqb (extract_last_4_digits name) Unknown = false -> name <> Unknown.
Proof. intros H ->. discriminate. Qed.

Lemma normalized_key (name : text) :
  text_eqb (extract_last_4_digits name) Unknown = false ->
  four_digits (extract_last_4_digits name).
Proof.
  intros H. destruct (extract_last_4_digits_shape name) as [E|E]; auto.
  rewrite E in H. discriminate.
Qed.


(** *** The key groups of the patterns *)

Ltac solve_groups :=
  repeat match goal with
         | |- _ /\ _ => split
         | |- True => exact I
         | |- forall w, lang digit4 w -> key_group _ _ w =>
             intros w Hw _; apply lang_digit4; exact Hw
         | |- forall w, lang _ w -> key_group _ _ w =>
             intros w _ Hi; discriminate Hi
         end.

Lemma prev_line_re_key : captures_key 2 prev_line_re.
Proof. split; [simpl; solve_groups|reflexivity]. Qed.

Lemma vehicle_pattern_key : captures_key 2 vehicle_pattern.
Proof. split; [simpl; solve_groups|reflexivity]. Qed.

Lemma bottom_vin_patterns_key : Forall (captures_key 1) bottom_vin_patterns.
Proof.
  unfold bottom_vin_patterns.
  repeat (apply Forall_cons; [split; [simpl; solve_groups|reflexivity]|]).
  apply Forall_nil.
Qed.

(** The key group of a match of such a pattern holds four digits. *)
Lemma search_key (g : nat) (r : regex) (s : text) (m : Match) :
  captures_key (S g) r -> search r s = Some m -> four_digits (group m (S g)).
Proof.
  intros [Hg Hb] Hs.
  destruct (search_sound _ _ _ _ Hg Hs) as (pre & post & _ & _ & Hc & Hbound).
  apply (group_ok (key_group (S g)) m g Hc (Hbound _ Hb)). reflexivity.
Qed.

(** *** The strategies, one by one *)

Lemma ocr_format_found (lines : list text) (i : nat) (sl : text)
    (r : text * text) :
  ocr_format lines i sl = Some r -> found r.
Proof.
  unfold ocr_format.
  destruct (contains _ sl && contains _ sl); [|discriminate].
  destruct (0 <? i); [|discriminate].
  destruct (search prev_line_re _) as [m|] eqn:Es; [|discriminate].
  intros H; injection H as <-.
  pose proof (search_key 1 _ _ _ prev_line_re_key Es) as Hk.
  split; [exact Hk|]. apply label_not_Unknown, Hk.
Qed.

Lemma original_format_found (lines : list text) (i : nat) (sl : text)
    (r : text * text) :
  original_format lines i sl = Some r -> found r.
Proof.
  unfold original_format.
  destruct (text_eqb sl _); [|discriminate].
  destruct (0 <? i); [|discriminate]. cbv zeta.
  destruct (negb (text_eqb _ []) && _); [|discriminate].
  destruct (text_eqb (extract_last_4_digits _) Unknown) eqn:E;
    [discriminate|].
  intros H; injection H as <-. split; simpl.
  - apply normalized_key, E.
  - apply normalized_name_not_Unknown, E.
Qed.

Lemma scan_lines_found (lines rest : list text) :
  forall i r, scan_lines lines i rest = Some r -> found r.
Proof.
  induction rest as [|line rest IH]; simpl; intros i r H; [discriminate|].
  destruct (ocr_format lines i (strip line)) as [r1|] eqn:E1.
  - injection H as <-. eapply ocr_format_found; eauto.
  - destruct (original_format lines i (strip line)) as [r2|] eqn:E2.
    + injection H as <-. eapply original_format_found; eauto.
    + eapply IH; eauto.
Qed.

Lemma method2_found (t : text) (r : text * text) :
  method2 t = Some r -> found r.
Proof.
  unfold method2.
  destruct (search vehicle_pattern t) as [m|] eqn:Es; [|discriminate].
  intros H; injection H as <-.
  pose proof (search_key 1 _ _ _ vehicle_pattern_key Es) as Hk.
  split; [exact Hk|]. apply label_not_Unknown, Hk.
Qed.

Lemma method3_found (patterns : list regex) (t : text) (r : text * text) :
  method3 patterns t = Some r -> found r.
Proof.
  induction patterns as [|pattern patterns IH]; simpl; [discriminate|].
  destruct (search pattern t) as [m|]; auto.
  destruct (text_eqb (extract_last_4_digits _) Unknown) eqn:E; simpl; auto.
  intros H; injection H as <-. split; simpl.
  - apply normalized_key, E.
  - apply normalized_name_not_Unknown, E.
Qed.

Lemma method4_found (patterns : list regex) (t : text) (r : text * text) :
  Forall (captures_key 1) patterns ->
  method4 patterns t = Some r -> found r.
Proof.
  induction 1 as [|pattern patterns Hp Hps IH]; simpl; [discriminate|].
  destruct (search pattern t) as [m|] eqn:Es; auto.
  intros H; injection H as <-.
  pose proof (search_key 0 _ _ _ Hp Es) as Hk.
  split; simpl; auto. discriminate.
Qed.

(** Every result of the extractor is a found result or the fallback. *)
Lemma extract_vehicle_vin_cases (t : text) :
  found (extract_vehicle_vin t)
  \/ extract_vehicle_vin t = (Unknown, Unknown).
Proof.
  unfold extract_vehicle_vin. cbv zeta.
  destruct (scan_lines _ 0 _) as [r|] eqn:E1;
    [left; eapply scan_lines_found; eauto|].
  destruct (method2 t) as [r|] eqn:E2;
    [left; eapply method2_found; eauto|].
  destruct (method3 vehicle_patterns t) as [r|] eqn:E3;
    [left; eapply method3_found; eauto|].
  destruct (method4 bottom_vin_patterns t) as [r|] eqn:E4;
    [left; eapply method4_found; eauto using bottom_vin_patterns_key|].
  right; reflexivity.
Qed.


(** *** The loop over the lines *)

Lemma skipn_cons_nth (A : Type) (d : A) (l : list A) :
  forall i x r, skipn i l = x :: r -> nth i l d = x /\ skipn (S i) l = r.
Proof.
  induction l as [|y l IH]; intros [|i] x r H; simpl in H; try discriminate.
  - injection H as -> ->. auto.
  - apply IH, H.
Qed.

(** The loop returns what it finds at the first line where one of the two
    formats gives a result. *)
Lemma scan_lines_first (lines : list text) (j : nat) (r : text * text) :
  at_line lines j = Some r ->
  j < length lines ->
  forall rest i,
    skipn i lines = rest -> i <= j ->
    (forall j', i <= j' < j -> at_line lines j' = None) ->
    scan_lines lines i rest = Some r.
Proof.
  intros Hj Hlen. induction rest as [|line rest IH]; intros i Hs Hi Hnone.
  - pose proof (length_skipn i lines) as Hl. rewrite Hs in Hl.
    simpl in Hl. lia.
  - destruct (skipn_cons_nth text [] lines i line rest Hs) as [Hline Hrest].
    simpl. destruct (Nat.eq_dec i j) as [->|Hne].
    + unfold at_line in Hj. rewrite Hline in Hj.
      destruct (ocr_format lines j (strip line)); auto.
      rewrite Hj. reflexivity.
    + assert (Hn : at_line lines i = None) by (apply Hnone; lia).
      unfold at_line in Hn. rewrite Hline in Hn.
      destruct (ocr_format lines i (strip line)); [discriminate|].
      rewrite Hn. apply IH; auto; [lia|].
      intros j' Hj'. apply Hnone. lia.
Qed.

(** A line cannot be in both formats. *)
Lemma formats_exclusive (lines : list text) (i : nat) (sl : text)
    (r : text * text) :
  original_format lines i sl = Some r -> ocr_format lines i sl = None.
Proof.
  unfold original_format, ocr_format.
  destruct (text_eqb sl (str "Vehicle")) eqn:E; [|discriminate].
  apply text_eqb_eq in E. subst sl. reflexivity.
Qed.

(** *** The garbling detector *)

Lemma garbled_here (s : text) :
  match_here garbled_re s =
  match s with
  | a :: s' =>
      if N.eqb a (ch "/") then
        match match_here digits_re s' with
        | Some x => Some x
        | None =>
            match s' with
            | b :: s'' =>
                if N.eqb b (ch "i") then match_here digits_re s''
                else None
            | [] => None
            end
        end
      else None
  | [] => None
  end.
Proof.
  destruct s as [|a s]; [reflexivity|].
  unfold match_here, garbled_re, digits_re, seqs, plus, chr.
  cbn [matchk]. destruct (N.eqb a (ch "/")); [|reflexivity].
  destruct s as [|b s]; reflexivity.
Qed.

Lemma garbled_here_iff (s : text) :
  match_here garbled_re s <> None <-> glyph_code_at s.
Proof.
  assert (Hno : forall u : text,
             (forall d rest, isdecimal d = true ->
                u <> ch "/" :: d :: rest
                /\ u <> ch "/" :: ch "i" :: d :: rest) ->
             (@None (text * caps) <> None <-> glyph_code_at u)).
  { intros u Hu. split; [congruence|].
    intros (d & rest & Hd & [E|E]); destruct (Hu d rest Hd); contradiction. }
  rewrite garbled_here.
  destruct s as [|a s].
  { apply Hno. intros d rest Hd. split; discriminate. }
  destruct (N.eqb a (ch "/")) eqn:Ea.
  2:{ apply Hno. apply N.eqb_neq in Ea.
      intros d rest Hd. split; congruence. }
  apply N.eqb_eq in Ea. subst a. rewrite match_here_digits.
  destruct s as [|b s].
  { apply Hno. intros d rest Hd. split; discriminate. }
  destruct (isdecimal b) eqn:Hb.
  { split; [|congruence]. intros _. exists b, s. auto. }
  destruct (N.eqb b (ch "i")) eqn:Eb.
  2:{ apply Hno. apply N.eqb_neq in Eb.
      intros d rest Hd. split; congruence. }
  apply N.eqb_eq in Eb. subst b. rewrite match_here_digits.
  destruct s as [|d s].
  { apply Hno. intros d rest Hd. split; [|discriminate].
    intros E. injection E as <- _. discriminate. }
  destruct (isdecimal d) eqn:Hd.
  - split; [|congruence]. intros _. exists d, s. auto.
  - apply Hno. intros d' rest Hd'. split.
    + intros E. injection E as <- _. discriminate.
    + congruence.
Qed.

Lemma search_garbled (t : text) :
  search garbled_re t <> None <-> has_glyph_code t.
Proof.
  unfold has_glyph_code. split.
  - intros H. destruct (search_found _ _ H) as (pre & suf & -> & Hs).
    exists pre, suf. split; auto. apply garbled_here_iff, Hs.
  - intros (pre & s & -> & Hs). apply search_at, garbled_here_iff, Hs.
Qed.

Lemma Qltb_lt (x y : Q) : Qltb x y = true <-> (x < y)%Q.
Proof.
  unfold Qltb. rewrite Qlt_alt.
  destruct (x ?= y)%Q; split; congruence.
Qed.

End SorterFacts.

(* ================================================================== *)
(** ** Facts about whole runs *)
(* ================================================================== *)

Module RunFacts.
Import PyStrFacts SortedFacts DictFacts LoopFacts ReFacts SorterFacts.

(** The buckets of a run that reaches the writer. *)
Lemma run_buckets (OCR_AVAILABLE use_ocr : bool) (pages : list page)
    (order : list nat) :
  result (sort_pdf_by_vehicle OCR_AVAILABLE use_ocr pages) = Written order ->
  exists made0 needs_ocr,
    check_first_page OCR_AVAILABLE use_ocr pages = (made0, Some needs_ocr)
    /\ buckets (sort_pdf_by_vehicle OCR_AVAILABLE use_ocr pages)
       = vin_pages (extract_loop OCR_AVAILABLE needs_ocr 0 pages
                      (mkState [] made0))
    /\ order = write_pages
                 (buckets (sort_pdf_by_vehicle OCR_AVAILABLE use_ocr pages)).
Proof.
  unfold sort_pdf_by_vehicle.
  destruct (check_first_page OCR_AVAILABLE use_ocr pages)
    as [made0 [needs_ocr|]]; simpl; intros H; [|discriminate].
  injection H as <-. exists made0, needs_ocr. auto.
Qed.

Lemma loop_buckets_perm (OCR_AVAILABLE needs_ocr : bool) (pages : list page)
    (made0 : list call) :
  let d := vin_pages (extract_loop OCR_AVAILABLE needs_ocr 0 pages
                        (mkState [] made0)) in
  NoDup (keys d)
  /\ Permutation (map fst (concat (map snd d))) (seq 0 (length pages)).
Proof.
  split.
  - apply loop_nodup_keys. constructor.
  - apply (loop_page_numbers OCR_AVAILABLE needs_ocr pages 0 (mkState [] made0)).
Qed.

(** The writer receives every page of the document once. *)
Lemma written_perm (OCR_AVAILABLE use_ocr : bool) (pages : list page)
    (order : list nat) :
  result (sort_pdf_by_vehicle OCR_AVAILABLE use_ocr pages) = Written order ->
  Permutation order (seq 0 (length pages)).
Proof.
  intros H.
  destruct (run_buckets _ _ _ _ H) as (made0 & needs_ocr & _ & Eb & ->).
  rewrite Eb.
  destruct (loop_buckets_perm OCR_AVAILABLE needs_ocr pages made0) as [Hnd Hp].
  rewrite (write_pages_perm _ Hnd). exact Hp.
Qed.

(** The groups of any bucket structure are in ascending page order, and
    strictly so when no page number is repeated in a bucket. *)
Lemma plan_ascending (d : vin_dict) :
  (forall k, NoDup (map fst (getitem d k))) ->
  Forall (fun g => StronglySorted lt (snd g)) (plan d).
Proof.
  intros Hnd. unfold plan. apply Forall_forall. intros g Hg.
  apply in_map_iff in Hg. destruct Hg as (k & <- & _). simpl.
  unfold group_pages. apply sorted_le_nodup_lt.
  - apply nat_sorted_le.
  - eapply Permutation_NoDup; [|apply (Hnd k)].
    apply Permutation_map. symmetry. apply sorted_perm.
Qed.

Lemma write_pages_plan (d : vin_dict) : write_pages d = flat_map snd (plan d).
Proof.
  unfold write_pages, plan. induction (sorted_vins d) as [|k ks IH]; simpl; auto.
  rewrite IH. reflexivity.
Qed.

(** *** Runs in which every page is read as the empty text *)

Lemma sorted_id (A K : Type) (ltb : K -> K -> bool) (key : A -> K)
    (l : list A) :
  StronglySorted (ordered ltb key) l -> sorted ltb key l = l.
Proof.
  induction 1 as [|x l Hs IH Hall]; [reflexivity|].
  unfold sorted in *. simpl. rewrite IH.
  destruct l as [|y l]; [reflexivity|]. simpl.
  inversion Hall as [|? ? Hy _]; subst. unfold ordered in Hy.
  rewrite Hy. reflexivity.
Qed.

Lemma numbered_sorted (name : text) (len : nat) :
  forall n,
    StronglySorted (ordered Nat.ltb (@fst nat text))
      (map (fun i => (i, name)) (seq n len)).
Proof.
  induction len as [|len IH]; intros n; simpl; constructor; auto.
  apply Forall_forall. intros y Hy. apply in_map_iff in Hy.
  destruct Hy as (i & <- & Hi). apply in_seq in Hi.
  unfold ordered; simpl. apply Nat.ltb_ge. lia.
Qed.

Lemma loop_all_Unknown (OCR_AVAILABLE needs_ocr : bool) (pages : list page) :
  (forall p, In p pages ->
             record_of OCR_AVAILABLE needs_ocr p = (Unknown, Unknown)) ->
  forall n st l,
    vin_pages st = [(Unknown, l)] ->
    vin_pages (extract_loop OCR_AVAILABLE needs_ocr n pages st)
    = [(Unknown, l ++ map (fun i => (i, Unknown)) (seq n (length pages)))].
Proof.
  induction pages as [|p pages IH]; intros Hall n st l Hst; simpl.
  - rewrite app_nil_r. exact Hst.
  - rewrite (IH (fun q Hq => Hall q (or_intror Hq)) (S n) _ (l ++ [(n, Unknown)])).
    + rewrite <- app_assoc. reflexivity.
    + rewrite extract_page_buckets, (Hall p (or_introl eq_refl)), Hst.
      reflexivity.
Qed.

Lemma write_one_bucket (k : text) (l : list (nat * text)) :
  write_pages [(k, l)] = map fst (sorted Nat.ltb fst l).
Proof.
  unfold write_pages, sorted_vins, keys, group_pages. simpl.
  rewrite text_eqb_refl. apply app_nil_r.
Qed.

Lemma write_all_Unknown (OCR_AVAILABLE needs_ocr : bool) (pages : list page)
    (made0 : list call) :
  (forall p, In p pages ->
             record_of OCR_AVAILABLE needs_ocr p = (Unknown, Unknown)) ->
  write_pages (vin_pages (extract_loop OCR_AVAILABLE needs_ocr 0 pages
                            (mkState [] made0)))
  = seq 0 (length pages).
Proof.
  intros Hall. destruct pages as [|p pages]; [reflexivity|].
  simpl extract_loop.
  rewrite (loop_all_Unknown OCR_AVAILABLE needs_ocr pages
             (fun q Hq => Hall q (or_intror Hq)) 1 _ [(0, Unknown)]).
  - change ([(0, Unknown)] ++ map (fun i => (i, Unknown)) (seq 1 (length pages)))
      with (map (fun i => (i, Unknown)) (seq 0 (length (p :: pages)))).
    rewrite write_one_bucket.
    rewrite sorted_id by apply numbered_sorted.
    rewrite map_map. simpl. rewrite map_id. reflexivity.
  - rewrite extract_page_buckets, (Hall p (or_introl eq_refl)). reflexivity.
Qed.

(** Beyond the last line there is nothing to find. *)
Lemma at_line_in_range (lines : list text) (j : nat) (r : text * text) :
  at_line lines j = Some r -> j < length lines.
Proof.
  intros H. destruct (Nat.lt_ge_cases j (length lines)) as [|Hge]; auto.
  unfold at_line in H. rewrite (nth_overflow lines [] Hge) in H.
  discriminate.
Qed.

(** *** Pages whose extraction fails *)

(** In OCR mode [extract_text_with_ocr] turns a failure of the OCR chain
    into the empty text, on which no strategy finds a key; in native mode
    the handler of the loop records the page itself. *)
Lemma failed_record (OCR_AVAILABLE needs_ocr : bool) (p : page) :
  extraction_fails needs_ocr p ->
  record_of OCR_AVAILABLE needs_ocr p = (Unknown, Unknown).
Proof.
  unfold extraction_fails, record_of, read_page, extract_text_with_ocr.
  destruct needs_ocr; intros H; cbn [snd]; rewrite H.
  - destruct OCR_AVAILABLE; reflexivity.
  - reflexivity.
Qed.

(** *** Keys compare as numbers *)

(** The value of one of the digits "0" to "9". *)
Lemma ascii_digit_value (c : char) :
  ascii_digit c -> digit_value c = N.to_nat (ord c - 48).
Proof.
  unfold ascii_digit, digit_value, decimal_ranges. intros H. cbn [digit_in].
  replace ((48 <=? ord c)%N && (ord c <=? 57)%N) with true
    by (symmetry; apply andb_true_iff; rewrite !N.leb_le; lia).
  rewrite N.mod_small by lia. reflexivity.
Qed.

(** Keys of four digits "0" to "9" compare as strings the way their values
    compare as numbers. *)
Lemma key_order_numeric (k1 k2 : text) :
  length k1 = 4 -> length k2 = 4 -> ascii_digits k1 -> ascii_digits k2 ->
  (str_ltb k1 k2 = true <-> int_of k1 < int_of k2).
Proof.
  intros L1 L2 D1 D2.
  destruct k1 as [|a1 [|a2 [|a3 [|a4 [|? ?]]]]]; try discriminate.
  destruct k2 as [|b1 [|b2 [|b3 [|b4 [|? ?]]]]]; try discriminate.
  unfold ascii_digits in *.
  repeat match goal with
         | H : Forall _ (_ :: _) |- _ => inversion H; subst; clear H
         end.
  unfold int_of; simpl.
  repeat match goal with
         | H : ascii_digit ?c |- _ =>
             rewrite (ascii_digit_value c H); unfold ascii_digit in H
         end.
  repeat match goal with
         | |- context [(?x <? ?y)%N] => destruct (N.ltb_spec x y)
         end; split; intros; try discriminate; try reflexivity; lia.
Qed.

End RunFacts.

(* ================================================================== *)
(** ** The properties of the specification *)
(* ================================================================== *)

Import PyStrFacts SortedFacts DictFacts LoopFacts ReFacts SorterFacts RunFacts.

(** C1. Total coverage: when [sort_pdf_by_vehicle] hands a page order to the
    writer for a document of N pages, that order is a permutation of the
    source indices 0..N-1: it has exactly N entries and every index below N
    occurs in it exactly once. *)
Theorem C1_total_coverage (OCR_AVAILABLE use_ocr : bool) (pages : list page)
    (order : list nat) :
  result (sort_pdf_by_vehicle OCR_AVAILABLE use_ocr pages) = Written order ->
  Permutation order (seq 0 (length pages))
  /\ length order = length pages
  /\ (forall i, i < length pages -> count_occ Nat.eq_dec order i = 1)
  /\ (forall i, In i order -> i < length pages).
Proof.
  intros H. pose proof (written_perm _ _ _ _ H) as Hp.
  split; [exact Hp|]. split; [|split].
  - rewrite (Permutation_length Hp). apply length_seq.
  - intros i Hi.
    rewrite (proj1 (Permutation_count_occ Nat.eq_dec _ _) Hp i).
    apply (proj1 (NoDup_count_occ' Nat.eq_dec _) (seq_NoDup _ _)).
    apply in_seq. lia.
  - intros i Hi. apply (Permutation_in _ Hp), in_seq in Hi. lia.
Qed.

Lemma C1_total_coverage_witness :
  Permutation [2; 0; 1] (seq 0 (length three_pages))
  /\ length [2; 0; 1] = length three_pages
  /\ (forall i, i < length three_pages ->
                count_occ Nat.eq_dec [2; 0; 1] i = 1)
  /\ (forall i, In i [2; 0; 1] -> i < length three_pages).
Proof.
  apply (C1_total_coverage false false three_pages [2; 0; 1]).
  vm_compute. reflexivity.
Defined.

(** C2. Group ordering: in the page order handed to the writer, if page [p]
    is in the group of key [A] and page [q] in the group of key [B], where
    [A] is not "Unknown", then [p] is written before [q] whenever [B] is
    not "Unknown" and [A < B] as strings, and also whenever [B] is
    "Unknown": the groups follow the keys in ascending lexicographic order
    and the "Unknown" group comes after every other group. *)
Theorem C2_group_ordering (OCR_AVAILABLE use_ocr : bool) (pages : list page)
    (order : list nat) (A B la lb : text) (p q : nat) :
  result (sort_pdf_by_vehicle OCR_AVAILABLE use_ocr pages) = Written order ->
  In (p, la)
     (getitem (buckets (sort_pdf_by_vehicle OCR_AVAILABLE use_ocr pages)) A) ->
  In (q, lb)
     (getitem (buckets (sort_pdf_by_vehicle OCR_AVAILABLE use_ocr pages)) B) ->
  A <> Unknown ->
  (B <> Unknown /\ str_ltb A B = true) \/ B = Unknown ->
  before p q order.
Proof.
  intros H Hp Hq HA HB.
  destruct (run_buckets _ _ _ _ H) as (made0 & needs_ocr & _ & _ & ->).
  apply (groups_in_order _ A B).
  - eapply getitem_in_keys; eauto.
  - eapply getitem_in_keys; eauto.
  - unfold sort_key. apply text_eqb_neq in HA. rewrite HA.
    destruct HB as [[HB Hlt]| ->].
    + apply text_eqb_neq in HB. rewrite HB. unfold pair_ltb. simpl.
      exact Hlt.
    + reflexivity.
  - eapply in_group_pages; eauto.
  - eapply in_group_pages; eauto.
Qed.

Lemma C2_group_ordering_witness : before 2 0 [2; 0; 1].
Proof.
  apply (C2_group_ordering false false three_pages [2; 0; 1]
           (str "0007") (str "0042") (str "Bus 7") (str "Bus 42") 2 0).
  - vm_compute. reflexivity.
  - vm_compute. left. reflexivity.
  - vm_compute. left. reflexivity.
  - discriminate.
  - left. split; [discriminate|reflexivity].
Defined.

(** C3. Intra-group order: the page order handed to the writer is the
    concatenation of the groups of the plan, and within every group the
    source indices are strictly ascending.  This does not depend on how the
    buckets were filled: for any bucket structure whose buckets do not
    repeat a page number, in whatever order the entries were appended, the
    pages of every group come out strictly ascending. *)
Theorem C3_intra_group_order (OCR_AVAILABLE use_ocr : bool) (pages : list page)
    (order : list nat) :
  result (sort_pdf_by_vehicle OCR_AVAILABLE use_ocr pages) = Written order ->
  order = flat_map snd
            (plan (buckets (sort_pdf_by_vehicle OCR_AVAILABLE use_ocr pages)))
  /\ Forall (fun g => StronglySorted lt (snd g))
            (plan (buckets (sort_pdf_by_vehicle OCR_AVAILABLE use_ocr pages)))
  /\ (forall d : vin_dict,
        (forall k, NoDup (map fst (getitem d k))) ->
        Forall (fun g => StronglySorted lt (snd g)) (plan d)).
Proof.
  intros H.
  destruct (run_buckets _ _ _ _ H) as (made0 & needs_ocr & _ & Eb & ->).
  split; [apply write_pages_plan|]. split; [|exact plan_ascending].
  apply plan_ascending. intros k. rewrite Eb.
  apply getitem_nodup.
  destruct (loop_buckets_perm OCR_AVAILABLE needs_ocr pages made0) as [_ Hp].
  eapply Permutation_NoDup; [symmetry; exact Hp|apply seq_NoDup].
Qed.

Lemma C3_intra_group_order_witness :
  [2; 0; 1] = flat_map snd
                (plan (buckets (sort_pdf_by_vehicle false false three_pages)))
  /\ Forall (fun g => StronglySorted lt (snd g))
            (plan (buckets (sort_pdf_by_vehicle false false three_pages)))
  /\ (forall d : vin_dict,
        (forall k, NoDup (map fst (getitem d k))) ->
        Forall (fun g => StronglySorted lt (snd g)) (plan d)).
Proof.
  apply (C3_intra_group_order false false three_pages [2; 0; 1]).
  vm_compute. reflexivity.
Defined.

(** C4. Digit normalizer: a text without a digit gives "Unknown"; a text
    whose last maximal run of digits is [run] gives [run] itself when it has
    exactly four characters, its last four characters when it is longer,
    and [run] padded on the left with "0" to four characters when it is
    shorter; every text is in one of the two cases.  In particular "5875"
    gives "5875", "123456" gives "3456", "42" gives "0042" and
    "no digits here" gives "Unknown". *)
Theorem C4_normalizer (t : text) :
  (no_digit t -> extract_last_4_digits t = Unknown)
  /\ (forall pre run post,
        t = pre ++ run ++ post -> last_digit_run pre run post ->
        extract_last_4_digits t = normalize_run run)
  /\ (no_digit t
      \/ exists pre run post,
           t = pre ++ run ++ post /\ last_digit_run pre run post)
  /\ extract_last_4_digits (str "5875") = str "5875"
  /\ extract_last_4_digits (str "123456") = str "3456"
  /\ extract_last_4_digits (str "42") = str "0042"
  /\ extract_last_4_digits (str "no digits here") = str "Unknown".
Proof.
  split; [apply extract_last_4_digits_none|].
  split; [intros pre run post -> Hr; apply extract_last_4_digits_run, Hr|].
  split; [apply digit_run_exists|].
  repeat split; reflexivity.
Qed.

Lemma C4_normalizer_witness :
  extract_last_4_digits (str "Bus 42 b") = normalize_run (str "42")
  /\ extract_last_4_digits (str "no digits here") = Unknown.
Proof.
  split.
  - apply (proj1 (proj2 (C4_normalizer (str "Bus 42 b")))
             (str "Bus ") (str "42") (str " b")); [reflexivity|].
    split; [discriminate|]. split; [repeat constructor|].
    split; [repeat constructor|].
    right. exists (str "Bus"), (ch " "). split; reflexivity.
  - apply (proj1 (C4_normalizer (str "no digits here"))).
    repeat constructor.
Defined.

(** C5, as stated, fails: strategy 1 alone finds a result in
    [receipt_both], and the extractor returns another one, that of the line
    "Vehicle" which comes first in the text. *)
Lemma C5_counterexample :
  ~ (forall t r, strategy1 t = Some r -> extract_vehicle_vin t = r).
Proof.
  intros H.
  specialize (H receipt_both (str "5875", str "Apollo 5875") eq_refl).
  vm_compute in H. discriminate H.
Qed.

(** C5, amended. Strategies 1 and 2 share one pass over the lines: at each
    line the OCR format (strategy 1) is tried before the original format
    (strategy 2), and the first line, from the top, where one of them gives
    a result decides.  So a match of strategy 1 at line [j] is returned
    whenever neither strategy gives a result at an earlier line, whatever
    strategy 2 finds further down and whatever strategies 3 to 5 find; a
    match of strategy 2 at line [j] is returned under the same condition.
    Strategies 3, 4 and 5 are consulted, in this order, only when the pass
    over the lines finds nothing. *)
Theorem C5_first_line_wins (t : text) (j : nat) (r : text * text) :
  (forall j', j' < j -> at_line (split (ch "010") t) j' = None) ->
  ocr_format (split (ch "010") t) j
             (strip (nth j (split (ch "010") t) [])) = Some r
  \/ original_format (split (ch "010") t) j
                     (strip (nth j (split (ch "010") t) [])) = Some r ->
  extract_vehicle_vin t = r
  /\ (forall t',
        scan_lines (split (ch "010") t') 0 (split (ch "010") t') = None ->
        extract_vehicle_vin t'
        = match method2 t' with
          | Some r2 => r2
          | None =>
              match method3 vehicle_patterns t' with
              | Some r3 => r3
              | None =>
                  match method4 bottom_vin_patterns t' with
                  | Some r4 => r4
                  | None => (Unknown, Unknown)
                  end
              end
          end).
Proof.
  intros Hnone Hj. split.
  - assert (Hat : at_line (split (ch "010") t) j = Some r).
    { unfold at_line. destruct Hj as [Hj|Hj].
      - rewrite Hj. reflexivity.
      - rewrite (formats_exclusive _ _ _ _ Hj). exact Hj. }
    unfold extract_vehicle_vin. cbv zeta.
    rewrite (scan_lines_first _ j r Hat (at_line_in_range _ _ _ Hat)
               (split (ch "010") t) 0 eq_refl (Nat.le_0_l j)).
    + reflexivity.
    + intros j' Hj'. apply Hnone. lia.
  - intros t' Hs. unfold extract_vehicle_vin. cbv zeta. rewrite Hs.
    reflexivity.
Qed.

Lemma C5_first_line_wins_witness :
  extract_vehicle_vin receipt_ocr = (str "5875", str "Apollo 5875").
Proof.
  refine (proj1 (C5_first_line_wins receipt_ocr 1
                   (str "5875", str "Apollo 5875") _ _)).
  - intros j' Hj'. assert (E : j' = 0) by lia. subst j'.
    vm_compute. reflexivity.
  - left. vm_compute. reflexivity.
Defined.

(** C6. Without the OCR capability the run ends in [sys.exit(1)] exactly
    when the caller did not force OCR and the native text of the first page
    was read and is garbled; it then has made no call but the reading of
    that text, and has filled no bucket.  When the caller forces OCR, or
    when the first page cannot be read natively, OCR is required as well,
    yet the run does not abort: every page is read as the empty text,
    recorded under "Unknown", and the document is written in its original
    order.  [one_page] with [use_ocr] set and [unreadable_first] are such
    inputs. *)
Theorem C6_abort_only_when_detected (use_ocr : bool) (pages : list page) :
  (result (sort_pdf_by_vehicle false use_ocr pages) = Exit 1
   <-> use_ocr = false
       /\ exists first rest first_page_text,
            pages = first :: rest
            /\ native_text first = Some first_page_text
            /\ is_text_garbled first_page_text = true)
  /\ (result (sort_pdf_by_vehicle false use_ocr pages) = Exit 1 ->
      made (sort_pdf_by_vehicle false use_ocr pages) = [ExtractText 0]
      /\ buckets (sort_pdf_by_vehicle false use_ocr pages) = [])
  /\ (ocr_required use_ocr pages = true ->
      result (sort_pdf_by_vehicle false use_ocr pages) <> Exit 1 ->
      result (sort_pdf_by_vehicle false use_ocr pages)
      = Written (seq 0 (length pages)))
  /\ ocr_required true one_page = true
  /\ result (sort_pdf_by_vehicle false true one_page) = Written [0]
  /\ ocr_required false unreadable_first = true
  /\ result (sort_pdf_by_vehicle false false unreadable_first)
     = Written [0; 1].
Proof.
  assert (Hempty : forall ps made0,
            write_pages (vin_pages (extract_loop false true 0 ps
                                      (mkState [] made0)))
            = seq 0 (length ps)).
  { intros ps made0. apply write_all_Unknown. intros p _. reflexivity. }
  split; [|split; [|split]].
  - unfold sort_pdf_by_vehicle, check_first_page.
    destruct use_ocr; simpl.
    { split; [discriminate|]. intros [E _]; discriminate. }
    destruct pages as [|first rest]; simpl.
    { split; [discriminate|]. intros [_ (f & r & t & E & _)]; discriminate. }
    destruct (native_text first) as [t|] eqn:En; simpl.
    + destruct (is_text_garbled t) eqn:Eg; simpl.
      * split; auto. intros _. split; auto. exists first, rest, t. auto.
      * split; [discriminate|].
        intros [_ (f & r & t' & E & En' & Eg')]. injection E as <- <-.
        rewrite En in En'. injection En' as <-. congruence.
    + split; [discriminate|].
      intros [_ (f & r & t' & E & En' & _)]. injection E as <- <-.
      congruence.
  - unfold sort_pdf_by_vehicle, check_first_page.
    destruct use_ocr; simpl; [discriminate|].
    destruct pages as [|first rest]; simpl; [discriminate|].
    destruct (native_text first) as [t|]; simpl; [|discriminate].
    destruct (is_text_garbled t); simpl; [auto|discriminate].
  - unfold ocr_required, sort_pdf_by_vehicle, check_first_page.
    destruct use_ocr.
    { intros _ _. cbv beta iota. cbn [result]. rewrite Hempty. reflexivity. }
    destruct pages as [|first rest]; [discriminate|].
    destruct (native_text first) as [t|].
    + cbn [orb]. intros ->. cbn [negb result].
      intros H; contradiction H; reflexivity.
    + intros _ _. cbv beta iota. cbn [result]. rewrite Hempty. reflexivity.
  - repeat split; vm_compute; reflexivity.
Qed.

Lemma C6_abort_only_when_detected_witness :
  made (sort_pdf_by_vehicle false false garbled_first) = [ExtractText 0]
  /\ buckets (sort_pdf_by_vehicle false false garbled_first) = [].
Proof.
  apply (proj1 (proj2 (C6_abort_only_when_detected false garbled_first))).
  vm_compute. reflexivity.
Defined.

(** C7. A page whose extraction fails is recorded under key "Unknown" with
    label "Unknown" and the loop goes on: whenever the check of the first
    page does not end the run, the writer receives an order with every page
    of the document, each page whose text could not be extracted, be it
    that the reader raised on it or that the OCR chain failed on it, is in
    the "Unknown" bucket under its own number, and every page, whatever
    happened on the others, is in the bucket of the key found in its own
    text, under the label found there.  For [three_pages], whose
    pages give "0042", an extraction that raises, and "0007", the order is
    page 2, page 0, page 1; it is the same for [three_scans], read by OCR,
    where the OCR chain fails on page 1. *)
Theorem C7_page_failure_is_local (OCR_AVAILABLE use_ocr needs_ocr : bool)
    (pages : list page) (made0 : list call) :
  check_first_page OCR_AVAILABLE use_ocr pages = (made0, Some needs_ocr) ->
  (exists order,
     result (sort_pdf_by_vehicle OCR_AVAILABLE use_ocr pages) = Written order
     /\ Permutation order (seq 0 (length pages)))
  /\ (forall i p,
        nth_error pages i = Some p ->
        extraction_fails needs_ocr p ->
        In (i, Unknown)
           (getitem (buckets (sort_pdf_by_vehicle OCR_AVAILABLE use_ocr pages))
                    Unknown))
  /\ (forall i p,
        nth_error pages i = Some p ->
        In (i, snd (record_of OCR_AVAILABLE needs_ocr p))
           (getitem (buckets (sort_pdf_by_vehicle OCR_AVAILABLE use_ocr pages))
                    (fst (record_of OCR_AVAILABLE needs_ocr p))))
  /\ map (fun b => (fst b, map fst (snd b)))
         (buckets (sort_pdf_by_vehicle false false three_pages))
     = [(str "0042", [0]); (str "Unknown", [1]); (str "0007", [2])]
  /\ result (sort_pdf_by_vehicle false false three_pages) = Written [2; 0; 1]
  /\ map (fun b => (fst b, map fst (snd b)))
         (buckets (sort_pdf_by_vehicle true true three_scans))
     = [(str "0042", [0]); (str "Unknown", [1]); (str "0007", [2])]
  /\ result (sort_pdf_by_vehicle true true three_scans) = Written [2; 0; 1].
Proof.
  intros Hc.
  assert (Hr : result (sort_pdf_by_vehicle OCR_AVAILABLE use_ocr pages)
               = Written (write_pages
                    (vin_pages (extract_loop OCR_AVAILABLE needs_ocr 0 pages
                                  (mkState [] made0))))).
  { unfold sort_pdf_by_vehicle. rewrite Hc. reflexivity. }
  assert (Hrec : forall i p,
            nth_error pages i = Some p ->
            In (i, snd (record_of OCR_AVAILABLE needs_ocr p))
               (getitem (buckets (sort_pdf_by_vehicle OCR_AVAILABLE use_ocr
                                    pages))
                        (fst (record_of OCR_AVAILABLE needs_ocr p)))).
  { intros i p Hi. unfold sort_pdf_by_vehicle. rewrite Hc.
    exact (loop_records OCR_AVAILABLE needs_ocr pages 0
             (mkState [] made0) i p Hi). }
  split; [|split; [|split; [exact Hrec|repeat split; vm_compute; reflexivity]]].
  - eexists. split; [exact Hr|]. apply (written_perm _ _ _ _ Hr).
  - intros i p Hi Hfail. specialize (Hrec i p Hi).
    rewrite (failed_record OCR_AVAILABLE needs_ocr p Hfail) in Hrec.
    exact Hrec.
Qed.

Lemma C7_page_failure_is_local_witness :
  In (1, Unknown)
     (getitem (buckets (sort_pdf_by_vehicle false false three_pages)) Unknown)
  /\ In (1, Unknown)
        (getitem (buckets (sort_pdf_by_vehicle true true three_scans)) Unknown).
Proof.
  split.
  - refine (proj1 (proj2 (C7_page_failure_is_local false false false
                            three_pages [ExtractText 0] _)) 1 broken_page _ _);
      reflexivity.
  - refine (proj1 (proj2 (C7_page_failure_is_local true true true
                            three_scans [] _))
                  1 (mkPage (Some (str "")) None) _ _);
      reflexivity.
Defined.

(** C8. Garbling detector: [is_text_garbled] answers true exactly when the
    text contains "/" followed by a digit or "/i" followed by a digit, or
    when the text is not empty and the share of its characters that are
    alphanumeric or white space is strictly below one half.  The empty text
    is not garbled, "/0/1/2/3 garbage" is garbled, and the three lines
    "Vehicle", "Stealth 6509", "Fuel Type Diesel" are not. *)
Theorem C8_garbling_detector (t : text) :
  (is_text_garbled t = true
   <-> has_glyph_code t
       \/ (0 < length t
           /\ (ratio (length (filter readable t)) (length t) < 1 # 2)%Q))
  /\ is_text_garbled (str "") = false
  /\ is_text_garbled (str "/0/1/2/3 garbage") = true
  /\ is_text_garbled receipt_6509 = false.
Proof.
  split; [|repeat split; vm_compute; reflexivity].
  unfold is_text_garbled. cbv zeta.
  destruct (search garbled_re t) as [m|] eqn:Es.
  - split; auto. intros _. left. apply search_garbled. congruence.
  - assert (Hn : ~ has_glyph_code t).
    { intros H. apply search_garbled in H. congruence. }
    destruct (0 <? length t) eqn:El; simpl.
    + apply Nat.ltb_lt in El.
      destruct (Qltb _ (1 # 2)) eqn:Eq.
      * split; auto. intros _. right. split; auto. apply Qltb_lt, Eq.
      * split; [discriminate|]. intros [H|[_ H]]; [contradiction|].
        apply Qltb_lt in H. congruence.
    + apply Nat.ltb_ge in El. split; [discriminate|].
      intros [H|[H _]]; [contradiction|lia].
Qed.

(** C9. Normalizer idempotence: on a text that contains a digit, applying
    the normalizer to its own result changes nothing. *)
Theorem C9_normalizer_idempotent (x : text) :
  (exists a, In a x /\ isdecimal a = true) ->
  extract_last_4_digits (extract_last_4_digits x) = extract_last_4_digits x.
Proof.
  intros (a & Ha & Hd).
  destruct (digit_run_exists x) as [Hnd|(pre & run & post & -> & Hr)].
  - unfold no_digit in Hnd. rewrite Forall_forall in Hnd.
    rewrite (Hnd a Ha) in Hd. discriminate.
  - rewrite (extract_last_4_digits_run _ _ _ Hr).
    assert (H4 : four_digits (normalize_run run))
      by (apply normalize_run_four, Hr).
    destruct H4 as [Hl Hall].
    assert (Hk : last_digit_run [] (normalize_run run) []).
    { split; [intros E; rewrite E in Hl; discriminate|].
      split; [exact Hall|]. split; [constructor|left; reflexivity]. }
    pose proof (extract_last_4_digits_run _ _ _ Hk) as E.
    simpl in E. rewrite app_nil_r in E. rewrite E.
    unfold normalize_run at 1. rewrite Hl. reflexivity.
Qed.

Lemma C9_normalizer_idempotent_witness :
  extract_last_4_digits (extract_last_4_digits (str "Bus 42"))
  = extract_last_4_digits (str "Bus 42").
Proof.
  apply (C9_normalizer_idempotent (str "Bus 42")).
  exists (ch "4"). split; [simpl; tauto|reflexivity].
Defined.

(** C10. Shape of the extractor's result: for every page text the key is
    "Unknown" or a string of exactly four decimal digits, and the key is
    "Unknown" exactly when the label is.  Keys of that shape written with
    the digits "0" to "9" compare as strings the way their values compare as
    numbers.  The class [\d] of the patterns also accepts the decimal digits
    of the other scripts, and for keys made of those the two orders differ:
    "Bus" followed by the Arabic-Indic digits four and two is keyed "00"
    followed by these two digits, a key of value 42 that sorts, as a string,
    after "0050"; in [two_vehicles] the page of vehicle 50 is written before
    the page of vehicle 42.  Likewise the key 1234 in fullwidth digits
    sorts after "9999". *)
Theorem C10_key_shape (page_text : text) :
  (fst (extract_vehicle_vin page_text) = Unknown
   \/ four_digits (fst (extract_vehicle_vin page_text)))
  /\ (fst (extract_vehicle_vin page_text) = Unknown
      <-> snd (extract_vehicle_vin page_text) = Unknown)
  /\ (forall other,
        four_digits (fst (extract_vehicle_vin page_text)) ->
        four_digits (fst (extract_vehicle_vin other)) ->
        ascii_digits (fst (extract_vehicle_vin page_text)) ->
        ascii_digits (fst (extract_vehicle_vin other)) ->
        (str_ltb (fst (extract_vehicle_vin page_text))
                 (fst (extract_vehicle_vin other)) = true
         <-> int_of (fst (extract_vehicle_vin page_text))
             < int_of (fst (extract_vehicle_vin other))))
  /\ extract_vehicle_vin (unlines [bus_42_arabic; str "Vehicle"])
     = (key_42_arabic, bus_42_arabic)
  /\ extract_vehicle_vin (unlines [str "Bus 50"; str "Vehicle"])
     = (str "0050", str "Bus 50")
  /\ four_digits key_42_arabic
  /\ int_of key_42_arabic = 42
  /\ int_of (str "0050") = 50
  /\ str_ltb (str "0050") key_42_arabic = true
  /\ str_ltb key_42_arabic (str "0050") = false
  /\ result (sort_pdf_by_vehicle false false two_vehicles) = Written [1; 0]
  /\ extract_last_4_digits key_1234_fullwidth = key_1234_fullwidth
  /\ int_of key_1234_fullwidth = 1234
  /\ str_ltb (str "9999") key_1234_fullwidth = true.
Proof.
  split; [|split; [|split]].
  - destruct (extract_vehicle_vin_cases page_text) as [[Hk _]| ->]; auto.
  - destruct (extract_vehicle_vin_cases page_text) as [[Hk Hl]| ->].
    + split; intros H; [|contradiction].
      exfalso. apply (four_digits_not_Unknown _ Hk H).
    + split; reflexivity.
  - intros other [L1 _] [L2 _] D1 D2. apply key_order_numeric; assumption.
  - split; [vm_compute; reflexivity|]. split; [vm_compute; reflexivity|].
    split; [split; [reflexivity|repeat constructor]|].
    repeat split; vm_compute; reflexivity.
Qed.

Lemma C10_key_shape_witness :
  str_ltb (str "0007") (str "0042") = true
  <-> int_of (str "0007") < int_of (str "0042").
Proof.
  refine (proj1 (proj2 (proj2 (C10_key_shape
                                 (unlines [str "Bus 7"; str "Vehicle"]))))
                (unlines [str "Bus 42"; str "Vehicle"]) _ _ _ _).
  - split; [reflexivity|repeat constructor].
  - split; [reflexivity|repeat constructor].
  - repeat constructor; vm_compute; discriminate.
  - repeat constructor; vm_compute; discriminate.
Defined.
(* ================================================================== *)
(** ** More facts about the extractor *)
(* ================================================================== *)

Module ExtractorFacts.

(** *** The label of a result gives its key *)

Lemma key_after_space (x k : text) :
  four_digits k -> extract_last_4_digits (x ++ ch " " :: k) = k.
Proof.
  intros [Hl Hd].
  assert (Hr : last_digit_run (x ++ [(ch " ")]) k []).
  { split; [intros E; rewrite E in Hl; discriminate|].
    split; [exact Hd|]. split; [constructor|].
    right. exists x, (ch " "). split; reflexivity. }
  pose proof (extract_last_4_digits_run _ _ _ Hr) as E.
  rewrite app_nil_r, <- app_assoc in E. cbn [app] in E. rewrite E.
  unfold normalize_run. rewrite Hl. reflexivity.
Qed.

Lemma ocr_format_label (lines : list text) (i : nat) (sl : text)
    (r : text * text) :
  ocr_format lines i sl = Some r -> label_gives_key r.
Proof.
  unfold ocr_format.
  destruct (contains _ sl && contains _ sl); [|discriminate].
  destruct (0 <? i); [|discriminate].
  destruct (search prev_line_re _) as [m|] eqn:Es; [|discriminate].
  intros H; injection H as <-.
  pose proof (search_key 1 _ _ _ prev_line_re_key Es) as Hk.
  exact (key_after_space (strip (group m 1)) (group m 2) Hk).
Qed.

Lemma original_format_label (lines : list text) (i : nat) (sl : text)
    (r : text * text) :
  original_format lines i sl = Some r -> label_gives_key r.
Proof.
  unfold original_format.
  destruct (text_eqb sl _); [|discriminate].
  destruct (0 <? i); [|discriminate]. cbv zeta.
  destruct (negb (text_eqb _ []) && _); [|discriminate].
  destruct (negb (text_eqb (extract_last_4_digits _) Unknown));
    [|discriminate].
  intros H; injection H as <-. reflexivity.
Qed.

Lemma scan_lines_label (lines rest : list text) :
  forall i r, scan_lines lines i rest = Some r -> label_gives_key r.
Proof.
  induction rest as [|line rest IH]; simpl; intros i r H; [discriminate|].
  destruct (ocr_format lines i (strip line)) as [r1|] eqn:E1.
  - injection H as <-. eapply ocr_format_label; eauto.
  - destruct (original_format lines i (strip line)) as [r2|] eqn:E2.
    + injection H as <-. eapply original_format_label; eauto.
    + eapply IH; eauto.
Qed.

Lemma method2_label (t : text) (r : text * text) :
  method2 t = Some r -> label_gives_key r.
Proof.
  unfold method2.
  destruct (search vehicle_pattern t) as [m|] eqn:Es; [|discriminate].
  intros H; injection H as <-.
  pose proof (search_key 1 _ _ _ vehicle_pattern_key Es) as Hk.
  exact (key_after_space (strip (group m 1)) (group m 2) Hk).
Qed.

Lemma method3_label (patterns : list regex) (t : text) (r : text * text) :
  method3 patterns t = Some r -> label_gives_key r.
Proof.
  induction patterns as [|pattern patterns IH]; simpl; [discriminate|].
  destruct (search pattern t) as [m|]; auto.
  destruct (negb (text_eqb (extract_last_4_digits _) Unknown)); auto.
  intros H; injection H as <-. reflexivity.
Qed.

Lemma method4_label (patterns : list regex) (t : text) (r : text * text) :
  Forall (captures_key 1) patterns ->
  method4 patterns t = Some r -> label_gives_key r.
Proof.
  induction 1 as [|pattern patterns Hp Hps IH]; simpl; [discriminate|].
  destruct (search pattern t) as [m|] eqn:Es; auto.
  intros H; injection H as <-.
  pose proof (search_key 0 _ _ _ Hp Es) as Hk.
  exact (key_after_space (str "Vehicle") (group m 1) Hk).
Qed.

(** *** Texts without a digit *)

Lemma no_digit_lstrip (s : text) : no_digit s -> no_digit (lstrip s).
Proof.
  induction 1 as [|a s Ha Hs IH]; simpl; [constructor|].
  destruct (isspace a); auto. constructor; auto.
Qed.

Lemma no_digit_strip (s : text) : no_digit s -> no_digit (strip s).
Proof.
  intros H. unfold strip, rstrip, no_digit.
  apply Forall_rev. apply no_digit_lstrip. apply Forall_rev.
  apply no_digit_lstrip, H.
Qed.

Lemma no_digit_split (sep : char) (t : text) :
  no_digit t -> Forall no_digit (split sep t).
Proof.
  induction 1 as [|a t Ha Ht IH]; simpl.
  - repeat constructor.
  - destruct (N.eqb a sep).
    + constructor; [constructor|exact IH].
    + destruct (split sep t) as [|l ls]; [repeat constructor; auto|].
      inversion IH; subst. constructor; auto. constructor; auto.
Qed.

Lemma no_digit_nth (lines : list text) (j : nat) :
  Forall no_digit lines -> no_digit (nth j lines []).
Proof.
  intros H. destruct (Nat.lt_ge_cases j (length lines)) as [Hj|Hj].
  - rewrite Forall_forall in H. apply H, nth_In, Hj.
  - rewrite (nth_overflow lines [] Hj). constructor.
Qed.

Lemma no_digit_has_digit (w : text) : no_digit w -> has_digit w -> False.
Proof.
  intros Hn He. apply Exists_exists in He. destruct He as (a & Ha & Hd).
  unfold no_digit in Hn. rewrite Forall_forall in Hn.
  rewrite (Hn a Ha) in Hd. discriminate.
Qed.

Lemma lang_has_digit (r : regex) (w : text) :
  lang r w -> needs_digit r -> has_digit w.
Proof.
  unfold has_digit.
  induction 1 as [|p a Hp|r1 r2 w1 w2 H1 IH1 H2 IH2|r1 r2 w H IH|r1 r2 w H IH
                 |g r|g r w1 w2 H1 IH1 H2 IH2|i r w H IH];
    simpl; intros Hn; try contradiction.
  - constructor. apply Hn, Hp.
  - apply Exists_app. destruct Hn; auto.
  - apply IH, Hn.
  - apply IH, Hn.
  - auto.
Qed.

(** The patterns of the extractor that capture a key need a digit. *)
Ltac needs :=
  lazymatch goal with
  | |- _ /\ _ => split; needs
  | |- _ \/ _ => (left; needs) || (right; needs)
  | |- digits_only _ => intros a Ha; exact Ha
  end.

Lemma prev_line_re_digit : needs_digit prev_line_re.
Proof. simpl. needs. Qed.

Lemma vehicle_pattern_digit : needs_digit vehicle_pattern.
Proof. simpl. needs. Qed.

Lemma bottom_vin_patterns_digit : Forall needs_digit bottom_vin_patterns.
Proof. repeat constructor; simpl; needs. Qed.

Lemma groups_ok_trivial (r : regex) : groups_ok (fun _ _ => True) r.
Proof. induction r; simpl; auto. Qed.

(** A pattern that needs a digit finds nothing in a text without one. *)
Lemma search_no_digit (r : regex) (s : text) :
  needs_digit r -> no_digit s -> search r s = None.
Proof.
  intros Hr Hs. destruct (search r s) as [m|] eqn:E; auto. exfalso.
  destruct (search_sound _ _ _ _ (groups_ok_trivial r) E)
    as (pre & post & -> & Hw & _).
  unfold no_digit in Hs. apply Forall_app in Hs. destruct Hs as [_ Hs].
  apply Forall_app in Hs. destruct Hs as [Hs _].
  exact (no_digit_has_digit _ Hs (lang_has_digit _ _ Hw Hr)).
Qed.

Lemma no_digit_Unknown (name : text) :
  no_digit name ->
  negb (text_eqb (extract_last_4_digits name) Unknown) = false.
Proof.
  intros H. rewrite (extract_last_4_digits_none _ H). reflexivity.
Qed.

Lemma scan_lines_no_digit (lines rest : list text) :
  Forall no_digit lines ->
  forall i, scan_lines lines i rest = None.
Proof.
  intros Hl. induction rest as [|line rest IH]; intros i; simpl; auto.
  assert (Hp : no_digit (strip (nth (i - 1) lines [])))
    by (apply no_digit_strip, no_digit_nth, Hl).
  assert (E1 : ocr_format lines i (strip line) = None).
  { unfold ocr_format.
    destruct (contains _ _ && contains _ _); auto.
    destruct (0 <? i); auto.
    rewrite (search_no_digit prev_line_re _ prev_line_re_digit Hp).
    reflexivity. }
  assert (E2 : original_format lines i (strip line) = None).
  { unfold original_format.
    destruct (text_eqb _ _); auto. destruct (0 <? i); auto. cbv zeta.
    destruct (negb (text_eqb _ []) && _); auto.
    rewrite (no_digit_Unknown _ Hp). reflexivity. }
  rewrite E1, E2. apply IH.
Qed.

Lemma method3_no_digit (patterns : list regex) (t : text) :
  no_digit t -> method3 patterns t = None.
Proof.
  intros Ht. induction patterns as [|pattern patterns IH]; simpl; auto.
  destruct (search pattern t) as [m|] eqn:E; auto.
  destruct (search_sound _ _ _ _ (groups_ok_trivial pattern) E)
    as (pre & post & Et & _).
  assert (Hw : no_digit (whole m)).
  { unfold no_digit in *. rewrite Et in Ht.
    apply Forall_app in Ht. destruct Ht as [_ Ht].
    apply Forall_app in Ht. apply Ht. }
  change (group m 0) with (whole m).
  rewrite (no_digit_Unknown _ (no_digit_strip _ Hw)). exact IH.
Qed.

Lemma method4_no_digit (patterns : list regex) (t : text) :
  Forall needs_digit patterns ->
  no_digit t -> method4 patterns t = None.
Proof.
  intros Hp Ht. induction Hp as [|pattern patterns Hr Hps IH]; simpl; auto.
  rewrite (search_no_digit pattern t Hr Ht). exact IH.
Qed.

End ExtractorFacts.

(* ================================================================== *)
(** ** More facts about whole runs *)
(* ================================================================== *)

Module OrderFacts.

(** *** The calls of the loop *)

Lemma extract_page_calls (OCR_AVAILABLE needs_ocr : bool) (n : nat) (p : page)
    (st : state) :
  calls (extract_page OCR_AVAILABLE needs_ocr n p st)
  = calls st ++ fst (read_page OCR_AVAILABLE needs_ocr n p).
Proof.
  unfold extract_page.
  destruct (read_page OCR_AVAILABLE needs_ocr n p) as [made0 [t|]]; simpl.
  - destruct (extract_vehicle_vin t); reflexivity.
  - reflexivity.
Qed.

Lemma extract_loop_calls (OCR_AVAILABLE needs_ocr : bool) (pages : list page) :
  forall n st,
    calls (extract_loop OCR_AVAILABLE needs_ocr n pages st)
    = calls st ++ loop_calls OCR_AVAILABLE needs_ocr n pages.
Proof.
  induction pages as [|p pages IH]; simpl; intros n st.
  - rewrite app_nil_r. reflexivity.
  - rewrite IH, extract_page_calls, <- app_assoc. reflexivity.
Qed.

Lemma loop_calls_ocr (pages : list page) :
  forall n, loop_calls true true n pages = map Ocr (seq n (length pages)).
Proof.
  induction pages as [|p pages IH]; simpl; intros n; auto.
  rewrite IH. reflexivity.
Qed.

Lemma loop_calls_no_ocr (pages : list page) :
  forall n, loop_calls false true n pages = [].
Proof.
  induction pages as [|p pages IH]; simpl; intros n; auto.
Qed.

Lemma loop_calls_native (OCR_AVAILABLE : bool) (pages : list page) :
  forall n, loop_calls OCR_AVAILABLE false n pages
            = map ExtractText (seq n (length pages)).
Proof.
  induction pages as [|p pages IH]; simpl; intros n; auto.
  rewrite IH. reflexivity.
Qed.

(** *** The order of two pages in the output *)

Lemma before_in (p q : nat) (l : list nat) :
  before p q l -> In p l /\ In q l.
Proof.
  intros (l1 & l2 & l3 & ->). split.
  - apply in_or_app. right. left. reflexivity.
  - apply in_or_app. right. right. apply in_or_app. right. left. reflexivity.
Qed.

Lemma before_cons (a p q : nat) (l : list nat) :
  before p q (a :: l) -> (a = p /\ In q l) \/ before p q l.
Proof.
  intros (l1 & l2 & l3 & E). destruct l1 as [|b l1]; simpl in E.
  - injection E as -> ->. left. split; auto.
    apply in_or_app. right. left. reflexivity.
  - injection E as -> ->. right. exists l1, l2, l3. reflexivity.
Qed.

Lemma before_antisym (p q : nat) (l : list nat) :
  NoDup l -> before p q l -> before q p l -> False.
Proof.
  induction 1 as [|a l Ha Hnd IH]; intros H1 H2.
  - destruct H1 as (l1 & l2 & l3 & E). destruct l1; discriminate.
  - apply before_cons in H1. apply before_cons in H2.
    destruct H1 as [[-> Hq]|H1], H2 as [[E Hp]|H2].
    + subst q. contradiction.
    + apply before_in in H2. destruct H2 as [_ H2]. contradiction.
    + subst a. apply before_in in H1. destruct H1 as [_ H1]. contradiction.
    + auto.
Qed.

Lemma before_app_l (p q : nat) (l1 l2 : list nat) :
  before p q (l1 ++ l2) -> ~ In p l1 -> before p q l2.
Proof.
  induction l1 as [|a l1 IH]; simpl; intros H Hn; auto.
  apply before_cons in H. destruct H as [[-> _]|H].
  - exfalso. apply Hn. left. reflexivity.
  - apply IH; auto.
Qed.

Lemma before_app_r (p q : nat) (l1 l2 : list nat) :
  before p q (l1 ++ l2) -> ~ In q l2 -> before p q l1.
Proof.
  intros (m1 & m2 & m3 & E) Hn.
  assert (L : length (m1 ++ p :: m2) < length l1).
  { destruct (Nat.lt_ge_cases (length (m1 ++ p :: m2)) (length l1)) as [|Hge];
      auto. exfalso. apply Hn.
    assert (E' : skipn (length l1) (l1 ++ l2)
                 = skipn (length l1) ((m1 ++ p :: m2) ++ q :: m3))
      by (rewrite E, <- app_assoc; reflexivity).
    rewrite skipn_app, skipn_all, Nat.sub_diag in E'. simpl in E'.
    rewrite skipn_app in E'.
    replace (length l1 - length (m1 ++ p :: m2)) with 0 in E' by lia.
    simpl in E'. rewrite E'. apply in_or_app. right. left. reflexivity. }
  assert (E' : firstn (length l1) (l1 ++ l2)
               = firstn (length l1) ((m1 ++ p :: m2) ++ q :: m3))
    by (rewrite E, <- app_assoc; reflexivity).
  rewrite firstn_app, firstn_all, Nat.sub_diag in E'. simpl in E'.
  rewrite app_nil_r in E'. rewrite firstn_app in E'.
  rewrite (firstn_all2 (m1 ++ p :: m2)) in E' by lia.
  destruct (length l1 - length (m1 ++ p :: m2)) as [|k] eqn:Ek; [lia|].
  simpl in E'. exists m1, m2, (firstn k m3).
  rewrite E', <- app_assoc. reflexivity.
Qed.

Lemma sorted_lt_before (p q : nat) (l : list nat) :
  StronglySorted lt l -> before p q l -> p < q.
Proof.
  intros Hs (l1 & l2 & l3 & ->).
  apply (ssorted_across _ lt (l1 ++ [p]) (l2 ++ q :: l3)).
  - rewrite <- app_assoc. exact Hs.
  - apply in_or_app. right. left. reflexivity.
  - apply in_or_app. right. left. reflexivity.
Qed.

Lemma str_ltb_total (s t : text) :
  s <> t -> str_ltb s t = true \/ str_ltb t s = true.
Proof.
  revert t; induction s as [|a s IH]; intros [|b t] H; simpl; auto;
    try (contradiction H; reflexivity).
  - destruct (ord a <? ord b)%N eqn:Hab; auto.
    destruct (ord b <? ord a)%N eqn:Hba; auto.
    apply N.ltb_ge in Hab, Hba.
    assert (E : a = b) by (apply ord_inj; lia). subst b.
    apply IH. congruence.
Qed.

Lemma sort_key_inj (A B : text) : sort_key A = sort_key B -> A = B.
Proof.
  unfold sort_key.
  destruct (text_eqb A Unknown) eqn:EA, (text_eqb B Unknown) eqn:EB;
    intros H; try discriminate.
  - apply text_eqb_eq in EA, EB. congruence.
  - injection H as ->. reflexivity.
Qed.

Lemma sort_key_total (A B : text) :
  A <> B ->
  pair_ltb (sort_key A) (sort_key B) = true
  \/ pair_ltb (sort_key B) (sort_key A) = true.
Proof.
  intros H. unfold sort_key.
  destruct (text_eqb A Unknown) eqn:EA, (text_eqb B Unknown) eqn:EB;
    unfold pair_ltb; simpl; auto.
  - apply text_eqb_eq in EA, EB. congruence.
  - apply str_ltb_total, H.
Qed.

Lemma nodup_app_disjoint (l1 l2 : list nat) :
  NoDup (l1 ++ l2) -> forall a, In a l1 -> In a l2 -> False.
Proof.
  induction l1 as [|x l1 IH]; simpl; intros Hnd a H1 H2; [contradiction|].
  apply NoDup_cons_iff in Hnd. destruct Hnd as [Hx Hnd].
  destruct H1 as [->|H1].
  - apply Hx, in_or_app. right. exact H2.
  - eapply IH; eauto.
Qed.

(** The pages of one group stand together in the output. *)
Lemma group_segment (d : vin_dict) (k : text) :
  In k (keys d) ->
  exists l1 l3, write_pages d = l1 ++ group_pages d k ++ l3.
Proof.
  intros Hk. unfold write_pages.
  assert (Hs : In k (sorted_vins d)).
  { unfold sorted_vins.
    eapply Permutation_in; [symmetry; apply sorted_perm|exact Hk]. }
  destruct (in_split _ _ Hs) as (m1 & m2 & ->).
  rewrite flat_map_app. simpl. eauto.
Qed.

Lemma before_same_group (d : vin_dict) (k : text) (p q : nat) :
  NoDup (write_pages d) -> In k (keys d) ->
  StronglySorted lt (group_pages d k) ->
  In p (group_pages d k) -> In q (group_pages d k) ->
  before p q (write_pages d) -> p < q.
Proof.
  intros Hnd Hk Hs Hp Hq Hb.
  destruct (group_segment d k Hk) as (l1 & l3 & E). rewrite E in Hnd, Hb.
  apply (sorted_lt_before p q _ Hs).
  apply (before_app_r p q _ l3).
  - apply (before_app_l p q l1); auto.
    intros Hin. apply (nodup_app_disjoint _ _ Hnd p Hin).
    apply in_or_app. left. exact Hp.
  - intros Hin. apply NoDup_app_remove_l in Hnd.
    apply (nodup_app_disjoint _ _ Hnd q Hq Hin).
Qed.

(** *** The summary *)

Lemma concat_lengths (A : Type) (ls : list (list A)) :
  length (concat ls) = list_sum (map (@length A) ls).
Proof.
  induction ls as [|l ls IH]; simpl; auto.
  rewrite length_app, IH. reflexivity.
Qed.

Lemma dict_append_nonempty (d : vin_dict) (k : text) (x : nat * text) :
  Forall (fun b => snd b <> []) d ->
  Forall (fun b => snd b <> []) (dict_append d k x).
Proof.
  induction 1 as [|[k0 l] d Hb Hd IH]; simpl.
  - repeat constructor. discriminate.
  - destruct (text_eqb k0 k); constructor; auto.
    simpl. destruct l; discriminate.
Qed.

Lemma loop_nonempty (OCR_AVAILABLE needs_ocr : bool) (pages : list page) :
  forall n st,
    Forall (fun b => snd b <> []) (vin_pages st) ->
    Forall (fun b => snd b <> [])
           (vin_pages (extract_loop OCR_AVAILABLE needs_ocr n pages st)).
Proof.
  induction pages as [|p pages IH]; simpl; intros n st H; auto.
  apply IH. rewrite extract_page_buckets. apply dict_append_nonempty, H.
Qed.

Lemma getitem_of_key (d : vin_dict) (k : text) :
  In k (keys d) -> exists l, In (k, l) d /\ getitem d k = l.
Proof.
  unfold keys. induction d as [|[k0 l] d IH]; simpl; [contradiction|].
  destruct (text_eqb k0 k) eqn:E.
  - apply text_eqb_eq in E; subst. intros _. exists l. auto.
  - intros [->|H]; [rewrite text_eqb_refl in E; discriminate|].
    destruct (IH H) as (l' & Hin & Hg). exists l'. auto.
Qed.

End OrderFacts.

(* ================================================================== *)
(** ** Facts about byte strings and [parse_multipart] *)
(* ================================================================== *)

Module BytesFacts.

Lemma byte_eqb_refl (x : Byte.byte) : Byte.eqb x x = true.
Proof. apply Byte.byte_dec_lb. reflexivity. Qed.

Lemma bytes_eqb_eq (s t : bytes) : bytes_eqb s t = true <-> s = t.
Proof.
  revert t; induction s as [|x s IH]; intros [|y t]; simpl;
    try (split; [discriminate|congruence]); try tauto.
  rewrite andb_true_iff, IH. split.
  - intros [H ->]. apply Byte.byte_dec_bl in H. congruence.
  - intros H. injection H as -> ->. split; auto. apply byte_eqb_refl.
Qed.

Lemma bstartswith_spec (p s : bytes) :
  bstartswith p s = true <-> exists r, s = p ++ r.
Proof.
  revert s; induction p as [|x p IH]; intros s; simpl.
  - split; eauto.
  - destruct s as [|y s].
    + split; [discriminate|]. intros (r & E). discriminate.
    + rewrite andb_true_iff, IH. split.
      * intros [H (r & ->)]. apply Byte.byte_dec_bl in H. subst. eauto.
      * intros (r & E). injection E as -> ->. split; eauto.
        apply byte_eqb_refl.
Qed.

Lemma bstartswith_app (p r : bytes) : bstartswith p (p ++ r) = true.
Proof. apply bstartswith_spec. eauto. Qed.

(** Bytes beyond the length of [p] do not matter. *)
Lemma bstartswith_extend (p x rest : bytes) :
  length p <= length x -> bstartswith p (x ++ rest) = bstartswith p x.
Proof.
  revert x; induction p as [|a p IH]; intros x H; simpl; auto.
  destruct x as [|b x]; simpl in *; [lia|].
  rewrite IH by lia. reflexivity.
Qed.

Lemma bstartswith_more (p s y : bytes) :
  bstartswith p s = true -> bstartswith p (s ++ y) = true.
Proof.
  intros H. apply bstartswith_spec in H. destruct H as (r & ->).
  rewrite <- app_assoc. apply bstartswith_app.
Qed.

Lemma bfind_cons (sub : bytes) (x : Byte.byte) (s : bytes) :
  bfind sub (x :: s)
  = if bstartswith sub (x :: s) then Some 0 else option_map S (bfind sub s).
Proof. reflexivity. Qed.

Lemma bfind_eq (sub s : bytes) :
  bfind sub s
  = if bstartswith sub s then Some 0
    else match s with
         | [] => None
         | _ :: s' => option_map S (bfind sub s')
         end.
Proof. destruct s; reflexivity. Qed.

Lemma bcontains_spec (f s : bytes) :
  bcontains f s = true <-> infix f s.
Proof.
  unfold bcontains, infix. split.
  - induction s as [|x s IH]; rewrite bfind_eq.
    + destruct (bstartswith f []) eqn:E; [|discriminate].
      apply bstartswith_spec in E. destruct E as (r & E).
      intros _. exists [], r. exact E.
    + destruct (bstartswith f (x :: s)) eqn:E.
      * apply bstartswith_spec in E. destruct E as (r & E).
        intros _. exists [], r. exact E.
      * destruct (bfind f s); [|discriminate]. intros _.
        destruct (IH eq_refl) as (a & c & ->). exists (x :: a), c. reflexivity.
  - intros (a & c & ->). induction a as [|x a IH].
    + simpl app. rewrite bfind_eq, bstartswith_app. reflexivity.
    + simpl app. rewrite bfind_cons.
      destruct (bstartswith f (x :: a ++ f ++ c)); auto.
      destruct (bfind f (a ++ f ++ c)); [reflexivity|discriminate].
Qed.

Lemma bcontains_infix (f x s : bytes) :
  infix x s -> bcontains f x = true -> bcontains f s = true.
Proof.
  intros (a & c & ->) H. apply bcontains_spec in H.
  destruct H as (a' & c' & ->). apply bcontains_spec.
  exists (a ++ a'), (c' ++ c). rewrite <- !app_assoc. reflexivity.
Qed.

(** The closing delimiter stays the first one when more bytes follow. *)
Lemma bfind_closing (sep p rest : bytes) :
  bfind sep (p ++ sep) = Some (length p) ->
  bfind sep (p ++ sep ++ rest) = Some (length p).
Proof.
  induction p as [|a p IH]; intros H.
  - simpl app. rewrite bfind_eq, bstartswith_app. reflexivity.
  - simpl app in *. rewrite bfind_cons in *.
    assert (E : bstartswith sep (a :: p ++ sep ++ rest)
                = bstartswith sep (a :: p ++ sep)).
    { rewrite app_assoc.
      change (a :: (p ++ sep) ++ rest) with ((a :: p ++ sep) ++ rest).
      apply bstartswith_extend. simpl. rewrite length_app. lia. }
    rewrite E. destruct (bstartswith sep (a :: p ++ sep)); [discriminate|].
    destruct (bfind sep (p ++ sep)) as [i|] eqn:Ei; [|discriminate].
    simpl in H. injection H as ->. rewrite (IH eq_refl). reflexivity.
Qed.

Lemma bfind_not_before (sep : bytes) (a : Byte.byte) (p : bytes) :
  bfind sep (a :: p ++ sep) = Some (S (length p)) ->
  bstartswith sep (a :: p ++ sep) = false
  /\ bfind sep (p ++ sep) = Some (length p).
Proof.
  rewrite bfind_cons. destruct (bstartswith sep (a :: p ++ sep));
    [discriminate|].
  destruct (bfind sep (p ++ sep)) as [i|]; [|discriminate].
  simpl. intros H. injection H as ->. auto.
Qed.

(** *** [split] *)

Lemma bsplit_skip (sep w : bytes) :
  forall cur rest,
    bsplit_scan sep (length w) cur (w ++ rest) = bsplit_scan sep 0 cur rest.
Proof.
  induction w as [|x w IH]; intros cur rest; simpl; auto.
Qed.

(** The piece that ends at the first occurrence of the separator. *)
Lemma bsplit_first (sep p rest : bytes) :
  sep <> [] ->
  bfind sep (p ++ sep) = Some (length p) ->
  forall cur,
    bsplit_scan sep 0 cur (p ++ sep ++ rest)
    = (rev cur ++ p) :: bsplit_scan sep 0 [] rest.
Proof.
  intros Hne. induction p as [|a p IH]; intros H cur.
  - destruct sep as [|x sep]; [contradiction|].
    simpl app. rewrite app_nil_r.
    change (bsplit_scan (x :: sep) 0 cur (x :: sep ++ rest))
      with (if bstartswith (x :: sep) (x :: sep ++ rest)
            then rev cur :: bsplit_scan (x :: sep) (length (x :: sep) - 1) []
                              (sep ++ rest)
            else bsplit_scan (x :: sep) 0 (x :: cur) (sep ++ rest)).
    change (x :: sep ++ rest) with ((x :: sep) ++ rest).
    rewrite bstartswith_app.
    replace (length (x :: sep) - 1) with (length sep) by (simpl; lia).
    rewrite bsplit_skip. reflexivity.
  - simpl app in H. apply bfind_not_before in H. destruct H as [Hs Hf].
    simpl app.
    change (bsplit_scan sep 0 cur (a :: p ++ sep ++ rest))
      with (if bstartswith sep (a :: p ++ sep ++ rest)
            then rev cur :: bsplit_scan sep (length sep - 1) []
                              (p ++ sep ++ rest)
            else bsplit_scan sep 0 (a :: cur) (p ++ sep ++ rest)).
    assert (E : bstartswith sep (a :: p ++ sep ++ rest) = false).
    { rewrite <- Hs. rewrite app_assoc.
      change (a :: (p ++ sep) ++ rest) with ((a :: p ++ sep) ++ rest).
      apply bstartswith_extend. simpl. rewrite length_app. lia. }
    rewrite E, (IH Hf). simpl. rewrite <- app_assoc. reflexivity.
Qed.

(** A text that opens with the separator has an empty first piece. *)
Lemma bsplit_open (sep rest : bytes) :
  sep <> [] ->
  bsplit_scan sep 0 [] (sep ++ rest) = [] :: bsplit_scan sep 0 [] rest.
Proof.
  intros Hne. apply (bsplit_first sep [] rest Hne).
  simpl app. rewrite bfind_eq.
  rewrite <- (app_nil_r sep) at 2. rewrite bstartswith_app. reflexivity.
Qed.

(** Every piece of a split is cut out of the text. *)
Lemma bsplit_scan_infix (sep : bytes) (s : bytes) :
  forall skip cur,
    skip = 0 \/ cur = [] ->
    Forall (fun part => infix part (rev cur ++ s)) (bsplit_scan sep skip cur s).
Proof.
  induction s as [|x s IH]; intros skip cur Hc; simpl.
  - constructor; [|constructor]. exists [], []. rewrite !app_nil_r. reflexivity.
  - destruct skip as [|k].
    + destruct (bstartswith sep (x :: s)).
      * constructor.
        -- exists [], (x :: s). reflexivity.
        -- eapply Forall_impl; [|apply (IH (length sep - 1) []); auto].
           intros part (a & c & E). simpl in E.
           exists (rev cur ++ x :: a), c. rewrite E, <- app_assoc. reflexivity.
      * eapply Forall_impl; [|apply (IH 0 (x :: cur)); auto].
        intros part (a & c & E). exists a, c. rewrite <- E. simpl.
        rewrite <- app_assoc. reflexivity.
    + destruct Hc as [Hc | ->]; [discriminate|].
      eapply Forall_impl; [|apply (IH k []); auto].
      intros part (a & c & E). simpl in E. exists (x :: a), c.
      simpl. rewrite E. reflexivity.
Qed.

Lemma bsplit_infix (sep body : bytes) :
  Forall (fun part => infix part body) (bsplit sep body).
Proof. apply (bsplit_scan_infix sep body 0 []). auto. Qed.

(** *** The trailing markers *)

Lemma firstn_front (A : Type) (w s : list A) :
  firstn (length (w ++ s) - length s) (w ++ s) = w.
Proof.
  rewrite length_app, Nat.add_sub.
  rewrite firstn_app, Nat.sub_diag, firstn_all. simpl. apply app_nil_r.
Qed.

Lemma drop_marker_CRLF (content : bytes) :
  drop_marker CRLF (content ++ CRLF) = content.
Proof.
  unfold drop_marker, bendswith. rewrite rev_app_distr. simpl.
  apply (firstn_front _ content CRLF).
Qed.

Lemma drop_marker_dashes (content : bytes) :
  drop_marker (lit_bytes "--") (content ++ lit_bytes "--") = content.
Proof.
  unfold drop_marker, bendswith. rewrite rev_app_distr. simpl.
  apply (firstn_front _ content (lit_bytes "--")).
Qed.

Lemma drop_marker_absent (marker content : bytes) :
  bendswith marker content = false -> drop_marker marker content = content.
Proof. unfold drop_marker. intros ->. reflexivity. Qed.

Lemma parse_parts_no_file (parts : list bytes) :
  Forall (fun part => bcontains (lit_bytes "filename=") part = false) parts ->
  parse_parts parts = [].
Proof.
  induction 1 as [|part parts Hp Hps IH]; simpl; auto.
  rewrite Hp. simpl. exact IH.
Qed.

End BytesFacts.

(* ================================================================== *)
(** ** Facts about the request handling *)
(* ================================================================== *)

Module HandlerFacts.

(** *** The boundary parameter *)

Lemma startswith_app (p r : text) : startswith p (p ++ r) = true.
Proof.
  induction p as [|a p IH]; simpl; auto.
  rewrite (proj2 (N.eqb_eq a a) eq_refl). exact IH.
Qed.

Lemma contains_prefix (p r : text) : contains p (p ++ r) = true.
Proof.
  destruct (p ++ r) eqn:E; simpl; rewrite <- E, startswith_app; reflexivity.
Qed.

Lemma split_no_sep (sep : char) (s : text) :
  Forall (fun a => a <> sep) s -> split sep s = [s].
Proof.
  induction 1 as [|a s Ha Hs IH]; simpl; auto.
  destruct (N.eqb a sep) eqn:E; [apply N.eqb_eq in E; contradiction|].
  rewrite IH. reflexivity.
Qed.

Lemma split_at_sep (sep : char) (x y : text) :
  Forall (fun a => a <> sep) x ->
  split sep (x ++ sep :: y) = x :: split sep y.
Proof.
  induction 1 as [|a x Ha Hx IH]; simpl.
  - rewrite (proj2 (N.eqb_eq sep sep) eq_refl). reflexivity.
  - destruct (N.eqb a sep) eqn:E; [apply N.eqb_eq in E; contradiction|].
    rewrite IH. reflexivity.
Qed.

Lemma rstrip_last (s : text) (z : char) :
  isspace z = false -> rstrip (s ++ [z]) = s ++ [z].
Proof.
  intros Hz. unfold rstrip. rewrite rev_app_distr. simpl. rewrite Hz.
  simpl. rewrite rev_involutive. reflexivity.
Qed.

Lemma strip_char_last (c : char) (s : text) (z : char) :
  N.eqb z c = false ->
  rev (lstrip_char c (rev (s ++ [z]))) = s ++ [z].
Proof.
  intros Hz. rewrite rev_app_distr. simpl. rewrite Hz.
  simpl. rewrite rev_involutive. reflexivity.
Qed.

Lemma plain_char_spec (a : char) :
  plain_char a = true -> isspace a = false /\ N.eqb a dquote = false.
Proof.
  unfold plain_char. rewrite andb_true_iff, !negb_true_iff. auto.
Qed.

(** A plain boundary is not empty and is known by its first and its last
    character. *)
Lemma plain_boundary_shape (bd : text) :
  plain_boundary bd ->
  exists a bd' z,
    bd = a :: bd' /\ a :: bd' = removelast bd ++ [z]
    /\ plain_char a = true /\ plain_char z = true
    /\ Forall (fun x => x <> ch ";") bd.
Proof.
  intros (Hsemi & Hhd & Hlast).
  destruct bd as [|a bd']; [discriminate|].
  exists a, bd', (last (a :: bd') dquote).
  repeat split; auto.
  apply app_removelast_last. discriminate.
Qed.

Lemma strip_plain (s : text) (a z : char) (s' : text) :
  s = a :: s' -> isspace a = false ->
  s = removelast s ++ [z] -> isspace z = false ->
  strip s = s.
Proof.
  intros E Ha Ez Hz. unfold strip.
  assert (El : lstrip s = s) by (rewrite E; simpl; rewrite Ha; reflexivity).
  rewrite El, Ez. apply rstrip_last, Hz.
Qed.

(** *** The routes *)

Lemma startswith_head (a : char) (p s : text) :
  startswith (a :: p) s = true -> hd_error s = Some a.
Proof.
  destruct s as [|b s]; simpl; [discriminate|].
  rewrite andb_true_iff, N.eqb_eq. intros [-> _]. reflexivity.
Qed.

(** A path ends with one character only. *)
Lemma endswith_exclusive (s1 s2 p : text) (a1 a2 : char) (r1 r2 : text) :
  rev s1 = a1 :: r1 -> rev s2 = a2 :: r2 -> a1 <> a2 ->
  endswith s1 p = true -> endswith s2 p = false.
Proof.
  unfold endswith. intros -> -> Hne H1.
  destruct (startswith (a2 :: r2) (rev p)) eqn:H2; auto.
  apply startswith_head in H1, H2. congruence.
Qed.

Lemma route_test (suffix full p : text) :
  endswith suffix full = true ->
  endswith suffix p || text_eqb p full = endswith suffix p.
Proof.
  intros Hf. destruct (endswith suffix p) eqn:E; simpl; auto.
  destruct (text_eqb p full) eqn:Ep; auto.
  apply text_eqb_eq in Ep. subst. congruence.
Qed.

(** Two endings that exclude one another both hold. *)
Ltac clash :=
  match goal with
  | X : true = true -> true = false |- _ => discriminate (X eq_refl)
  end.

End HandlerFacts.

(* ================================================================== *)
(** ** Facts about uploads *)
(* ================================================================== *)

Module UploadFacts.
Import BytesFacts.

(** What [parse_multipart] returns for a body whose first part is a file
    part closed by the first occurrence of the delimiter. *)
Lemma upload_parsed (boundary : text) (headers content after_ : bytes) :
  bcontains (lit_bytes "filename=") headers = true ->
  bfind (CRLF ++ CRLF) (file_part headers content) = Some (2 + length headers) ->
  bfind (encode_utf8 (str "--" ++ boundary))
        (file_part headers content ++ encode_utf8 (str "--" ++ boundary))
  = Some (length (file_part headers content)) ->
  parse_multipart
    (encode_utf8 (str "--" ++ boundary) ++ file_part headers content
     ++ encode_utf8 (str "--" ++ boundary) ++ after_) boundary
  = drop_marker CRLF (drop_marker (lit_bytes "--") content).
Proof.
  intros Hf Hh Hb.
  unfold parse_multipart. cbv zeta.
  remember (encode_utf8 (str "--" ++ boundary)) as sep eqn:Esep.
  assert (Hne : sep <> []) by (rewrite Esep; simpl; discriminate).
  unfold bsplit.
  rewrite (bsplit_open sep _ Hne).
  rewrite (bsplit_first sep (file_part headers content) after_ Hne Hb []).
  cbn [rev app].
  change (parse_parts ([] :: file_part headers content
                        :: bsplit_scan sep 0 [] after_))
    with (parse_parts (file_part headers content
                        :: bsplit_scan sep 0 [] after_)).
  assert (Hc : bcontains (lit_bytes "filename=") (file_part headers content)
               = true).
  { apply (bcontains_infix _ headers); auto.
    exists CRLF, (CRLF ++ CRLF ++ content ++ CRLF). reflexivity. }
  assert (Es : skipn (2 + length headers + 4) (file_part headers content)
               = content ++ CRLF).
  { unfold file_part.
    replace (CRLF ++ headers ++ CRLF ++ CRLF ++ content ++ CRLF)
      with ((CRLF ++ headers ++ CRLF ++ CRLF) ++ content ++ CRLF)
      by (rewrite <- !app_assoc; reflexivity).
    rewrite skipn_app.
    replace (2 + length headers + 4)
      with (length (CRLF ++ headers ++ CRLF ++ CRLF))
      by (rewrite !length_app; simpl; lia).
    rewrite skipn_all, Nat.sub_diag. reflexivity. }
  change (parse_parts (file_part headers content :: bsplit_scan sep 0 [] after_))
    with (if negb (bcontains (lit_bytes "filename=") (file_part headers content))
          then parse_parts (bsplit_scan sep 0 [] after_)
          else match bfind (CRLF ++ CRLF) (file_part headers content) with
               | None => parse_parts (bsplit_scan sep 0 [] after_)
               | Some header_end =>
                   remove_trailing_markers
                     (skipn (header_end + 4) (file_part headers content))
               end).
  rewrite Hc, Hh. cbn [negb]. cbv beta iota. rewrite Es.
  unfold remove_trailing_markers. rewrite drop_marker_CRLF. reflexivity.
Qed.

Lemma body_parts_no_file (sep body : bytes) :
  bcontains (lit_bytes "filename=") body = false ->
  Forall (fun part => bcontains (lit_bytes "filename=") part = false)
         (bsplit sep body).
Proof.
  intros H. eapply Forall_impl; [|apply bsplit_infix].
  intros part Hi. simpl in Hi.
  destruct (bcontains (lit_bytes "filename=") part) eqn:E; auto.
  rewrite (bcontains_infix _ _ _ Hi E) in H. discriminate.
Qed.

End UploadFacts.

(* ================================================================== *)
(** ** Facts about the native layout *)
(* ================================================================== *)

Module NativeLayoutFacts.
Import ExtractorFacts.

Lemma digit_not_space (a : char) : isdecimal a = true -> isspace a = false.
Proof. exact (apart_spec decimal_ranges space_ranges (ord a) eq_refl). Qed.

Lemma in_lstrip (a : char) (s : text) :
  In a s -> isspace a = false -> In a (lstrip s).
Proof.
  induction s as [|b s IH]; simpl; auto.
  intros [->|H] Ha.
  - rewrite Ha. left. reflexivity.
  - destruct (isspace b); [auto|right; exact H].
Qed.

Lemma in_strip (a : char) (s : text) :
  In a s -> isspace a = false -> In a (strip s).
Proof.
  intros H Ha. unfold strip, rstrip.
  apply in_rev. rewrite rev_involutive.
  apply in_lstrip; auto. apply in_rev. rewrite rev_involutive.
  apply in_lstrip; auto.
Qed.

Lemma has_digit_strip (s : text) : has_digit s -> has_digit (strip s).
Proof.
  unfold has_digit. rewrite !Exists_exists. intros (a & Ha & Hd).
  exists a. split; auto. apply in_strip; auto. apply digit_not_space, Hd.
Qed.

(** A name with a digit normalizes to a key. *)
Lemma has_digit_key (name : text) :
  has_digit name ->
  negb (text_eqb (extract_last_4_digits name) Unknown) = true.
Proof.
  intros H. apply negb_true_iff.
  destruct (digit_run_exists name) as [Hn|(pre & run & post & -> & Hr)].
  - exfalso. exact (no_digit_has_digit _ Hn H).
  - rewrite (extract_last_4_digits_run _ _ _ Hr).
    apply text_eqb_neq, four_digits_not_Unknown, normalize_run_four, Hr.
Qed.

Lemma has_digit_name (name : text) :
  has_digit name ->
  negb (text_eqb name [])
  && negb (existsb (text_eqb name) [str ""; str " "]) = true.
Proof.
  intros H. unfold has_digit in H. apply Exists_exists in H.
  destruct H as (a & Ha & Hd).
  destruct name as [|b [|c name]]; simpl in *; try contradiction.
  - destruct Ha as [->|[]].
    match goal with
    | |- context [N.eqb ?x ?y] => destruct (N.eqb_spec x y) as [E|E]
    end; [|reflexivity].
    subst. vm_compute in Hd. discriminate Hd.
  - match goal with
    | |- context [N.eqb ?x ?y] => destruct (N.eqb x y)
    end; reflexivity.
Qed.

(** The first line is never a label: it has no line before it. *)
Lemma first_line_skipped (lines : list text) (sl : text) :
  ocr_format lines 0 sl = None /\ original_format lines 0 sl = None.
Proof.
  unfold ocr_format, original_format. split.
  - destruct (contains _ sl && contains _ sl); reflexivity.
  - destruct (text_eqb sl _); reflexivity.
Qed.

End NativeLayoutFacts.

(* ================================================================== *)
(** ** Further properties of the code *)
(* ================================================================== *)

Import ExtractorFacts OrderFacts BytesFacts HandlerFacts UploadFacts.
Import NativeLayoutFacts.

(** X1. For every page text, applying the digit normalizer to the label
    returned by [extract_vehicle_vin] gives back the key returned with it:
    key and label never disagree, whichever strategy produced them. *)
Theorem X1_label_gives_key (page_text : text) :
  extract_last_4_digits (snd (extract_vehicle_vin page_text))
  = fst (extract_vehicle_vin page_text).
Proof.
  change (label_gives_key (extract_vehicle_vin page_text)).
  unfold extract_vehicle_vin. cbv zeta.
  destruct (scan_lines _ 0 _) as [r|] eqn:E1;
    [eapply scan_lines_label; eauto|].
  destruct (method2 page_text) as [r|] eqn:E2;
    [eapply method2_label; eauto|].
  destruct (method3 vehicle_patterns page_text) as [r|] eqn:E3;
    [eapply method3_label; eauto|].
  destruct (method4 bottom_vin_patterns page_text) as [r|] eqn:E4;
    [eapply method4_label; eauto using bottom_vin_patterns_key|].
  reflexivity.
Qed.

(** X2. A page text without a single digit, the empty text among them,
    gets key "Unknown" and label "Unknown": no strategy of
    [extract_vehicle_vin] can succeed on it. *)
Theorem X2_no_digit_is_Unknown (page_text : text) :
  no_digit page_text -> extract_vehicle_vin page_text = (Unknown, Unknown).
Proof.
  intros H. unfold extract_vehicle_vin. cbv zeta.
  rewrite (scan_lines_no_digit _ _ (no_digit_split _ _ H)).
  unfold method2.
  rewrite (search_no_digit vehicle_pattern _ vehicle_pattern_digit H).
  rewrite (method3_no_digit _ _ H).
  rewrite (method4_no_digit bottom_vin_patterns page_text
             bottom_vin_patterns_digit H).
  reflexivity.
Qed.

Lemma X2_no_digit_is_Unknown_witness :
  extract_vehicle_vin (str "Vehicle Fuel Type") = (Unknown, Unknown).
Proof.
  apply (X2_no_digit_is_Unknown (str "Vehicle Fuel Type")).
  repeat constructor.
Defined.

(** X3. The calls a run makes to its collaborators.  With OCR forced and
    available the native text is never read and every page is sent to the
    OCR engine once, in page order.  When the first page reads natively and
    is not garbled, its text is extracted twice (once for the check, once in
    the loop) and every other page once, and the OCR engine is never used.
    When the first page is garbled and OCR is available, its native text is
    read once and then every page, the first included, goes to the OCR
    engine once. *)
Theorem X3_calls_made (pages : list page) :
  made (sort_pdf_by_vehicle true true pages)
  = map Ocr (seq 0 (length pages))
  /\ (forall OCR_AVAILABLE first rest first_page_text,
        pages = first :: rest ->
        native_text first = Some first_page_text ->
        is_text_garbled first_page_text = false ->
        made (sort_pdf_by_vehicle OCR_AVAILABLE false pages)
        = ExtractText 0 :: map ExtractText (seq 0 (length pages)))
  /\ (forall first rest first_page_text,
        pages = first :: rest ->
        native_text first = Some first_page_text ->
        is_text_garbled first_page_text = true ->
        made (sort_pdf_by_vehicle true false pages)
        = ExtractText 0 :: map Ocr (seq 0 (length pages))).
Proof.
  split; [|split].
  - unfold sort_pdf_by_vehicle, check_first_page. cbv beta iota. cbn [made].
    rewrite extract_loop_calls. apply loop_calls_ocr.
  - intros avail first rest t -> Hn Hg.
    unfold sort_pdf_by_vehicle, check_first_page. rewrite Hn, Hg.
    cbv beta iota. cbn [made]. rewrite extract_loop_calls.
    rewrite loop_calls_native. reflexivity.
  - intros first rest t -> Hn Hg.
    unfold sort_pdf_by_vehicle, check_first_page. rewrite Hn, Hg.
    cbv beta iota. cbn [negb made]. rewrite extract_loop_calls.
    rewrite loop_calls_ocr. reflexivity.
Qed.

Lemma X3_calls_made_witness :
  made (sort_pdf_by_vehicle false false three_pages)
  = ExtractText 0 :: map ExtractText (seq 0 (length three_pages)).
Proof.
  apply (proj1 (proj2 (X3_calls_made three_pages)) false
           (readable_page (unlines [str "Bus 42"; str "Vehicle"]))
           [broken_page; readable_page (unlines [str "Bus 7"; str "Vehicle"])]
           (unlines [str "Bus 42"; str "Vehicle"])).
  - reflexivity.
  - reflexivity.
  - vm_compute. reflexivity.
Defined.

(** X4. The output order is the order of the pairs (sort key, page number):
    if page [p] is written before page [q], then either both are in the same
    bucket and [p < q], or the sort key of [p]'s bucket is strictly below
    that of [q]'s (an "Unknown" bucket last, the others by their key as
    strings). *)
Theorem X4_order_is_key_then_page (OCR_AVAILABLE use_ocr : bool)
    (pages : list page) (order : list nat) (A B : text) (p q : nat) :
  result (sort_pdf_by_vehicle OCR_AVAILABLE use_ocr pages) = Written order ->
  in_bucket (buckets (sort_pdf_by_vehicle OCR_AVAILABLE use_ocr pages)) A p ->
  in_bucket (buckets (sort_pdf_by_vehicle OCR_AVAILABLE use_ocr pages)) B q ->
  before p q order ->
  (A = B /\ p < q) \/ pair_ltb (sort_key A) (sort_key B) = true.
Proof.
  intros H (la & Hp) (lb & Hq) Hb.
  pose proof (written_perm _ _ _ _ H) as Hperm.
  assert (Hnd : NoDup order)
    by (eapply Permutation_NoDup; [symmetry; exact Hperm|apply seq_NoDup]).
  destruct (run_buckets _ _ _ _ H) as (made0 & needs_ocr & _ & Eb & ->).
  remember (buckets (sort_pdf_by_vehicle OCR_AVAILABLE use_ocr pages)) as d
    eqn:Ed. clear Ed.
  assert (HA : In A (keys d)) by (eapply getitem_in_keys; eauto).
  assert (HB : In B (keys d)) by (eapply getitem_in_keys; eauto).
  destruct (text_eqb A B) eqn:E.
  - apply text_eqb_eq in E. subst B. left. split; auto.
    apply (before_same_group d A p q Hnd HA); auto.
    + unfold group_pages. apply sorted_le_nodup_lt; [apply nat_sorted_le|].
      eapply Permutation_NoDup;
        [apply Permutation_map; symmetry; apply sorted_perm|].
      apply getitem_nodup. rewrite Eb.
      destruct (loop_buckets_perm OCR_AVAILABLE needs_ocr pages made0)
        as [_ Hpp].
      eapply Permutation_NoDup; [symmetry; exact Hpp|apply seq_NoDup].
    + eapply in_group_pages; eauto.
    + eapply in_group_pages; eauto.
  - apply text_eqb_neq in E. right.
    destruct (sort_key_total A B E) as [Hlt|Hlt]; auto.
    exfalso. apply (before_antisym p q _ Hnd Hb).
    apply (groups_in_order d B A q p HB HA Hlt).
    + eapply in_group_pages; eauto.
    + eapply in_group_pages; eauto.
Qed.

Lemma X4_order_is_key_then_page_witness :
  (str "0007" = str "0042" /\ 2 < 0)
  \/ pair_ltb (sort_key (str "0007")) (sort_key (str "0042")) = true.
Proof.
  apply (X4_order_is_key_then_page false false three_pages [2; 0; 1]
           (str "0007") (str "0042") 2 0).
  - vm_compute. reflexivity.
  - exists (str "Bus 7"). vm_compute. left. reflexivity.
  - exists (str "Bus 42"). vm_compute. left. reflexivity.
  - exists [], [], [1]. reflexivity.
Defined.

(** X5. The summary printed before writing lists every VIN once, each with
    at least one page, and its page counts add up to the number of pages of
    the document; so it never lists more VINs than the document has
    pages. *)
Theorem X5_summary_counts (OCR_AVAILABLE use_ocr : bool) (pages : list page)
    (order : list nat) :
  result (sort_pdf_by_vehicle OCR_AVAILABLE use_ocr pages) = Written order ->
  let lines :=
    vin_summary (buckets (sort_pdf_by_vehicle OCR_AVAILABLE use_ocr pages)) in
  list_sum (map (fun line => snd (fst line)) lines) = length pages
  /\ Forall (fun line => 1 <= snd (fst line)) lines
  /\ NoDup (map (fun line => fst (fst line)) lines)
  /\ length lines <= length pages.
Proof.
  intros H lines.
  destruct (run_buckets _ _ _ _ H) as (made0 & needs_ocr & _ & Eb & _).
  destruct (loop_buckets_perm OCR_AVAILABLE needs_ocr pages made0)
    as [Hnd Hperm].
  rewrite <- Eb in Hnd, Hperm. subst lines.
  remember (buckets (sort_pdf_by_vehicle OCR_AVAILABLE use_ocr pages)) as d
    eqn:Ed. clear Ed.
  set (lines := vin_summary d).
  assert (Hsum : forall l,
            list_sum (map (fun k => length (getitem d k)) l)
            = length (flat_map (getitem d) l)).
  { induction l as [|k l IH]; simpl; auto. rewrite length_app, IH. auto. }
  assert (E1 : list_sum (map (fun line => snd (fst line)) lines)
               = length pages).
  { unfold lines, vin_summary, sorted_vins. rewrite map_map. cbn [fst snd].
    rewrite Hsum.
    rewrite (Permutation_length
               (Permutation_flat_map (getitem d)
                  (sorted_perm _ _ pair_ltb sort_key (keys d)))).
    rewrite (flat_getitem d Hnd).
    rewrite <- (length_map fst), (Permutation_length Hperm).
    apply length_seq. }
  assert (E2 : Forall (fun line => 1 <= snd (fst line)) lines).
  { unfold lines, vin_summary. apply Forall_forall. intros line Hl.
    apply in_map_iff in Hl. destruct Hl as (k & <- & Hk). simpl.
    assert (Hk' : In k (keys d))
      by (eapply Permutation_in; [apply sorted_perm|exact Hk]).
    destruct (getitem_of_key d k Hk') as (l & Hin & ->).
    assert (Hne : Forall (fun b => snd b <> []) d).
    { rewrite Eb. apply loop_nonempty. constructor. }
    rewrite Forall_forall in Hne. specialize (Hne _ Hin). simpl in Hne.
    destruct l; [contradiction|simpl; lia]. }
  split; [exact E1|]. split; [exact E2|]. split.
  - unfold lines, vin_summary. rewrite map_map. simpl. rewrite map_id.
    eapply Permutation_NoDup; [symmetry; apply sorted_perm|exact Hnd].
  - rewrite <- E1. clear E1. induction E2 as [|line ls Hl Hls IH]; simpl; lia.
Qed.

Lemma X5_summary_counts_witness :
  let lines :=
    vin_summary (buckets (sort_pdf_by_vehicle false false three_pages)) in
  list_sum (map (fun line => snd (fst line)) lines) = length three_pages
  /\ Forall (fun line => 1 <= snd (fst line)) lines
  /\ NoDup (map (fun line => fst (fst line)) lines)
  /\ length lines <= length three_pages.
Proof.
  apply (X5_summary_counts false false three_pages [2; 0; 1]).
  vm_compute. reflexivity.
Defined.

(** X6. A document on which no page yields a key is written back in its
    original order: when the check of the first page lets the run go on and
    every page is recorded as ("Unknown", "Unknown"), the order handed to
    the writer is 0, 1, ..., N-1. *)
Theorem X6_all_Unknown_keeps_order (OCR_AVAILABLE use_ocr needs_ocr : bool)
    (pages : list page) (made0 : list call) :
  check_first_page OCR_AVAILABLE use_ocr pages = (made0, Some needs_ocr) ->
  (forall p, In p pages ->
             record_of OCR_AVAILABLE needs_ocr p = (Unknown, Unknown)) ->
  result (sort_pdf_by_vehicle OCR_AVAILABLE use_ocr pages)
  = Written (seq 0 (length pages)).
Proof.
  intros Hc Hall. unfold sort_pdf_by_vehicle. rewrite Hc. cbn [result].
  rewrite (write_all_Unknown OCR_AVAILABLE needs_ocr pages made0 Hall).
  reflexivity.
Qed.

Lemma X6_all_Unknown_keeps_order_witness :
  result (sort_pdf_by_vehicle false false blank_pages)
  = Written (seq 0 (length blank_pages)).
Proof.
  apply (X6_all_Unknown_keeps_order false false false blank_pages
           [ExtractText 0]).
  - vm_compute. reflexivity.
  - intros p [<-|[<-|[]]]; vm_compute; reflexivity.
Defined.

(** X7. [validate_pdf_magic_number] answers true exactly when the file can
    be read and its content starts with the four bytes "%PDF"; a file that
    cannot be read, an empty file and a file shorter than four bytes are
    all refused, without an error. *)
Theorem X7_magic_number (file : option bytes) :
  (validate_pdf_magic_number file = true
   <-> exists rest, file = Some (lit_bytes "%PDF" ++ rest))
  /\ (forall content,
        length content < 4 -> validate_pdf_magic_number (Some content) = false)
  /\ validate_pdf_magic_number None = false.
Proof.
  split; [|split].
  - unfold validate_pdf_magic_number. destruct file as [content|].
    + cbv zeta. rewrite bytes_eqb_eq. split.
      * intros H. exists (skipn 4 content).
        rewrite <- H, firstn_skipn. reflexivity.
      * intros (rest & E). injection E as ->. reflexivity.
    + split; [discriminate|]. intros (rest & E). discriminate.
  - intros content Hl. unfold validate_pdf_magic_number. cbv zeta.
    destruct (bytes_eqb (firstn 4 content) (lit_bytes "%PDF")) eqn:E; auto.
    apply bytes_eqb_eq in E. apply (f_equal (@length Byte.byte)) in E.
    rewrite length_firstn in E.
    change (length (lit_bytes "%PDF")) with 4 in E. lia.
  - reflexivity.
Qed.

Lemma X7_magic_number_witness :
  validate_pdf_magic_number (Some (lit_bytes "%PD")) = false.
Proof.
  apply (proj1 (proj2 (X7_magic_number None)) (lit_bytes "%PD")).
  simpl. lia.
Defined.

(** X8. Reading an upload back.  Take a body that opens with the delimiter
    "--" + boundary, followed by a part made of CRLF, headers that contain
    "filename=" and no empty line, an empty line, the content of the file
    and CRLF, then the delimiter again and anything after it; assume the
    delimiter does not occur before the one that closes the part.  Then
    [parse_multipart] returns the content with a trailing "--" removed if
    there is one, and then a trailing CRLF removed if there is one; it
    returns the content itself when the content ends with neither. *)
Theorem X8_upload_read_back (boundary : text) (headers content after_ : bytes) :
  bcontains (lit_bytes "filename=") headers = true ->
  bfind (CRLF ++ CRLF) (file_part headers content) = Some (2 + length headers) ->
  bfind (encode_utf8 (str "--" ++ boundary))
        (file_part headers content ++ encode_utf8 (str "--" ++ boundary))
  = Some (length (file_part headers content)) ->
  parse_multipart
    (encode_utf8 (str "--" ++ boundary) ++ file_part headers content
     ++ encode_utf8 (str "--" ++ boundary) ++ after_) boundary
  = drop_marker CRLF (drop_marker (lit_bytes "--") content)
  /\ (bendswith (lit_bytes "--") content = false ->
      bendswith CRLF content = false ->
      parse_multipart
        (encode_utf8 (str "--" ++ boundary) ++ file_part headers content
         ++ encode_utf8 (str "--" ++ boundary) ++ after_) boundary
      = content).
Proof.
  intros Hf Hh Hb.
  pose proof (upload_parsed boundary headers content after_ Hf Hh Hb) as E.
  split; [exact E|].
  intros H1 H2. rewrite E, (drop_marker_absent _ _ H1).
  apply drop_marker_absent, H2.
Qed.

Lemma X8_upload_read_back_witness :
  parse_multipart
    (encode_utf8 (str "--" ++ str "XYZ") ++ file_part file_headers pdf_content
     ++ encode_utf8 (str "--" ++ str "XYZ") ++ lit_bytes "--") (str "XYZ")
  = pdf_content.
Proof.
  apply (proj2 (X8_upload_read_back (str "XYZ") file_headers pdf_content
                  (lit_bytes "--") eq_refl eq_refl eq_refl));
    reflexivity.
Defined.

(** X9. What an upload loses.  Under the conditions of X8, a file whose
    content ends with CRLF comes back without that CRLF, and a file whose
    content ends with "--" (after something that is not a CRLF) comes back
    without those two bytes: the removal of the trailing markers does not
    stop at the CRLF that the multipart format puts after the content. *)
Theorem X9_trailing_bytes_lost (boundary : text)
    (headers content last_bytes after_ : bytes) :
  last_bytes = CRLF
  \/ (last_bytes = lit_bytes "--" /\ bendswith CRLF content = false) ->
  bcontains (lit_bytes "filename=") headers = true ->
  bfind (CRLF ++ CRLF) (file_part headers (content ++ last_bytes))
  = Some (2 + length headers) ->
  bfind (encode_utf8 (str "--" ++ boundary))
        (file_part headers (content ++ last_bytes)
         ++ encode_utf8 (str "--" ++ boundary))
  = Some (length (file_part headers (content ++ last_bytes))) ->
  parse_multipart
    (encode_utf8 (str "--" ++ boundary)
     ++ file_part headers (content ++ last_bytes)
     ++ encode_utf8 (str "--" ++ boundary) ++ after_) boundary
  = content.
Proof.
  intros Hl Hf Hh Hb.
  rewrite (upload_parsed boundary headers (content ++ last_bytes) after_
             Hf Hh Hb).
  destruct Hl as [-> | [-> H2]].
  - assert (Hd : bendswith (lit_bytes "--") (content ++ CRLF) = false).
    { unfold bendswith. rewrite rev_app_distr. reflexivity. }
    rewrite (drop_marker_absent _ _ Hd). apply drop_marker_CRLF.
  - rewrite drop_marker_dashes. apply drop_marker_absent, H2.
Qed.

Lemma X9_trailing_bytes_lost_witness :
  parse_multipart
    (encode_utf8 (str "--" ++ str "XYZ")
     ++ file_part file_headers (pdf_content ++ CRLF)
     ++ encode_utf8 (str "--" ++ str "XYZ") ++ lit_bytes "--") (str "XYZ")
  = pdf_content.
Proof.
  apply (X9_trailing_bytes_lost (str "XYZ") file_headers pdf_content CRLF
           (lit_bytes "--")).
  - left. reflexivity.
  - reflexivity.
  - reflexivity.
  - reflexivity.
Defined.

(** X10. A body in which the bytes "filename=" do not occur holds no file
    for [parse_multipart]: it returns the empty byte string, whatever the
    boundary. *)
Theorem X10_no_file_field (body : bytes) (boundary : text) :
  bcontains (lit_bytes "filename=") body = false ->
  parse_multipart body boundary = [].
Proof.
  intros H. unfold parse_multipart. cbv zeta.
  apply parse_parts_no_file, body_parts_no_file, H.
Qed.

Lemma X10_no_file_field_witness :
  parse_multipart body_without_file (str "XYZ") = [].
Proof.
  apply (X10_no_file_field body_without_file (str "XYZ")). reflexivity.
Defined.

(** X11. The boundary of a multipart request.  For a content type
    "multipart/form-data; boundary=" followed by a boundary that holds no
    ";" and neither starts nor ends with white space or a double quote,
    [handle_process] passes exactly that boundary to [parse_multipart]; it
    passes the same boundary when the parameter is written between double
    quotes.  A content type without the words "multipart/form-data" is
    refused with "Expected multipart/form-data". *)
Theorem X11_boundary_extracted (bd : text) :
  plain_boundary bd ->
  request_boundary (str "multipart/form-data; boundary=" ++ bd) = inr bd
  /\ request_boundary
       (str "multipart/form-data; boundary=" ++ dquote :: bd ++ [dquote])
     = inr bd
  /\ (forall content_type,
        contains (str "multipart/form-data") content_type = false ->
        request_boundary content_type = inl ExpectedMultipart).
Proof.
  intros Hp.
  destruct (plain_boundary_shape bd Hp)
    as (a & bd' & z & -> & Ez & Ha & Hz & Hsemi).
  apply plain_char_spec in Ha, Hz.
  destruct Ha as [Ha Haq], Hz as [Hz Hzq].
  assert (Hskip : forall rest,
            boundary_in (str "multipart/form-data" :: rest) = boundary_in rest)
    by reflexivity.
  assert (Hraw : forall v,
            Forall (fun x => x <> ch ";") v ->
            split (ch ";") (str "multipart/form-data; boundary=" ++ v)
            = [str "multipart/form-data"; str " boundary=" ++ v]).
  { intros v Hv.
    change (str "multipart/form-data; boundary=" ++ v)
      with (str "multipart/form-data" ++ ch ";" :: (str " boundary=" ++ v)).
    rewrite split_at_sep by (repeat constructor; discriminate).
    rewrite split_no_sep; [reflexivity|].
    apply Forall_app. split; [repeat constructor; discriminate|exact Hv]. }
  assert (Hstrip : forall v v' y,
            v = removelast v ++ [y] -> isspace y = false -> v = v' ->
            strip (str " boundary=" ++ v) = str "boundary=" ++ v).
  { intros v v' y Ev Hy _.
    change (strip (str " boundary=" ++ v))
      with (rstrip (str "boundary=" ++ v)).
    rewrite Ev, app_assoc. apply rstrip_last, Hy. }
  split; [|split].
  - unfold request_boundary.
    change (str "multipart/form-data; boundary=" ++ a :: bd')
      with (str "multipart/form-data"
            ++ (str "; boundary=" ++ a :: bd')) at 1.
    rewrite contains_prefix. cbn [negb].
    rewrite (Hraw _ Hsemi), Hskip. cbn [boundary_in].
    rewrite (Hstrip (a :: bd') (a :: bd') z Ez Hz eq_refl).
    rewrite startswith_app.
    change (skipn 9 (str "boundary=" ++ a :: bd')) with (a :: bd').
    unfold strip_char. cbn [lstrip_char]. rewrite Haq.
    rewrite Ez, (strip_char_last dquote _ z Hzq). rewrite <- Ez. reflexivity.
  - unfold request_boundary.
    change (str "multipart/form-data; boundary=" ++ dquote :: (a :: bd') ++ [dquote])
      with (str "multipart/form-data"
            ++ (str "; boundary=" ++ dquote :: (a :: bd') ++ [dquote])) at 1.
    rewrite contains_prefix. cbn [negb].
    assert (Hq : Forall (fun x => x <> ch ";")
                   (dquote :: (a :: bd') ++ [dquote])).
    { constructor; [discriminate|]. apply Forall_app. split; auto.
      repeat constructor. discriminate. }
    rewrite (Hraw _ Hq), Hskip. cbn [boundary_in].
    assert (Es : strip (str " boundary=" ++ dquote :: (a :: bd') ++ [dquote])
                 = str "boundary=" ++ dquote :: (a :: bd') ++ [dquote]).
    { change (strip (str " boundary=" ++ dquote :: (a :: bd') ++ [dquote]))
        with (rstrip ((str "boundary=" ++ dquote :: a :: bd') ++ [dquote])).
      rewrite rstrip_last by reflexivity.
      rewrite <- app_assoc. reflexivity. }
    rewrite Es, startswith_app.
    change (skipn 9 (str "boundary=" ++ dquote :: (a :: bd') ++ [dquote]))
      with (dquote :: (a :: bd') ++ [dquote]).
    unfold strip_char.
    change (lstrip_char dquote (dquote :: (a :: bd') ++ [dquote]))
      with (lstrip_char dquote ((a :: bd') ++ [dquote])).
    cbn [app lstrip_char]. rewrite Haq.
    change (a :: bd' ++ [dquote]) with ((a :: bd') ++ [dquote]).
    rewrite rev_app_distr. cbn [rev app lstrip_char].
    rewrite (proj2 (N.eqb_eq dquote dquote) eq_refl).
    change (rev bd' ++ [a]) with (rev (a :: bd')).
    rewrite Ez. rewrite rev_app_distr. cbn [rev app lstrip_char].
    rewrite Hzq. cbn [rev]. rewrite rev_involutive. rewrite <- Ez.
    reflexivity.
  - intros content_type Hc. unfold request_boundary. rewrite Hc. reflexivity.
Qed.

Lemma X11_boundary_extracted_witness :
  request_boundary (str "multipart/form-data; boundary=XYZ") = inr (str "XYZ").
Proof.
  refine (proj1 (X11_boundary_extracted (str "XYZ") _)).
  split; [|split; reflexivity].
  constructor; [discriminate|]. constructor; [discriminate|].
  constructor; [discriminate|]. constructor.
Defined.

(** X12. How [handler] routes a request that is not an OPTIONS request.
    The route depends on the end of the path alone, and the four endings
    exclude one another, so the order of the tests does not matter: the
    health check is reached exactly by the paths that end with "/health",
    whatever the method; the upload URL exactly by those that end with
    "/upload-url"; [handle_process_s3] exactly by POST on a path that ends
    with "/process-s3"; [handle_process] exactly by POST on a path that
    ends with "/process".  An OPTIONS request reaches none of them. *)
Theorem X12_routes (e : event) :
  (handler e = HandleHealth
   <-> method_of e <> str "OPTIONS"
       /\ endswith (str "/health") (path_of e) = true)
  /\ (handler e = HandleUploadUrl
      <-> method_of e <> str "OPTIONS"
          /\ endswith (str "/upload-url") (path_of e) = true)
  /\ (handler e = HandleProcessS3
      <-> method_of e = str "POST"
          /\ endswith (str "/process-s3") (path_of e) = true)
  /\ (handler e = HandleProcess
      <-> method_of e = str "POST"
          /\ endswith (str "/process") (path_of e) = true).
Proof.
  unfold handler. cbv zeta.
  rewrite !route_test by reflexivity.
  destruct (text_eqb (method_of e) (str "OPTIONS")) eqn:Eo.
  { apply text_eqb_eq in Eo. rewrite Eo.
    repeat split; try discriminate; intros [H _]; try discriminate;
      contradiction H; reflexivity. }
  apply text_eqb_neq in Eo.
  pose proof (endswith_exclusive (str "/health") (str "/upload-url")
                (path_of e) _ _ _ _ eq_refl eq_refl ltac:(discriminate)) as X1.
  pose proof (endswith_exclusive (str "/health") (str "/process-s3")
                (path_of e) _ _ _ _ eq_refl eq_refl ltac:(discriminate)) as X2.
  pose proof (endswith_exclusive (str "/health") (str "/process")
                (path_of e) _ _ _ _ eq_refl eq_refl ltac:(discriminate)) as X3.
  pose proof (endswith_exclusive (str "/upload-url") (str "/process-s3")
                (path_of e) _ _ _ _ eq_refl eq_refl ltac:(discriminate)) as X4.
  pose proof (endswith_exclusive (str "/upload-url") (str "/process")
                (path_of e) _ _ _ _ eq_refl eq_refl ltac:(discriminate)) as X5.
  pose proof (endswith_exclusive (str "/process-s3") (str "/process")
                (path_of e) _ _ _ _ eq_refl eq_refl ltac:(discriminate)) as X6.
  destruct (endswith (str "/health") (path_of e)) eqn:Eh;
    destruct (endswith (str "/upload-url") (path_of e)) eqn:Eu;
    destruct (endswith (str "/process-s3") (path_of e)) eqn:Es;
    destruct (endswith (str "/process") (path_of e)) eqn:Ep;
    try clash;
    (destruct (text_eqb (method_of e) (str "POST")) eqn:Em;
     [apply text_eqb_eq in Em | apply text_eqb_neq in Em]);
    cbn [orb]; repeat split; intros;
    repeat match goal with
           | H : _ /\ _ |- _ => destruct H
           | H : _ \/ _ |- _ => destruct H
           end;
    try discriminate; try congruence; auto.
Qed.

(** X13. The answers [handler] gives by itself.  OPTIONS is answered with
    200 before the path is looked at.  Otherwise the answer is 405 exactly
    when the path ends with "/process-s3" or "/process" and the method is
    not POST, and 404 exactly when the path ends with none of "/health",
    "/upload-url", "/process-s3" and "/process".  A request without any
    method field counts as a GET. *)
Theorem X13_answers (e : event) :
  (method_of e = str "OPTIONS" -> handler e = Respond 200 None)
  /\ (method_of e <> str "OPTIONS" ->
      (handler e = Respond 405 (Some (str "Method not allowed"))
       <-> method_of e <> str "POST"
           /\ (endswith (str "/process-s3") (path_of e) = true
               \/ endswith (str "/process") (path_of e) = true))
      /\ (handler e = Respond 404 (Some (str "Not found"))
          <-> endswith (str "/health") (path_of e) = false
              /\ endswith (str "/upload-url") (path_of e) = false
              /\ endswith (str "/process-s3") (path_of e) = false
              /\ endswith (str "/process") (path_of e) = false))
  /\ (http_method e = None -> httpMethod e = None ->
      method_of e = str "GET").
Proof.
  split; [|split].
  - intros H. unfold handler. cbv zeta. rewrite H. reflexivity.
  - intros Eo. apply text_eqb_neq in Eo.
    unfold handler. cbv zeta. rewrite Eo.
    rewrite !route_test by reflexivity.
    pose proof (endswith_exclusive (str "/health") (str "/process-s3")
                  (path_of e) _ _ _ _ eq_refl eq_refl ltac:(discriminate))
      as X2.
    pose proof (endswith_exclusive (str "/health") (str "/process")
                  (path_of e) _ _ _ _ eq_refl eq_refl ltac:(discriminate))
      as X3.
    pose proof (endswith_exclusive (str "/upload-url") (str "/process-s3")
                  (path_of e) _ _ _ _ eq_refl eq_refl ltac:(discriminate))
      as X4.
    pose proof (endswith_exclusive (str "/upload-url") (str "/process")
                  (path_of e) _ _ _ _ eq_refl eq_refl ltac:(discriminate))
      as X5.
    pose proof (endswith_exclusive (str "/health") (str "/upload-url")
                  (path_of e) _ _ _ _ eq_refl eq_refl ltac:(discriminate))
      as X1.
    pose proof (endswith_exclusive (str "/process-s3") (str "/process")
                  (path_of e) _ _ _ _ eq_refl eq_refl ltac:(discriminate))
      as X6.
    destruct (endswith (str "/health") (path_of e)) eqn:Eh;
      destruct (endswith (str "/upload-url") (path_of e)) eqn:Eu;
      destruct (endswith (str "/process-s3") (path_of e)) eqn:Es;
      destruct (endswith (str "/process") (path_of e)) eqn:Ep;
      try clash;
      (destruct (text_eqb (method_of e) (str "POST")) eqn:Em;
       [apply text_eqb_eq in Em | apply text_eqb_neq in Em]);
      cbn [orb]; repeat split; intros;
      repeat match goal with
             | H : _ /\ _ |- _ => destruct H
             | H : _ \/ _ |- _ => destruct H
             end;
      try discriminate; try congruence; auto.
  - intros H1 H2. unfold method_of, get. rewrite H1, H2. reflexivity.
Qed.

Lemma X13_answers_witness :
  handler (mkEvent (Some (str "OPTIONS")) None (Some (str "/api/process")) None)
  = Respond 200 None
  /\ method_of (mkEvent None None (Some (str "/api/process")) None) = str "GET".
Proof.
  split.
  - apply (proj1 (X13_answers (mkEvent (Some (str "OPTIONS")) None
                                 (Some (str "/api/process")) None))).
    reflexivity.
  - apply (proj2 (proj2 (X13_answers (mkEvent None None
                                        (Some (str "/api/process")) None))));
      reflexivity.
Defined.

(** X14. The native layout.  When the first line of a page holds a digit
    and the second line is exactly "Vehicle", [extract_vehicle_vin] returns
    the first line, stripped, as the label and the normal form of its last
    run of digits as the key, whatever follows on the page. *)
Theorem X14_native_layout (name tail_ : text) :
  Forall (fun a => a <> (ch "010")) name ->
  has_digit name ->
  tail_ = [] \/ (exists rest, tail_ = ch "010" :: rest) ->
  extract_vehicle_vin (name ++ ch "010" :: str "Vehicle" ++ tail_)
  = (extract_last_4_digits (strip name), strip name).
Proof.
  intros Hnl Hd Ht.
  assert (Hs : exists ls,
             split (ch "010") (name ++ ch "010" :: str "Vehicle" ++ tail_)
             = name :: str "Vehicle" :: ls).
  { rewrite (split_at_sep _ _ _ Hnl).
    destruct Ht as [->|(rest & ->)].
    - exists []. reflexivity.
    - exists (split (ch "010") rest).
      rewrite (split_at_sep (ch "010") (str "Vehicle") rest); [reflexivity|].
      repeat constructor; discriminate. }
  destruct Hs as (ls & Hs).
  unfold extract_vehicle_vin. cbv zeta. rewrite Hs.
  cbn [scan_lines].
  destruct (first_line_skipped (name :: str "Vehicle" :: ls) (strip name))
    as [-> ->].
  change (strip (str "Vehicle")) with (str "Vehicle").
  change (ocr_format (name :: str "Vehicle" :: ls) 1 (str "Vehicle"))
    with (@None (text * text)).
  unfold original_format.
  change (text_eqb (str "Vehicle") (str "Vehicle")) with true.
  cbn [Nat.ltb Nat.leb Nat.sub nth]. cbv beta iota zeta.
  rewrite (has_digit_name _ (has_digit_strip _ Hd)).
  rewrite (has_digit_key _ (has_digit_strip _ Hd)).
  reflexivity.
Qed.

Lemma X14_native_layout_witness :
  extract_vehicle_vin (str "Stealth 6509" ++ ch "010" :: str "Vehicle"
                       ++ ch "010" :: str "Fuel Type Diesel")
  = (extract_last_4_digits (strip (str "Stealth 6509")),
     strip (str "Stealth 6509")).
Proof.
  apply (X14_native_layout (str "Stealth 6509")
           (ch "010" :: str "Fuel Type Diesel")).
  - repeat constructor; discriminate.
  - unfold has_digit. apply Exists_exists. exists (ch "6").
    split; [simpl; tauto|reflexivity].
  - right. exists (str "Fuel Type Diesel"). reflexivity.
Defined.
